(** * Email queue service: the job lifecycle engine

    A shallow embedding of [service/email_service.go] (with the job type of
    [models/email.go] and the job construction of
    [handlers/http_handlers.go]) and the properties of its queues, retry
    policy, dead-letter log and shutdown.

    Goroutines are modelled by an explicit, executable step function over
    the state of the process: the fields of the [EmailService] struct plus
    the part of the Go runtime state the service depends on (the heap that
    backs the dead-letter slice, the sleeping retry goroutines, where each
    of the service's goroutines stands, and where the caller of [Shutdown]
    stands). The workers differ only by the number they log, so they are
    kept as counts: blocked in their [select], holding a job, returned.
    The runtime is taken to have the memory the service asks for; what it
    refuses whatever the memory (a channel beyond the allocation limit, a
    [WaitGroup] counter beyond 32 bits) is the panic it is. *)

From Stdlib Require Import ZArith String Ascii List Bool Lia.
From stdpp Require Import base tactics option list gmap strings.

(** ** Go integers

    [int] is taken at 64 bits (the size on every 64-bit target);
    [time.Duration] is an [int64] count of nanoseconds. *)

Definition min_int : Z := (- 2 ^ 63)%Z.
Definition max_int : Z := (2 ^ 63 - 1)%Z.

Definition wrap_int (z : Z) : Z := ((z + 2 ^ 63) mod 2 ^ 64 - 2 ^ 63)%Z.

Definition Second : Z := 1000000000%Z.

(** ** models.EmailJob *)

Record EmailJob : Type := mkEmailJob {
  To : string;
  Subject : string;
  Body : string;
  Retries : Z
}.

(** The zero value of the struct, as a receive from a closed channel or a
    fresh [make]d slice element yields it. *)
Definition zeroJob : EmailJob := mkEmailJob EmptyString EmptyString EmptyString 0.

Definition with_Retries (r : Z) (j : EmailJob) : EmailJob :=
  mkEmailJob (To j) (Subject j) (Body j) r.

(** The job built by [SendEmailHandler] (http_handlers.go, lines 50-55). *)
Definition newJob (to subject body : string) : EmailJob :=
  mkEmailJob to subject body 0.

(** ** Results of calls that may panic *)

Inductive outcome (A : Type) : Type :=
| Return (a : A)
| Panic (reason : string).
Arguments Return {A} a.
Arguments Panic {A} reason.

(** A Go [error]: [None] is [nil]. *)
Definition error : Type := option string.

(** ** Buffered channels of jobs

    [buf] holds the queued elements in FIFO order, [dataqsiz] is the
    capacity given to [make]. The goroutines blocked in a receive are kept
    in the service state ([idle], [retryIdle]) and handed to the channel
    operations as a count. *)

Record chan : Type := mkChan {
  buf : list EmailJob;
  dataqsiz : Z;
  closed : bool
}.

(** What the runtime's [makechan] checks on a 64-bit target: an element
    [models.EmailJob] takes 56 bytes (three string headers and an [int]),
    and the buffer may not exceed [maxAlloc] less the channel header (96
    bytes, 104 in later releases: the largest capacity is the same). *)
Definition EmailJob_size : Z := 56.
Definition maxAlloc : Z := (2 ^ 48)%Z.
Definition hchanSize : Z := 96.

(** The largest capacity [make(chan models.EmailJob, n)] accepts. *)
Definition max_chan_size : Z := ((maxAlloc - hchanSize) / EmailJob_size)%Z.

Definition make_chan (size : Z) : outcome chan :=
  if (size <? 0)%Z || (maxAlloc - hchanSize <? EmailJob_size * size)%Z
  then Panic "makechan: size out of range"
  else Return (mkChan [] size false).

Definition chan_len (c : chan) : Z := Z.of_nat (length (buf c)).

(** A send cannot proceed: for an unbuffered channel no receiver is
    waiting, for a buffered one the buffer is filled up. *)
Definition full (c : chan) (receivers : nat) : bool :=
  if (dataqsiz c =? 0)%Z then receivers =? 0
  else (chan_len c =? dataqsiz c)%Z.

Inductive sent : Type :=
| Buffered (c' : chan)   (* appended to the buffer *)
| HandedOff              (* given directly to a blocked receiver *)
| WouldBlock.            (* the [default] branch of the [select] runs *)

(** [select { case c <- x: ... default: ... }] *)
Definition chansend (c : chan) (receivers : nat) (x : EmailJob) : outcome sent :=
  if closed c then Panic "send on closed channel"
  else if 0 <? receivers then Return HandedOff
  else if (chan_len c <? dataqsiz c)%Z
       then Return (Buffered (mkChan (buf c ++ [x]) (dataqsiz c) (closed c)))
  else Return WouldBlock.

(** A receive that is ready: the oldest buffered element, or the zero
    value once the channel is closed and drained. [None]: it would block. *)
Definition chanrecv (c : chan) : option (EmailJob * chan) :=
  match buf c with
  | x :: rest => Some (x, mkChan rest (dataqsiz c) (closed c))
  | [] => if closed c then Some (zeroJob, c) else None
  end.

Definition closechan (c : chan) : outcome chan :=
  if closed c then Panic "close of closed channel"
  else Return (mkChan (buf c) (dataqsiz c) true).

(** ** Slices of jobs over a heap of backing arrays *)

Abbreviation heap_t := (gmap positive (list EmailJob)).

Record slice : Type := mkSlice {
  array : positive;   (* the backing array *)
  off : nat;          (* index of the slice's first element in it *)
  len : nat;
  cap : nat
}.

(** The elements a slice denotes. *)
Definition elems (h : heap_t) (s : slice) : list EmailJob :=
  match h !! array s with
  | Some a => take (len s) (drop (off s) a)
  | None => []
  end.

(** [make([]models.EmailJob, n)] *)
Definition make_slice (n : nat) (h : heap_t) : slice * heap_t :=
  let l := fresh (dom h) in
  (mkSlice l 0 n n, <[l := replicate n zeroJob]> h).

(** Overwrite [a[i], a[i+1], ...] with [xs]. *)
Definition store (a : list EmailJob) (i : nat) (xs : list EmailJob) : list EmailJob :=
  take i a ++ xs ++ drop (i + length xs) a.

(** [copy(dst, src)]: the number of elements copied and the new heap. *)
Definition copy_slice (dst src : slice) (h : heap_t) : nat * heap_t :=
  let n := Nat.min (len dst) (len src) in
  (n, alter (fun a => store a (off dst) (take n (elems h src))) (array dst) h).

(** Capacity of the array [append] allocates when the old one is too
    small: at least the new length, doubling otherwise. *)
Definition growcap (newLen oldCap : nat) : nat := Nat.max newLen (2 * oldCap).

(** [append(s, x)] *)
Definition append_slice (s : slice) (x : EmailJob) (h : heap_t) : slice * heap_t :=
  if len s <? cap s then
    (mkSlice (array s) (off s) (S (len s)) (cap s),
     alter (fun a => <[off s + len s := x]> a) (array s) h)
  else
    let c := growcap (S (len s)) (cap s) in
    let l := fresh (dom h) in
    (mkSlice l 0 (S (len s)) c,
     <[l := elems h s ++ x :: replicate (c - S (len s)) zeroJob]> h).

(** What the holder of a slice can do to it. *)
Inductive mutation : Type :=
| SetIndex (i : nat) (x : EmailJob)   (* s[i] = x *)
| Append (x : EmailJob)               (* s = append(s, x) *)
| Reslice (lo hi : nat).              (* s = s[lo:hi] *)

(** [None]: the operation panics (index or bounds out of range). *)
Definition mutate (m : mutation) (sh : slice * heap_t) : option (slice * heap_t) :=
  let '(s, h) := sh in
  match m with
  | SetIndex i x =>
      if i <? len s
      then Some (s, alter (fun a => <[off s + i := x]> a) (array s) h)
      else None
  | Append x => Some (append_slice s x h)
  | Reslice lo hi =>
      if (lo <=? hi) && (hi <=? cap s)
      then Some (mkSlice (array s) (off s + lo) (hi - lo) (cap s - lo), h)
      else None
  end.

Fixpoint mutate_all (ms : list mutation) (sh : slice * heap_t) : option (slice * heap_t) :=
  match ms with
  | [] => Some sh
  | m :: ms' =>
      match mutate m sh with
      | Some sh' => mutate_all ms' sh'
      | None => None
      end
  end.

(** A slice is well formed in a heap when its backing array is allocated
    and the slice lies inside it, its capacity reaching the array's end. *)
Definition wf_slice (h : heap_t) (s : slice) : Prop :=
  exists a, h !! array s = Some a /\ off s + cap s = length a /\ len s <= cap s.

(** ** Log lines *)

Inductive LogEntry : Type :=
| LogProcessing (workerID : Z) (to subject : string)
| LogSent (workerID : Z) (to : string)
| LogRecovered (workerID : Z) (r : string)
| LogRetrying (retries : Z) (to : string)
| LogPermanentlyFailed (to : string)
| LogDeadLettered (to : string)
| LogStarted (workers queueSize : Z)
| LogShuttingDown
| LogShutdownComplete.

(** ** The service state *)

(** Where the goroutine [retryWorker] stands in its loop. *)
Inductive retry_state : Type :=
| RwOuter                      (* at the outer [select] (line 124) *)
| RwInner                      (* at the inner [select] (line 130), not blocked *)
| RwParked                     (* blocked in the inner [select] *)
| RwHolding (job : EmailJob)   (* received [job], [processJob] pending *)
| RwExited.                    (* returned *)

(** Where the caller of [Shutdown] stands. *)
Inductive shutdown_state : Type :=
| SdNotCalled
| SdClosing      (* [jobQueue] is closed (line 229), [shutdown] not yet *)
| SdWaiting      (* in [es.wg.Wait()] (line 235) *)
| SdReturned.

Record EmailService : Type := mkEmailService {
  (* fields of the struct *)
  jobQueue : chan;
  retryQueue : chan;
  deadLetterLog : slice;
  workers : Z;
  queueSize : Z;
  wg : Z;                          (* counter of the [sync.WaitGroup] *)
  shutdown : bool;                 (* the [shutdown] channel has been closed *)
  (* Prometheus metrics *)
  queueLength : Z;
  jobsProcessed : nat;
  jobsFailed : nat;
  deadLetterJobs : nat;
  (* the process around it *)
  heap : heap_t;                   (* backing arrays of slices *)
  started : bool;                  (* [Start] has launched the goroutines *)
  timers : list (Z * EmailJob);    (* sleeping retry goroutines: duration, captured job *)
  inflight : list EmailJob;        (* jobs received by a worker, [processJob] pending *)
  idle : nat;                      (* workers blocked in the [select] of [worker] *)
  exited : nat;                    (* workers that have returned *)
  retryWorker : retry_state;       (* where [retryWorker] stands *)
  monitoring : bool;               (* [monitorQueueLength] is running *)
  stopping : shutdown_state;       (* where the caller of [Shutdown] stands *)
  logs : list LogEntry
}.

Definition set_jobQueue (v : chan) (es : EmailService) : EmailService :=
  mkEmailService v (retryQueue es) (deadLetterLog es) (workers es)
    (queueSize es) (wg es) (shutdown es) (queueLength es) (jobsProcessed es)
    (jobsFailed es) (deadLetterJobs es) (heap es) (started es) (timers es)
    (inflight es) (idle es) (exited es) (retryWorker es) (monitoring es)
    (stopping es) (logs es).

Definition set_retryQueue (v : chan) (es : EmailService) : EmailService :=
  mkEmailService (jobQueue es) v (deadLetterLog es) (workers es) (queueSize es)
    (wg es) (shutdown es) (queueLength es) (jobsProcessed es) (jobsFailed es)
    (deadLetterJobs es) (heap es) (started es) (timers es) (inflight es)
    (idle es) (exited es) (retryWorker es) (monitoring es) (stopping es)
    (logs es).

Definition set_deadLetterLog (v : slice * heap_t) (es : EmailService) : EmailService :=
  mkEmailService (jobQueue es) (retryQueue es) (fst v) (workers es)
    (queueSize es) (wg es) (shutdown es) (queueLength es) (jobsProcessed es)
    (jobsFailed es) (deadLetterJobs es) (snd v) (started es) (timers es)
    (inflight es) (idle es) (exited es) (retryWorker es) (monitoring es)
    (stopping es) (logs es).

Definition set_workers (v : Z) (es : EmailService) : EmailService :=
  mkEmailService (jobQueue es) (retryQueue es) (deadLetterLog es) v
    (queueSize es) (wg es) (shutdown es) (queueLength es) (jobsProcessed es)
    (jobsFailed es) (deadLetterJobs es) (heap es) (started es) (timers es)
    (inflight es) (idle es) (exited es) (retryWorker es) (monitoring es)
    (stopping es) (logs es).

Definition set_queueSize (v : Z) (es : EmailService) : EmailService :=
  mkEmailService (jobQueue es) (retryQueue es) (deadLetterLog es) (workers es) v
    (wg es) (shutdown es) (queueLength es) (jobsProcessed es) (jobsFailed es)
    (deadLetterJobs es) (heap es) (started es) (timers es) (inflight es)
    (idle es) (exited es) (retryWorker es) (monitoring es) (stopping es)
    (logs es).

Definition set_wg (v : Z) (es : EmailService) : EmailService :=
  mkEmailService (jobQueue es) (retryQueue es) (deadLetterLog es) (workers es)
    (queueSize es) v (shutdown es) (queueLength es) (jobsProcessed es)
    (jobsFailed es) (deadLetterJobs es) (heap es) (started es) (timers es)
    (inflight es) (idle es) (exited es) (retryWorker es) (monitoring es)
    (stopping es) (logs es).

Definition set_shutdown (v : bool) (es : EmailService) : EmailService :=
  mkEmailService (jobQueue es) (retryQueue es) (deadLetterLog es) (workers es)
    (queueSize es) (wg es) v (queueLength es) (jobsProcessed es) (jobsFailed es)
    (deadLetterJobs es) (heap es) (started es) (timers es) (inflight es)
    (idle es) (exited es) (retryWorker es) (monitoring es) (stopping es)
    (logs es).

Definition set_queueLength (v : Z) (es : EmailService) : EmailService :=
  mkEmailService (jobQueue es) (retryQueue es) (deadLetterLog es) (workers es)
    (queueSize es) (wg es) (shutdown es) v (jobsProcessed es) (jobsFailed es)
    (deadLetterJobs es) (heap es) (started es) (timers es) (inflight es)
    (idle es) (exited es) (retryWorker es) (monitoring es) (stopping es)
    (logs es).

Definition set_jobsProcessed (v : nat) (es : EmailService) : EmailService :=
  mkEmailService (jobQueue es) (retryQueue es) (deadLetterLog es) (workers es)
    (queueSize es) (wg es) (shutdown es) (queueLength es) v (jobsFailed es)
    (deadLetterJobs es) (heap es) (started es) (timers es) (inflight es)
    (idle es) (exited es) (retryWorker es) (monitoring es) (stopping es)
    (logs es).

Definition set_jobsFailed (v : nat) (es : EmailService) : EmailService :=
  mkEmailService (jobQueue es) (retryQueue es) (deadLetterLog es) (workers es)
    (queueSize es) (wg es) (shutdown es) (queueLength es) (jobsProcessed es) v
    (deadLetterJobs es) (heap es) (started es) (timers es) (inflight es)
    (idle es) (exited es) (retryWorker es) (monitoring es) (stopping es)
    (logs es).

Definition set_deadLetterJobs (v : nat) (es : EmailService) : EmailService :=
  mkEmailService (jobQueue es) (retryQueue es) (deadLetterLog es) (workers es)
    (queueSize es) (wg es) (shutdown es) (queueLength es) (jobsProcessed es)
    (jobsFailed es) v (heap es) (started es) (timers es) (inflight es) (idle es)
    (exited es) (retryWorker es) (monitoring es) (stopping es) (logs es).

Definition set_heap (v : heap_t) (es : EmailService) : EmailService :=
  mkEmailService (jobQueue es) (retryQueue es) (deadLetterLog es) (workers es)
    (queueSize es) (wg es) (shutdown es) (queueLength es) (jobsProcessed es)
    (jobsFailed es) (deadLetterJobs es) v (started es) (timers es) (inflight es)
    (idle es) (exited es) (retryWorker es) (monitoring es) (stopping es)
    (logs es).

Definition set_started (v : bool) (es : EmailService) : EmailService :=
  mkEmailService (jobQueue es) (retryQueue es) (deadLetterLog es) (workers es)
    (queueSize es) (wg es) (shutdown es) (queueLength es) (jobsProcessed es)
    (jobsFailed es) (deadLetterJobs es) (heap es) v (timers es) (inflight es)
    (idle es) (exited es) (retryWorker es) (monitoring es) (stopping es)
    (logs es).

Definition set_timers (v : list (Z * EmailJob)) (es : EmailService) : EmailService :=
  mkEmailService (jobQueue es) (retryQueue es) (deadLetterLog es) (workers es)
    (queueSize es) (wg es) (shutdown es) (queueLength es) (jobsProcessed es)
    (jobsFailed es) (deadLetterJobs es) (heap es) (started es) v (inflight es)
    (idle es) (exited es) (retryWorker es) (monitoring es) (stopping es)
    (logs es).

Definition set_inflight (v : list EmailJob) (es : EmailService) : EmailService :=
  mkEmailService (jobQueue es) (retryQueue es) (deadLetterLog es) (workers es)
    (queueSize es) (wg es) (shutdown es) (queueLength es) (jobsProcessed es)
    (jobsFailed es) (deadLetterJobs es) (heap es) (started es) (timers es) v
    (idle es) (exited es) (retryWorker es) (monitoring es) (stopping es)
    (logs es).

Definition set_idle (v : nat) (es : EmailService) : EmailService :=
  mkEmailService (jobQueue es) (retryQueue es) (deadLetterLog es) (workers es)
    (queueSize es) (wg es) (shutdown es) (queueLength es) (jobsProcessed es)
    (jobsFailed es) (deadLetterJobs es) (heap es) (started es) (timers es)
    (inflight es) v (exited es) (retryWorker es) (monitoring es) (stopping es)
    (logs es).

Definition set_exited (v : nat) (es : EmailService) : EmailService :=
  mkEmailService (jobQueue es) (retryQueue es) (deadLetterLog es) (workers es)
    (queueSize es) (wg es) (shutdown es) (queueLength es) (jobsProcessed es)
    (jobsFailed es) (deadLetterJobs es) (heap es) (started es) (timers es)
    (inflight es) (idle es) v (retryWorker es) (monitoring es) (stopping es)
    (logs es).

Definition set_retryWorker (v : retry_state) (es : EmailService) : EmailService :=
  mkEmailService (jobQueue es) (retryQueue es) (deadLetterLog es) (workers es)
    (queueSize es) (wg es) (shutdown es) (queueLength es) (jobsProcessed es)
    (jobsFailed es) (deadLetterJobs es) (heap es) (started es) (timers es)
    (inflight es) (idle es) (exited es) v (monitoring es) (stopping es)
    (logs es).

Definition set_monitoring (v : bool) (es : EmailService) : EmailService :=
  mkEmailService (jobQueue es) (retryQueue es) (deadLetterLog es) (workers es)
    (queueSize es) (wg es) (shutdown es) (queueLength es) (jobsProcessed es)
    (jobsFailed es) (deadLetterJobs es) (heap es) (started es) (timers es)
    (inflight es) (idle es) (exited es) (retryWorker es) v (stopping es)
    (logs es).

Definition set_stopping (v : shutdown_state) (es : EmailService) : EmailService :=
  mkEmailService (jobQueue es) (retryQueue es) (deadLetterLog es) (workers es)
    (queueSize es) (wg es) (shutdown es) (queueLength es) (jobsProcessed es)
    (jobsFailed es) (deadLetterJobs es) (heap es) (started es) (timers es)
    (inflight es) (idle es) (exited es) (retryWorker es) (monitoring es) v
    (logs es).

Definition set_logs (v : list LogEntry) (es : EmailService) : EmailService :=
  mkEmailService (jobQueue es) (retryQueue es) (deadLetterLog es) (workers es)
    (queueSize es) (wg es) (shutdown es) (queueLength es) (jobsProcessed es)
    (jobsFailed es) (deadLetterJobs es) (heap es) (started es) (timers es)
    (inflight es) (idle es) (exited es) (retryWorker es) (monitoring es)
    (stopping es) v.

(** [retryWorker] is blocked on the retry queue. *)
Definition retryIdle (es : EmailService) : bool :=
  match retryWorker es with RwParked => true | _ => false end.

(** The number of worker goroutines [Start] launches. *)
Definition nworkers (es : EmailService) : nat := Z.to_nat (workers es).

(** A worker stands at its [select]: it is not blocked there, holds no job
    and has not returned. *)
Definition free_worker (es : EmailService) : bool :=
  started es && (idle es + length (inflight es) + exited es <? nworkers es).

(** The records of the dead-letter log, oldest first. *)
Definition deadLetters (es : EmailService) : list EmailJob :=
  elems (heap es) (deadLetterLog es).

(** Goroutines blocked in a receive on each queue. *)
Definition jobReceivers (es : EmailService) : nat := idle es.
Definition retryReceivers (es : EmailService) : nat :=
  idle es + (if retryIdle es then 1 else 0).

(** ** Methods

    A method is a state-passing computation that returns or panics. *)

Definition M (A : Type) : Type := EmailService -> outcome A * EmailService.

Definition ret {A : Type} (a : A) : M A := fun es => (Return a, es).

Definition bind {A B : Type} (m : M A) (k : A -> M B) : M B :=
  fun es =>
    match m es with
    | (Return a, es') => k a es'
    | (Panic r, es') => (Panic r, es')
    end.

#[global] Instance M_ret : MRet M := @ret.
#[global] Instance M_bind : MBind M := fun A B k m => bind m k.

(** [defer func() { if r := recover(); r != nil { h r } }()] around [m]. *)
Definition recover (m : M unit) (h : string -> M unit) : M unit :=
  fun es =>
    match m es with
    | (Return a, es') => (Return a, es')
    | (Panic r, es') => h r es'
    end.

Definition logf (e : LogEntry) : M unit :=
  fun es => (Return tt, set_logs (logs es ++ [e]) es).

(** The demo's failure test of [processJob] (line 154). The index is only
    evaluated after [len(job.Subject) > 10] held, so it is in range. *)
Definition simulatedFailure (job : EmailJob) : bool :=
  if (Retries job =? 0)%Z then
    if 10 <? String.length (Subject job) then
      match String.get (String.length (Subject job) - 1) (Subject job) with
      | Some c => Ascii.eqb c "!"%char
      | None => false
      end
    else false
  else false.

(** [go func() { time.Sleep(...); select {...} }()]: the new goroutine
    sleeps for [time.Duration(job.Retries) * time.Second] holding [job]. *)
Definition go_retry (job : EmailJob) : M unit :=
  fun es =>
    (Return tt, set_timers (timers es ++ [(wrap_int (Retries job * Second), job)]) es).

Section Faults.

(** An unexpected runtime fault is a panic raised by the statement at a
    source line of email_service.go; [None]: no fault occurs. *)
Variable fault : option nat.

Definition stmt {A : Type} (line : nat) (m : M A) : M A :=
  fun es =>
    if decide (fault = Some line) then (Panic "runtime fault", es)
    else m es.

(** The body runs under [deadLetterLock]. *)
Definition moveToDeadLetter (job : EmailJob) : M unit :=
  stmt 192 (fun es =>
    (Return tt, set_deadLetterLog (append_slice (deadLetterLog es) job (heap es)) es)) ;;
  stmt 193 (fun es => (Return tt, set_jobsFailed (S (jobsFailed es)) es)) ;;
  stmt 194 (fun es => (Return tt, set_deadLetterJobs (S (deadLetterJobs es)) es)) ;;
  stmt 196 (logf (LogDeadLettered (To job))).

Definition handleJobFailure (job0 : EmailJob) : M unit :=
  let job := with_Retries (wrap_int (Retries job0 + 1)) job0 in
  if (Retries job <=? 3)%Z then
    stmt 169 (logf (LogRetrying (Retries job) (To job))) ;;
    stmt 172 (go_retry job)
  else
    stmt 182 (logf (LogPermanentlyFailed (To job))) ;;
    stmt 183 (moveToDeadLetter job).

(** [processJob] without its deferred [recover]. *)
Definition processJob_body (job : EmailJob) (workerID : Z) : M unit :=
  stmt 148 (logf (LogProcessing workerID (To job) (Subject job))) ;;
  stmt 151 (ret tt) ;;     (* time.Sleep(1 * time.Second) *)
  failed ← stmt 154 (ret (simulatedFailure job));
  if failed : bool then
    stmt 156 (handleJobFailure job)
  else
    stmt 160 (logf (LogSent workerID (To job))) ;;
    stmt 161 (fun es => (Return tt, set_jobsProcessed (S (jobsProcessed es)) es)).

Definition processJob (job : EmailJob) (workerID : Z) : M unit :=
  recover (processJob_body job workerID)
          (fun r => logf (LogRecovered workerID r)).

End Faults.

(** The goroutine started by [handleJobFailure], once its sleep is over
    (lines 174-179). *)
Definition retryGoroutine (job : EmailJob) : M unit :=
  fun es =>
    match chansend (retryQueue es) (retryReceivers es) job with
    | Panic r => (Panic r, es)
    | Return (Buffered c') => (Return tt, set_retryQueue c' es)
    | Return HandedOff =>
        (Return tt,
         if 0 <? idle es
         then set_inflight (inflight es ++ [job]) (set_idle (pred (idle es)) es)
         else set_retryWorker (RwHolding job) es)
    | Return WouldBlock => moveToDeadLetter None job es
    end.

(** [make] of a channel panics for a size that is negative or beyond the
    allocation limit; the registration of the metrics is not modelled (one
    service per process). *)
Definition NewEmailService (workers queueSize : Z) : outcome EmailService :=
  match make_chan queueSize with
  | Panic r => Panic r
  | Return jq =>
      match make_chan (Z.quot queueSize 2) with
      | Panic r => Panic r
      | Return rq =>
          let '(dl, h) := make_slice 0 ∅ in
          Return (mkEmailService jq rq dl workers queueSize 0 false
                    0 0 0 0 h false [] [] 0 0 RwOuter false SdNotCalled [])
      end
  end.

(** The counter of a [sync.WaitGroup] has 32 bits: [Add] panics when it
    leaves the range of an [int32]. *)
Definition max_wg : Z := (2 ^ 31 - 1)%Z.

(** The largest number of workers [Start] can launch beside [retryWorker]. *)
Definition max_workers : Z := (max_wg - 1)%Z.

Definition wg_Add (delta : Z) : M unit :=
  fun es =>
    let v := (wg es + delta)%Z in
    if (v <? 0)%Z || (max_wg <? v)%Z
    then (Panic "sync: negative WaitGroup counter"%string, es)
    else (Return tt, set_wg v es).

(** [Start] adds one to the counter for each of the [workers] goroutines it
    launches (none when [workers] is not positive) and one for
    [retryWorker]; [monitorQueueLength] is not counted. *)
Definition Start : M unit :=
  ((fun es => wg_Add (Z.of_nat (nworkers es) + 1) es) : M unit) ;;
  ((fun es =>
      (Return tt,
       set_logs (logs es ++ [LogStarted (workers es) (queueSize es)])
         (set_monitoring true (set_started true es)))) : M unit).

Definition EnqueueJob (job : EmailJob) : M error :=
  fun es =>
    match chansend (jobQueue es) (jobReceivers es) job with
    | Panic r => (Panic r, es)
    | Return (Buffered c') => (Return None, set_jobQueue c' es)
    | Return HandedOff =>
        (Return None,
         set_inflight (inflight es ++ [job]) (set_idle (pred (idle es)) es))
    | Return WouldBlock => (Return (Some "queue is full"%string), es)
    end.

Definition GetDeadLetterJobs : M slice :=
  fun es =>
    let '(jobs, h1) := make_slice (len (deadLetterLog es)) (heap es) in
    let '(_, h2) := copy_slice jobs (deadLetterLog es) h1 in
    (Return jobs, set_heap h2 es).

(** One tick of [monitorQueueLength]. *)
Definition monitorTick : M unit :=
  fun es => (Return tt, set_queueLength (chan_len (jobQueue es)) es).

(** A worker or [retryWorker] returns: the deferred [es.wg.Done()]. *)
Definition wg_Done : M unit := wg_Add (-1).

Definition worker_return : M unit :=
  wg_Done ;; ((fun es => (Return tt, set_exited (S (exited es)) es)) : M unit).

Definition retryWorker_return : M unit :=
  wg_Done ;; ((fun es => (Return tt, set_retryWorker RwExited es)) : M unit).

(** [Shutdown] is not atomic: the other goroutines run between its
    statements, and [es.wg.Wait()] blocks. Its parts, in order. *)

(** Lines 226-229. Closing [jobQueue] wakes every worker blocked in its
    [select] with the zero value of the receive case. *)
Definition Shutdown_closeJobQueue : M unit :=
  logf LogShuttingDown ;;
  ((fun es =>
      match closechan (jobQueue es) with
      | Panic r => (Panic r, es)
      | Return c =>
          (Return tt,
           set_idle 0
             (set_inflight (inflight es ++ replicate (idle es) zeroJob)
                (set_jobQueue c es)))
      end) : M unit).

(** Line 232. A worker still blocked in its [select] is woken in the
    shutdown case and returns. *)
Definition Shutdown_closeShutdown : M unit :=
  ((fun es =>
      if shutdown es then (Panic "close of closed channel"%string, es)
      else (Return tt, set_shutdown true es)) : M unit) ;;
  ((fun es =>
      match wg_Add (- Z.of_nat (idle es)) es with
      | (Panic r, es') => (Panic r, es')
      | (Return _, es') =>
          (Return tt, set_idle 0 (set_exited (exited es + idle es) es'))
      end) : M unit).

(** Line 235: [es.wg.Wait()] returns once the counter is zero. *)
Definition wg_Wait (es : EmailService) : bool := (wg es =? 0)%Z.

(** Line 237. *)
Definition Shutdown_complete : M unit := logf LogShutdownComplete.

(** ** The process as a transition system *)

Inductive event : Type :=
| EvStart
| EvSendEmail (to subject body : string)   (* a valid POST /send-email *)
| EvTakeJob                (* a worker at its [select] receives from [jobQueue] *)
| EvTakeRetry              (* a worker at its [select] receives from [retryQueue] *)
| EvWorkerPark             (* a worker blocks in its [select] *)
| EvWorkerExit             (* a worker takes the shutdown case and returns *)
| EvRetryWorkerEnter       (* [retryWorker] takes the [default] of its outer [select] *)
| EvRetryWorkerTake        (* ... receives from [retryQueue] in the inner one *)
| EvRetryWorkerPark        (* ... blocks in the inner one *)
| EvRetryWorkerTimeout     (* ... leaves it after 100ms *)
| EvRetryWorkerProcess (fault : option nat)
                           (* ... runs [processJob] on the job it holds *)
| EvRetryWorkerExit        (* ... takes the shutdown case and returns *)
| EvProcess (i : nat) (workerID : Z) (fault : option nat)
                           (* worker [workerID] runs [processJob] on the
                              [i]-th job in flight *)
| EvRetryTimer (i : nat)   (* the [i]-th sleeping retry goroutine wakes up *)
| EvMonitorTick            (* [monitorQueueLength] takes a tick *)
| EvMonitorExit            (* ... takes the shutdown case and returns *)
| EvGetDeadLetterJobs
| EvShutdown               (* [Shutdown] is called and closes [jobQueue] *)
| EvShutdownSignal         (* ... closes [shutdown] *)
| EvShutdownReturn.        (* ... returns from [es.wg.Wait()] *)

(** [Shutdown] as the steps of its caller, which the other goroutines
    interleave with: lines 226-229, line 232, lines 235-237. *)
Definition Shutdown : list event :=
  [EvShutdown; EvShutdownSignal; EvShutdownReturn].

Definition is_none {A : Type} (o : option A) : bool :=
  match o with None => true | Some _ => false end.

Definition returned {A : Type} (r : outcome A * EmailService) : option EmailService :=
  match r with
  | (Return _, es') => Some es'
  | (Panic _, _) => None
  end.

(** [None]: the event cannot happen in this state, or the process dies of
    a panic outside [processJob]. [Start] is called once, as main.go does.
    A panic of [EnqueueJob] unwinds into the HTTP server, which recovers
    it, and leaves the service as it was. A [select] with several ready
    cases takes any of them; the timer of the inner [select] of
    [retryWorker] may have fired by the time the goroutine gets there. *)
Definition step (ev : event) (es : EmailService) : option EmailService :=
  match ev with
  | EvStart =>
      if started es then None else returned (Start es)
  | EvSendEmail to subject body =>
      Some (snd (EnqueueJob (newJob to subject body) es))
  | EvTakeJob =>
      if free_worker es then
        match chanrecv (jobQueue es) with
        | Some (job, c) => Some (set_inflight (inflight es ++ [job]) (set_jobQueue c es))
        | None => None
        end
      else None
  | EvTakeRetry =>
      if free_worker es then
        match chanrecv (retryQueue es) with
        | Some (job, c) => Some (set_inflight (inflight es ++ [job]) (set_retryQueue c es))
        | None => None
        end
      else None
  | EvWorkerPark =>
      if free_worker es
         && is_none (chanrecv (jobQueue es)) && is_none (chanrecv (retryQueue es))
         && negb (shutdown es)
      then Some (set_idle (S (idle es)) es)
      else None
  | EvWorkerExit =>
      if free_worker es && shutdown es then returned (worker_return es) else None
  | EvRetryWorkerEnter =>
      match retryWorker es with
      | RwOuter =>
          if started es && negb (shutdown es)
          then Some (set_retryWorker RwInner es) else None
      | _ => None
      end
  | EvRetryWorkerTake =>
      match retryWorker es with
      | RwInner =>
          if started es then
            match chanrecv (retryQueue es) with
            | Some (job, c) =>
                Some (set_retryWorker (RwHolding job) (set_retryQueue c es))
            | None => None
            end
          else None
      | _ => None
      end
  | EvRetryWorkerPark =>
      match retryWorker es with
      | RwInner =>
          if started es && is_none (chanrecv (retryQueue es))
          then Some (set_retryWorker RwParked es) else None
      | _ => None
      end
  | EvRetryWorkerTimeout =>
      match retryWorker es with
      | RwInner | RwParked =>
          if started es then Some (set_retryWorker RwOuter es) else None
      | _ => None
      end
  | EvRetryWorkerProcess fault =>
      match retryWorker es with
      | RwHolding job =>
          if started es
          then returned (processJob fault job 0 (set_retryWorker RwOuter es))
          else None
      | _ => None
      end
  | EvRetryWorkerExit =>
      match retryWorker es with
      | RwOuter =>
          if started es && shutdown es then returned (retryWorker_return es) else None
      | _ => None
      end
  | EvProcess i workerID fault =>
      if (1 <=? workerID)%Z && (workerID <=? workers es)%Z then
        match inflight es !! i with
        | Some job =>
            returned (processJob fault job workerID
                        (set_inflight (delete i (inflight es)) es))
        | None => None
        end
      else None
  | EvRetryTimer i =>
      match timers es !! i with
      | Some (_, job) =>
          returned (retryGoroutine job (set_timers (delete i (timers es)) es))
      | None => None
      end
  | EvMonitorTick =>
      if monitoring es then Some (snd (monitorTick es)) else None
  | EvMonitorExit =>
      if monitoring es && shutdown es then Some (set_monitoring false es) else None
  | EvGetDeadLetterJobs => Some (snd (GetDeadLetterJobs es))
  | EvShutdown =>
      match Shutdown_closeJobQueue es with
      | (Return _, es') => Some (set_stopping SdClosing es')
      | (Panic _, _) => None
      end
  | EvShutdownSignal =>
      match stopping es with
      | SdClosing =>
          match Shutdown_closeShutdown es with
          | (Return _, es') => Some (set_stopping SdWaiting es')
          | (Panic _, _) => None
          end
      | _ => None
      end
  | EvShutdownReturn =>
      match stopping es with
      | SdWaiting =>
          if wg_Wait es
          then Some (set_stopping SdReturned (snd (Shutdown_complete es)))
          else None
      | _ => None
      end
  end.

Fixpoint run (evs : list event) (es : EmailService) : option EmailService :=
  match evs with
  | [] => Some es
  | ev :: evs' =>
      match step ev es with
      | Some es' => run evs' es'
      | None => None
      end
  end.

(** The states of a service built by [NewEmailService workers queueSize]. *)
Definition reachable (workers queueSize : Z) (es : EmailService) : Prop :=
  exists es0 evs,
    NewEmailService workers queueSize = Return es0 /\ run evs es0 = Some es.

(** ** Invariants and specification predicates *)

(** Go keeps a receiver blocked on a channel only while its buffer is
    empty, and never holds more elements than the capacity. *)
Definition wf_chan (c : chan) (receivers : nat) : Prop :=
  (0 <= dataqsiz c)%Z /\ (chan_len c <= dataqsiz c)%Z /\
  (0 < receivers -> buf c = []).

Definition wf_service (es : EmailService) : Prop :=
  wf_slice (heap es) (deadLetterLog es) /\
  wf_chan (jobQueue es) (jobReceivers es) /\
  wf_chan (retryQueue es) (retryReceivers es) /\
  closed (retryQueue es) = false /\
  (0 < idle es -> closed (jobQueue es) = false).

(** The part of the state [processJob] never writes: everything but the
    log lines, the processed counter and the sleeping retries. *)
Definition same_service (es es' : EmailService) : Prop :=
  jobQueue es' = jobQueue es /\ retryQueue es' = retryQueue es /\
  deadLetterLog es' = deadLetterLog es /\ heap es' = heap es /\
  workers es' = workers es /\ queueSize es' = queueSize es /\
  shutdown es' = shutdown es /\ queueLength es' = queueLength es /\
  jobsFailed es' = jobsFailed es /\ deadLetterJobs es' = deadLetterJobs es /\
  started es' = started es /\ inflight es' = inflight es /\
  idle es' = idle es /\ retryIdle es' = retryIdle es.

(** ... and it leaves the goroutines and the caller of [Shutdown] where
    they are. *)
Definition same_goroutines (es es' : EmailService) : Prop :=
  wg es' = wg es /\ exited es' = exited es /\
  retryWorker es' = retryWorker es /\ monitoring es' = monitoring es /\
  stopping es' = stopping es.

(** The subject ends with an exclamation mark. *)
Definition ends_with_bang (s : string) : Prop :=
  exists p : string, s = String.append p "!".

(** The demo failure of the spec: retry count 0, subject longer than 10
    bytes and ending with '!'. *)
Definition demo_failure (job : EmailJob) : Prop :=
  Retries job = 0%Z /\ 10 < String.length (Subject job) /\
  ends_with_bang (Subject job).

(** Where the retry count of a job stands at each place of the service. *)
Definition retry_discipline (es : EmailService) : Prop :=
  Forall (fun j => Retries j = 0%Z) (buf (jobQueue es)) /\
  Forall (fun j => Retries j = 0%Z \/ Retries j = 1%Z) (inflight es) /\
  Forall (fun t => fst t = Second /\ Retries (snd t) = 1%Z) (timers es) /\
  Forall (fun j => Retries j = 1%Z) (buf (retryQueue es)) /\
  Forall (fun j => Retries j = 1%Z) (deadLetters es).

(** The dead-letter counters agree with the log. *)
Definition counters_agree (es : EmailService) : Prop :=
  jobsFailed es = deadLetterJobs es /\
  deadLetterJobs es = length (deadLetters es).

(** What holds of every reachable state of a service built with
    [workers] and [queueSize]. *)
Definition service_inv (w q : Z) (es : EmailService) : Prop :=
  wf_service es /\ retry_discipline es /\ counters_agree es /\
  dataqsiz (jobQueue es) = q /\ dataqsiz (retryQueue es) = Z.quot q 2 /\
  workers es = w /\ queueSize es = q.

(** 1 while [retryWorker] has not returned. *)
Definition retry_alive (es : EmailService) : Z :=
  match retryWorker es with RwExited => 0 | _ => 1 end.

(** The goroutines of every reachable state: the workers are accounted
    for, the [WaitGroup] counts those that have not returned, and the two
    channels [Shutdown] closes stand as its caller has left them. *)
Definition pool_inv (es : EmailService) : Prop :=
  idle es + length (inflight es) + exited es <= nworkers es /\
  (started es = false ->
     idle es = 0 /\ inflight es = [] /\ exited es = 0 /\
     retryWorker es = RwOuter /\ monitoring es = false /\ wg es = 0%Z) /\
  (started es = true ->
     wg es = (Z.of_nat (nworkers es - exited es) + retry_alive es)%Z /\
     (Z.of_nat (nworkers es) + 1 <= max_wg)%Z) /\
  (stopping es = SdNotCalled <-> closed (jobQueue es) = false) /\
  (shutdown es = true <-> stopping es = SdWaiting \/ stopping es = SdReturned) /\
  (shutdown es = false -> exited es = 0 /\ retryWorker es <> RwExited) /\
  match retryWorker es with
  | RwHolding job => Retries job = 1%Z
  | _ => True
  end.

(** ** Sample inputs *)

(** The state [NewEmailService] returns for a queue size it accepts. *)
Definition initial (workers queueSize : Z) : EmailService :=
  mkEmailService (mkChan [] queueSize false) (mkChan [] (Z.quot queueSize 2) false)
    (fst (make_slice 0 ∅)) workers queueSize 0 false 0 0 0 0
    (snd (make_slice 0 ∅)) false [] [] 0 0 RwOuter false SdNotCalled [].

Definition failingJob : EmailJob := newJob "a@b.com" "This will fail!" "x".
Definition plainJob : EmailJob := newJob "a@b.com" "Hi" "x".

(** One job submitted, taken by worker 1, processed, its retry timer
    fired, the retry taken by worker 2 and processed. *)
Definition lifecycle : list event :=
  [EvStart; EvSendEmail "a@b.com" "This will fail!" "x"; EvTakeJob;
   EvProcess 0 1 None; EvRetryTimer 0; EvTakeRetry; EvProcess 0 2 None].

(** The same job up to its retry timer, which finds the retry queue full. *)
Definition lifecycle_full : list event :=
  [EvStart; EvSendEmail "a@b.com" "This will fail!" "x"; EvTakeJob;
   EvProcess 0 1 None; EvRetryTimer 0].

(** [Start], then [Shutdown] while the three workers and [retryWorker] stand
    at their [select]: they return, and [Shutdown] returns after them. *)
Definition shutdown_run : list event :=
  [EvStart; EvShutdown; EvShutdownSignal; EvRetryWorkerExit; EvWorkerExit;
   EvWorkerExit; EvWorkerExit; EvMonitorExit; EvShutdownReturn].

Definition run_from (w q : Z) (evs : list event) : EmailService :=
  match run evs (initial w q) with
  | Some es => es
  | None => initial w q
  end.

(** ** Regular expressions (package regexp)

    [regexp.MatchString] with a pattern anchored by [^] and [$] reports
    whether the whole text belongs to the language of the pattern. The
    classes of the pattern below are ASCII, so matching bytes and matching
    runes agree. *)

Inductive regex : Type :=
| Nothing
| Epsilon
| Class (p : ascii -> bool)   (* a bracket expression or a literal *)
| Cat (r1 r2 : regex)
| Alt (r1 r2 : regex)
| Star (r : regex).

Definition Lit (c : ascii) : regex := Class (Ascii.eqb c).
Definition Plus (r : regex) : regex := Cat r (Star r).            (* r+ *)
Definition AtLeast2 (r : regex) : regex := Cat r (Cat r (Star r)). (* r{2,} *)

(** The texts a pattern matches. *)
Inductive matches : regex -> list ascii -> Prop :=
| MEpsilon : matches Epsilon []
| MClass p c : p c = true -> matches (Class p) [c]
| MCat r1 r2 s1 s2 :
    matches r1 s1 -> matches r2 s2 -> matches (Cat r1 r2) (s1 ++ s2)
| MAltL r1 r2 s : matches r1 s -> matches (Alt r1 r2) s
| MAltR r1 r2 s : matches r2 s -> matches (Alt r1 r2) s
| MStarNil r : matches (Star r) []
| MStarApp r s1 s2 :
    matches r s1 -> matches (Star r) s2 -> matches (Star r) (s1 ++ s2).

(** Matching by derivatives. *)
Fixpoint nullable (r : regex) : bool :=
  match r with
  | Nothing => false
  | Epsilon => true
  | Class _ => false
  | Cat r1 r2 => nullable r1 && nullable r2
  | Alt r1 r2 => nullable r1 || nullable r2
  | Star _ => true
  end.

Fixpoint deriv (c : ascii) (r : regex) : regex :=
  match r with
  | Nothing => Nothing
  | Epsilon => Nothing
  | Class p => if p c then Epsilon else Nothing
  | Cat r1 r2 =>
      if nullable r1 then Alt (Cat (deriv c r1) r2) (deriv c r2)
      else Cat (deriv c r1) r2
  | Alt r1 r2 => Alt (deriv c r1) (deriv c r2)
  | Star r1 => Cat (deriv c r1) (Star r1)
  end.

Fixpoint accepts (r : regex) (s : list ascii) : bool :=
  match s with
  | [] => nullable r
  | c :: s' => accepts (deriv c r) s'
  end.

(** ** utils.ValidateEmail *)

Definition between (lo hi c : ascii) : bool :=
  (nat_of_ascii lo <=? nat_of_ascii c) && (nat_of_ascii c <=? nat_of_ascii hi).

Definition one_of (set : string) (c : ascii) : bool :=
  existsb (Ascii.eqb c) (list_ascii_of_string set).

Definition letter (c : ascii) : bool := between "a" "z" c || between "A" "Z" c.
Definition alnum (c : ascii) : bool := letter c || between "0" "9" c.

(** [[a-zA-Z0-9._%+-]] and [[a-zA-Z0-9.-]] *)
Definition localClass (c : ascii) : bool := alnum c || one_of "._%+-" c.
Definition domainClass (c : ascii) : bool := alnum c || one_of ".-" c.

(** [^[a-zA-Z0-9._%+-]+@[a-zA-Z0-9.-]+\.[a-zA-Z]{2,}$] *)
Definition emailPattern : regex :=
  Cat (Plus (Class localClass))
    (Cat (Lit "@")
       (Cat (Plus (Class domainClass))
          (Cat (Lit ".") (AtLeast2 (Class letter))))).

Definition ValidateEmail (email : string) : bool :=
  accepts emailPattern (list_ascii_of_string email).

(** ** handlers: requests and responses

    A request is given by its method and by what
    [json.NewDecoder(r.Body).Decode(&req)] made of its body ([None]: the
    decoder returned an error). A response is its status code and what
    was written to it. *)

(** models.EmailRequest (fields To, Subject, Body). *)
Record EmailRequest : Type := mkEmailRequest {
  ReqTo : string;
  ReqSubject : string;
  ReqBody : string
}.

Record Request : Type := mkRequest {
  Method : string;
  decoded : option EmailRequest
}.

Inductive payload : Type :=
| ErrorText (msg : string)                 (* http.Error *)
| JSONMap (m : gmap string string)         (* an encoded map[string]string *)
| DeadLetterReport (count : nat) (jobs : list (string * string * string)).
                                           (* count and the jobs' to, subject, body *)

Record response : Type := mkResponse {
  status : Z;
  body : payload
}.

Definition StatusOK : Z := 200.
Definition StatusAccepted : Z := 202.
Definition StatusBadRequest : Z := 400.
Definition StatusMethodNotAllowed : Z := 405.
Definition StatusUnprocessableEntity : Z := 422.
Definition StatusServiceUnavailable : Z := 503.

Definition isEmpty (s : string) : bool :=
  match s with EmptyString => true | String _ _ => false end.

Definition httpError (msg : string) (code : Z) : response :=
  mkResponse code (ErrorText msg).

Definition SendEmailHandler (r : Request) : M response :=
  fun es =>
    if negb (String.eqb (Method r) "POST") then
      (Return (httpError "Method not allowed" StatusMethodNotAllowed), es)
    else
      match decoded r with
      | None => (Return (httpError "Invalid JSON" StatusBadRequest), es)
      | Some req =>
          if isEmpty (ReqTo req) || isEmpty (ReqSubject req) || isEmpty (ReqBody req) then
            (Return (httpError "All fields (to, subject, body) are required"
                       StatusUnprocessableEntity), es)
          else if negb (ValidateEmail (ReqTo req)) then
            (Return (httpError "Invalid email format" StatusUnprocessableEntity), es)
          else
            match EnqueueJob (mkEmailJob (ReqTo req) (ReqSubject req) (ReqBody req) 0) es with
            | (Panic p, es') => (Panic p, es')
            | (Return (Some _), es') =>
                (Return (httpError "Queue is full" StatusServiceUnavailable), es')
            | (Return None, es') =>
                (Return (mkResponse StatusAccepted
                           (JSONMap {[ "status"%string := "accepted"%string;
                                       "message"%string := "Email queued for processing"%string ]})),
                 es')
            end
      end.

(** The fields of a job its JSON encoding shows ([Retries] has tag "-"). *)
Definition public (job : EmailJob) : string * string * string :=
  (To job, Subject job, Body job).

Definition DeadLetterHandler (r : Request) : M response :=
  fun es =>
    if negb (String.eqb (Method r) "GET") then
      (Return (httpError "Method not allowed" StatusMethodNotAllowed), es)
    else
      match GetDeadLetterJobs es with
      | (Panic p, es') => (Panic p, es')
      | (Return jobs, es') =>
          (Return (mkResponse StatusOK
                     (DeadLetterReport (len jobs) (map public (elems (heap es') jobs)))),
           es')
      end.

(** ** config *)

(** The environment; [os.Getenv] gives the empty string for an unset key. *)
Definition Getenv (env : gmap string string) (key : string) : string :=
  match env !! key with
  | Some v => v
  | None => EmptyString
  end.

Definition digit_value (c : ascii) : option Z :=
  if between "0" "9" c then Some (Z.of_nat (nat_of_ascii c - 48)) else None.

Fixpoint parse_digits (n : Z) (s : list ascii) : option Z :=
  match s with
  | [] => Some n
  | c :: s' =>
      match digit_value c with
      | Some d => parse_digits (n * 10 + d) s'
      | None => None
      end
  end.

(** [strconv.Atoi]: an optional sign, then one or more decimal digits, the
    value within the range of [int]; [None]: it returns an error. *)
Definition Atoi (s : string) : option Z :=
  match list_ascii_of_string s with
  | [] => None
  | c :: rest =>
      let digits := if Ascii.eqb c "-" || Ascii.eqb c "+" then rest else c :: rest in
      match digits with
      | [] => None
      | _ :: _ =>
          match parse_digits 0 digits with
          | Some n =>
              let v := if Ascii.eqb c "-" then (- n)%Z else n in
              if (min_int <=? v)%Z && (v <=? max_int)%Z then Some v else None
          | None => None
          end
      end
  end.

Record Config : Type := mkConfig {
  Workers : Z;
  QueueSize : Z;
  Port : string
}.

Definition getEnvInt (env : gmap string string) (key : string) (defaultValue : Z) : Z :=
  let value := Getenv env key in
  if negb (isEmpty value) then
    match Atoi value with
    | Some intValue => intValue
    | None => defaultValue
    end
  else defaultValue.

Definition getEnvString (env : gmap string string) (key defaultValue : string) : string :=
  let value := Getenv env key in
  if negb (isEmpty value) then value else defaultValue.

Definition LoadConfig (env : gmap string string) : Config :=
  mkConfig (getEnvInt env "WORKERS" 3) (getEnvInt env "QUEUE_SIZE" 100)
    (getEnvString env "PORT" "8080").

(** The start of [main]: load the configuration, build the service and
    start it. *)
Definition startup (env : gmap string string) : outcome EmailService :=
  let cfg := LoadConfig env in
  match NewEmailService (Workers cfg) (QueueSize cfg) with
  | Return es =>
      match Start es with
      | (Return _, es') => Return es'
      | (Panic p, _) => Panic p
      end
  | Panic p => Panic p
  end.

(** ** Accounting for jobs *)

(** Jobs the service holds, and jobs it is done with. *)
Definition in_system (es : EmailService) : nat :=
  length (buf (jobQueue es)) + length (inflight es) + length (timers es) +
  length (buf (retryQueue es)) +
  match retryWorker es with RwHolding _ => 1 | _ => 0 end.

Definition finished (es : EmailService) : nat :=
  jobsProcessed es + length (deadLetters es).

(** 1 when the event is a submission that [EnqueueJob] accepts. *)
Definition accepted (ev : event) (es : EmailService) : nat :=
  match ev with
  | EvSendEmail to subject body =>
      match fst (EnqueueJob (newJob to subject body) es) with
      | Return None => 1
      | _ => 0
      end
  | _ => 0
  end.

Fixpoint accepted_in (evs : list event) (es : EmailService) : nat :=
  match evs with
  | [] => 0
  | ev :: evs' =>
      accepted ev es +
      match step ev es with
      | Some es' => accepted_in evs' es'
      | None => 0
      end
  end.

(** Events of normal operation: no injected fault, no [Shutdown]. *)
Definition regular (ev : event) : bool :=
  match ev with
  | EvProcess _ _ (Some _) => false
  | EvRetryWorkerProcess (Some _) => false
  | EvShutdown => false
  | _ => true
  end.

(** Log lines of an attempt that does not give up on the job. *)
Definition attempt_line (e : LogEntry) : bool :=
  match e with
  | LogProcessing _ _ _ | LogSent _ _ | LogRecovered _ _ | LogRetrying _ _ => true
  | _ => false
  end.

(** More sample inputs. *)
Definition sampleRequest : Request :=
  mkRequest "POST" (Some (mkEmailRequest "a@b.com" "Hi" "x")).

Definition idleState : EmailService :=
  run_from 3 100 [EvStart; EvWorkerPark; EvWorkerPark].

Definition sleepingState : EmailService :=
  run_from 3 100
    [EvStart; EvSendEmail "a@b.com" "This will fail!" "x"; EvTakeJob;
     EvProcess 0 1 None].

(** Two jobs queued, [Shutdown] called and both its channels closed, then
    a tick the monitor still takes. *)
Definition sampledState : EmailService :=
  run_from 3 100
    [EvStart; EvSendEmail "a@b.com" "one" "x"; EvSendEmail "c@d.org" "two" "y";
     EvShutdown; EvShutdownSignal; EvMonitorTick].

(** Two jobs queued, one taken by a worker, then [Shutdown] called: it
    waits for the worker. *)
Definition waitingState : EmailService :=
  run_from 3 100
    [EvStart; EvSendEmail "a@b.com" "Hi" "x"; EvSendEmail "c@d.org" "two" "y";
     EvTakeJob; EvShutdown; EvShutdownSignal].

(** A primary queue of capacity 1 that is filled up. *)
Definition filledState : EmailService :=
  run_from 3 1 [EvStart; EvSendEmail "a@b.com" "one" "x"].

(** ** Slices: reading, appending, copying *)

Lemma wf_slice_length (h : heap_t) (s : slice) :
  wf_slice h s -> length (elems h s) = len s.
Proof.
  intros (a & Ha & Hcap & Hlen). unfold elems. rewrite Ha.
  rewrite length_take, length_drop. lia.
Qed.

Lemma fresh_not_allocated (h : heap_t) : h !! fresh (dom h) = None.
Proof. apply not_elem_of_dom, is_fresh. Qed.

Lemma allocated_not_fresh (h : heap_t) (l : positive) :
  is_Some (h !! l) -> l <> fresh (dom h).
Proof.
  intros [a Ha] ->. rewrite fresh_not_allocated in Ha. discriminate.
Qed.

Lemma elems_same_array (h h' : heap_t) (s : slice) :
  h' !! array s = h !! array s -> elems h' s = elems h s.
Proof. unfold elems. intros ->. reflexivity. Qed.

Lemma wf_slice_same_array (h h' : heap_t) (s : slice) :
  h' !! array s = h !! array s -> wf_slice h s -> wf_slice h' s.
Proof. intros Heq (a & Ha & H). exists a. rewrite Heq. auto. Qed.

Lemma wf_slice_allocated (h : heap_t) (s : slice) :
  wf_slice h s -> is_Some (h !! array s).
Proof. intros (a & Ha & _). eauto. Qed.

Lemma append_slice_elems (h : heap_t) (s : slice) (x : EmailJob) :
  wf_slice h s ->
  elems (snd (append_slice s x h)) (fst (append_slice s x h)) = elems h s ++ [x].
Proof.
  intros Hwf. pose proof (wf_slice_length h s Hwf) as Hl.
  destruct Hwf as (a & Ha & Hcap & Hlen).
  unfold append_slice. destruct (len s <? cap s) eqn:Hroom; cbn [fst snd].
  - apply Nat.ltb_lt in Hroom.
    unfold elems; cbn [array off len]. rewrite lookup_alter_eq, Ha. cbn.
    rewrite drop_insert_ge by lia.
    replace (off s + len s - off s) with (len s) by lia.
    assert (Hin : len s < length (drop (off s) a)) by (rewrite length_drop; lia).
    rewrite (take_S_r _ _ x) by (apply list_lookup_insert_eq; exact Hin).
    rewrite take_insert_ge by lia. reflexivity.
  - unfold elems at 1; cbn [array off len]. rewrite lookup_insert_eq.
    rewrite drop_0. replace (S (len s)) with (length (elems h s ++ [x]))
      by (rewrite length_app, Hl; cbn; lia).
    change (x :: replicate ?n zeroJob) with ([x] ++ replicate n zeroJob).
    rewrite app_assoc. apply take_app_length.
Qed.

Lemma append_slice_wf (h : heap_t) (s : slice) (x : EmailJob) :
  wf_slice h s -> wf_slice (snd (append_slice s x h)) (fst (append_slice s x h)).
Proof.
  intros Hwf. pose proof (wf_slice_length h s Hwf) as Hl.
  destruct Hwf as (a & Ha & Hcap & Hlen).
  unfold append_slice. destruct (len s <? cap s) eqn:Hroom; cbn [fst snd].
  - apply Nat.ltb_lt in Hroom.
    exists (<[off s + len s := x]> a). cbn [array off len cap].
    rewrite lookup_alter_eq, Ha. cbn. rewrite length_insert. repeat split; lia.
  - exists (elems h s ++ x :: replicate (growcap (S (len s)) (cap s) - S (len s)) zeroJob).
    cbn [array off len cap]. rewrite lookup_insert_eq. split; [reflexivity|].
    rewrite length_app, Hl. cbn [length]. rewrite length_replicate.
    unfold growcap. lia.
Qed.

(** Appending to a slice leaves every other allocated array alone. *)
Lemma append_slice_frame (h : heap_t) (s : slice) (x : EmailJob) (l : positive) :
  l <> array s -> is_Some (h !! l) ->
  snd (append_slice s x h) !! l = h !! l /\ array (fst (append_slice s x h)) <> l.
Proof.
  intros Hne Hal. unfold append_slice.
  destruct (len s <? cap s); cbn [fst snd array].
  - split; [apply lookup_alter_ne|]; congruence.
  - pose proof (allocated_not_fresh h l Hal).
    split; [apply lookup_insert_ne|]; congruence.
Qed.

Lemma mutate_frame (m : mutation) (s s' : slice) (h h' : heap_t) (l : positive) :
  mutate m (s, h) = Some (s', h') ->
  l <> array s -> is_Some (h !! l) ->
  h' !! l = h !! l /\ array s' <> l.
Proof.
  intros Hm Hne Hal. destruct m as [i x|x|lo hi]; unfold mutate in Hm.
  - destruct (i <? len s); inversion Hm; subst.
    split; [apply lookup_alter_ne|]; congruence.
  - inversion Hm as [Heq]. 
    destruct (append_slice_frame h s x l Hne Hal) as [H1 H2].
    rewrite Heq in H1, H2. cbn in H1, H2. auto.
  - destruct ((lo <=? hi) && (hi <=? cap s)); inversion Hm; subst.
    cbn. split; congruence.
Qed.

Lemma mutate_all_frame (ms : list mutation) (s s' : slice) (h h' : heap_t) (l : positive) :
  mutate_all ms (s, h) = Some (s', h') ->
  l <> array s -> is_Some (h !! l) ->
  h' !! l = h !! l.
Proof.
  revert s h. induction ms as [|m ms IH]; intros s h Hm Hne Hal;
    cbn [mutate_all] in Hm.
  - inversion Hm; subst. reflexivity.
  - destruct (mutate m (s, h)) as [[s1 h1]|] eqn:H1; [|discriminate].
    destruct (mutate_frame m s s1 h h1 l H1 Hne Hal) as [Hsame Hne1].
    rewrite <- Hsame. apply (IH s1 h1 Hm).
    + congruence.
    + rewrite Hsame. exact Hal.
Qed.

(** The copy made by [GetDeadLetterJobs]. *)
Lemma GetDeadLetterJobs_copy (es : EmailService) :
  wf_slice (heap es) (deadLetterLog es) ->
  exists jobs es1,
    GetDeadLetterJobs es = (Return jobs, es1) /\
    elems (heap es1) jobs = deadLetters es /\
    array jobs <> array (deadLetterLog es) /\
    heap es1 !! array (deadLetterLog es) = heap es !! array (deadLetterLog es) /\
    is_Some (heap es1 !! array jobs) /\
    deadLetterLog es1 = deadLetterLog es /\
    jobsFailed es1 = jobsFailed es /\ deadLetterJobs es1 = deadLetterJobs es.
Proof.
  intros Hwf. pose proof (wf_slice_length _ _ Hwf) as Hl.
  pose proof (allocated_not_fresh _ _ (wf_slice_allocated _ _ Hwf)) as Hfresh.
  unfold GetDeadLetterJobs, make_slice, copy_slice.
  set (l := fresh (dom (heap es))) in *.
  set (n := len (deadLetterLog es)) in *.
  eexists _, _. split; [reflexivity|]. cbn [heap set_heap array off len].
  assert (Hlog : elems (<[l:=replicate n zeroJob]> (heap es)) (deadLetterLog es)
                 = deadLetters es).
  { apply elems_same_array. apply lookup_insert_ne. congruence. }
  repeat split.
  - unfold elems at 1. cbn [array off len].
    rewrite lookup_alter_eq, lookup_insert_eq. cbn.
    rewrite Nat.min_id, Hlog. unfold store. rewrite drop_0.
    assert (Hn : length (deadLetters es) = n) by exact Hl.
    rewrite (take_ge (deadLetters es)) by lia.
    rewrite take_0, app_nil_l, Nat.add_0_l, Hn.
    rewrite drop_ge by (rewrite length_replicate; lia).
    rewrite app_nil_r. apply take_ge. lia.
  - congruence.
  - rewrite lookup_alter_ne by congruence. apply lookup_insert_ne. congruence.
  - rewrite lookup_alter_eq, lookup_insert_eq. cbn. eauto.
Qed.

(** ** The failure test *)

Lemma get_pred_iff (s : string) (c : ascii) :
  String.get (Nat.pred (String.length s)) s = Some c <->
  exists p : string, s = String.append p (String c EmptyString).
Proof.
  induction s as [|a s IH].
  - cbn. split; [discriminate|]. intros [[|b p] Hp]; discriminate.
  - destruct s as [|b s'].
    + cbn. split.
      * intros [= ->]. exists EmptyString. reflexivity.
      * intros [[|a' [|b' p']] Hp]; cbn in Hp; inversion Hp; reflexivity.
    + change (String.get (Nat.pred (String.length (String a (String b s'))))
                (String a (String b s')))
        with (String.get (Nat.pred (String.length (String b s'))) (String b s')).
      rewrite IH. split.
      * intros [p Hp]. exists (String a p). rewrite Hp. reflexivity.
      * intros [[|a' p] Hp]; cbn in Hp; inversion Hp; subst; eauto.
Qed.

Lemma get_last_iff (s : string) (c : ascii) :
  String.get (String.length s - 1) s = Some c <->
  exists p : string, s = String.append p (String c EmptyString).
Proof. rewrite Nat.sub_1_r. apply get_pred_iff. Qed.

Lemma simulatedFailure_iff (job : EmailJob) :
  simulatedFailure job = true <-> demo_failure job.
Proof.
  unfold simulatedFailure, demo_failure, ends_with_bang.
  rewrite <- get_last_iff.
  destruct (Z.eqb_spec (Retries job) 0) as [Hr|Hr];
    [|split; [discriminate | intros [? _]; contradiction]].
  destruct (Nat.ltb_spec 10 (String.length (Subject job))) as [Hl|Hl];
    [|split; [discriminate | intros (_ & ? & _); lia]].
  destruct (String.get (String.length (Subject job) - 1) (Subject job)) as [c|].
  - destruct (Ascii.eqb_spec c "!"%char) as [->|Hc].
    + tauto.
    + split; [discriminate|]. intros (_ & _ & [= ?]). contradiction.
  - split; [discriminate|]. intros (_ & _ & ?). discriminate.
Qed.

Lemma simulatedFailure_Retries (job : EmailJob) :
  simulatedFailure job = true -> Retries job = 0%Z.
Proof. intros H. apply simulatedFailure_iff in H. apply H. Qed.

(** ** The failure handler and [processJob] *)

Lemma handleJobFailure_first (fault : option nat) (job : EmailJob) :
  Retries job = 0%Z ->
  handleJobFailure fault job =
  (stmt fault 169 (logf (LogRetrying 1 (To job))) ;;
   stmt fault 172 (go_retry (with_Retries 1 job))).
Proof. intros H. unfold handleJobFailure. rewrite H. reflexivity. Qed.

Ltac no_fault :=
  repeat match goal with
         | |- context [decide (@None nat = Some ?n)] =>
             destruct (decide (@None nat = Some n)) as [?|_]; [discriminate|]
         end.

Ltac case_faults :=
  repeat match goal with
         | |- context [decide (?f = Some ?n)] =>
             destruct (decide (f = Some n)) as [?Hfault|?Hfault];
             [ first [ discriminate Hfault | subst ]
             | try (exfalso; apply Hfault; reflexivity) ]
         end.

Lemma processJob_effect (fault : option nat) (job : EmailJob) (id : Z) (es : EmailService) :
  exists es',
    processJob fault job id es = (Return tt, es') /\
    same_service es es' /\
    (timers es' = timers es \/
     (Retries job = 0%Z /\ timers es' = timers es ++ [(Second, with_Retries 1 job)])) /\
    (jobsProcessed es' = jobsProcessed es \/ jobsProcessed es' = S (jobsProcessed es)).
Proof.
  unfold processJob, processJob_body.
  destruct (simulatedFailure job) eqn:Hf.
  - pose proof (simulatedFailure_Retries job Hf) as Hr.
    rewrite (handleJobFailure_first fault job Hr).
    unfold recover, mbind, M_bind, bind, stmt, logf, go_retry, ret.
    case_faults; (eexists; split; [reflexivity|]);
      (split; [repeat split|]); cbn; auto.
  - unfold recover, mbind, M_bind, bind, stmt, logf, go_retry, ret.
    case_faults; (eexists; split; [reflexivity|]);
      (split; [repeat split|]); cbn; auto.
Qed.

Lemma processJob_goroutines (fault : option nat) (job : EmailJob) (id : Z)
    (es : EmailService) :
  same_goroutines es (snd (processJob fault job id es)).
Proof.
  unfold processJob, processJob_body.
  destruct (simulatedFailure job) eqn:Hf.
  - pose proof (simulatedFailure_Retries job Hf) as Hr.
    rewrite (handleJobFailure_first fault job Hr).
    unfold recover, mbind, M_bind, bind, stmt, logf, go_retry, ret.
    case_faults; cbn; repeat split.
  - unfold recover, mbind, M_bind, bind, stmt, logf, go_retry, ret.
    case_faults; cbn; repeat split.
Qed.

(** ** The dead-letter log *)

Lemma moveToDeadLetter_eq (job : EmailJob) (es : EmailService) :
  moveToDeadLetter None job es =
  (Return tt,
   set_logs (logs es ++ [LogDeadLettered (To job)])
     (set_deadLetterJobs (S (deadLetterJobs es))
        (set_jobsFailed (S (jobsFailed es))
           (set_deadLetterLog (append_slice (deadLetterLog es) job (heap es)) es)))).
Proof. reflexivity. Qed.

Lemma moveToDeadLetter_effect (job : EmailJob) (es : EmailService) :
  wf_slice (heap es) (deadLetterLog es) ->
  exists es',
    moveToDeadLetter None job es = (Return tt, es') /\
    deadLetters es' = deadLetters es ++ [job] /\
    wf_slice (heap es') (deadLetterLog es') /\
    jobsFailed es' = S (jobsFailed es) /\
    deadLetterJobs es' = S (deadLetterJobs es) /\
    jobQueue es' = jobQueue es /\ retryQueue es' = retryQueue es /\
    timers es' = timers es /\ inflight es' = inflight es /\
    idle es' = idle es /\ retryIdle es' = retryIdle es /\
    workers es' = workers es /\ queueSize es' = queueSize es /\
    jobsProcessed es' = jobsProcessed es.
Proof.
  intros Hwf. eexists. split; [apply moveToDeadLetter_eq|].
  unfold deadLetters. cbn.
  split; [apply append_slice_elems; exact Hwf|].
  split; [apply append_slice_wf; exact Hwf|].
  repeat split.
Qed.

(** C8. Every call of [moveToDeadLetter] returns, appends exactly the given
    job at the end of the dead-letter log, leaves every record already in
    the log in place and unchanged, and increments the permanently-failed
    counter and the dead-lettered counter by exactly one each. *)
Theorem moveToDeadLetter_appends_one (job : EmailJob) (es : EmailService) :
  wf_slice (heap es) (deadLetterLog es) ->
  exists es',
    moveToDeadLetter None job es = (Return tt, es') /\
    deadLetters es' = deadLetters es ++ [job] /\
    length (deadLetters es') = S (length (deadLetters es)) /\
    (forall i r, deadLetters es !! i = Some r -> deadLetters es' !! i = Some r) /\
    jobsFailed es' = S (jobsFailed es) /\
    deadLetterJobs es' = S (deadLetterJobs es).
Proof.
  intros Hwf.
  destruct (moveToDeadLetter_effect job es Hwf)
    as (es' & Hrun & Hlog & _ & Hfailed & Hdead & _).
  exists es'. repeat split; auto.
  - rewrite Hlog, length_app. cbn. lia.
  - intros i r Hi. rewrite Hlog. apply lookup_app_l_Some. exact Hi.
Qed.

(** C7. [GetDeadLetterJobs] returns a slice holding the records of the
    dead-letter log in insertion order, over a backing array of its own:
    whatever the caller then does to the returned slice (assigning
    elements, appending, re-slicing), the live log and the result of a
    later [GetDeadLetterJobs] are unchanged, and a later append to the live
    log does not show through the returned slice. *)
Theorem GetDeadLetterJobs_independent_copy (es : EmailService) :
  wf_slice (heap es) (deadLetterLog es) ->
  exists jobs es1,
    GetDeadLetterJobs es = (Return jobs, es1) /\
    elems (heap es1) jobs = deadLetters es /\
    deadLetters es1 = deadLetters es /\
    (forall ms jobs' h',
        mutate_all ms (jobs, heap es1) = Some (jobs', h') ->
        deadLetters (set_heap h' es1) = deadLetters es /\
        exists jobs2 es2,
          GetDeadLetterJobs (set_heap h' es1) = (Return jobs2, es2) /\
          elems (heap es2) jobs2 = deadLetters es) /\
    (forall job es2,
        moveToDeadLetter None job es1 = (Return tt, es2) ->
        elems (heap es2) jobs = deadLetters es /\
        deadLetters es2 = deadLetters es ++ [job]).
Proof.
  intros Hwf.
  destruct (GetDeadLetterJobs_copy es Hwf)
    as (jobs & es1 & Hrun & Hcopy & Hne & Hsame & Hal & Hlog & _).
  assert (Hwf1 : wf_slice (heap es1) (deadLetterLog es1)).
  { rewrite Hlog. apply (wf_slice_same_array (heap es)); assumption. }
  assert (Hdl1 : deadLetters es1 = deadLetters es).
  { unfold deadLetters. rewrite Hlog. apply elems_same_array. exact Hsame. }
  exists jobs, es1. repeat split; auto.
  - pose proof (mutate_all_frame ms jobs jobs' (heap es1) h'
                  (array (deadLetterLog es)) H) as Hfr.
    rewrite <- Hdl1. unfold deadLetters. cbn [heap set_heap deadLetterLog].
    apply elems_same_array. rewrite Hlog. apply Hfr; [congruence|].
    rewrite Hsame. apply wf_slice_allocated. exact Hwf.
  - pose proof (mutate_all_frame ms jobs jobs' (heap es1) h'
                  (array (deadLetterLog es)) H) as Hfr.
    assert (Hh' : h' !! array (deadLetterLog es) = heap es1 !! array (deadLetterLog es)).
    { apply Hfr; [congruence|]. rewrite Hsame. apply wf_slice_allocated. exact Hwf. }
    assert (Hwf' : wf_slice (heap (set_heap h' es1)) (deadLetterLog (set_heap h' es1))).
    { cbn [heap set_heap deadLetterLog]. rewrite Hlog.
      apply (wf_slice_same_array (heap es)); [congruence | exact Hwf]. }
    destruct (GetDeadLetterJobs_copy _ Hwf')
      as (jobs2 & es2 & Hrun2 & Hcopy2 & _).
    exists jobs2, es2. split; [exact Hrun2|]. rewrite Hcopy2.
    rewrite <- Hdl1. unfold deadLetters. cbn [heap set_heap deadLetterLog].
    apply elems_same_array. rewrite Hlog. exact Hh'.
  - rewrite moveToDeadLetter_eq in H. inversion H; subst. cbn.
    rewrite <- Hcopy. apply elems_same_array.
    apply (append_slice_frame (heap es1) (deadLetterLog es1) job (array jobs));
      [congruence | exact Hal].
  - destruct (moveToDeadLetter_effect job es1 Hwf1) as (es' & Hrun' & Hlog' & _).
    rewrite H in Hrun'. inversion Hrun'; subst. rewrite Hlog', Hdl1. reflexivity.
Qed.

(** ** Non-blocking sends *)

Lemma chansend_full (c : chan) (receivers : nat) (x : EmailJob) :
  closed c = false -> wf_chan c receivers -> full c receivers = true ->
  chansend c receivers x = Return WouldBlock.
Proof.
  intros Hopen (Hcap & Hlen & Hrecv). unfold full, chansend. rewrite Hopen.
  destruct (Z.eqb_spec (dataqsiz c) 0) as [Hz|Hz].
  - intros Hr. apply Nat.eqb_eq in Hr. subst receivers. cbn.
    destruct (Z.ltb_spec (chan_len c) (dataqsiz c)); [|reflexivity].
    unfold chan_len in *. lia.
  - intros Hf. apply Z.eqb_eq in Hf.
    destruct (Nat.ltb_spec 0 receivers) as [Hpos|Hpos].
    + apply Hrecv in Hpos. unfold chan_len in Hf. rewrite Hpos in Hf. cbn in Hf. lia.
    + destruct (Z.ltb_spec (chan_len c) (dataqsiz c)); [lia | reflexivity].
Qed.

Lemma chansend_not_full (c : chan) (receivers : nat) (x : EmailJob) :
  closed c = false -> wf_chan c receivers -> full c receivers = false ->
  chansend c receivers x =
  Return (if 0 <? receivers then HandedOff
          else Buffered (mkChan (buf c ++ [x]) (dataqsiz c) false)).
Proof.
  intros Hopen (Hcap & Hlen & Hrecv). unfold full, chansend. rewrite Hopen.
  destruct (Z.eqb_spec (dataqsiz c) 0) as [Hz|Hz].
  - intros Hr. apply Nat.eqb_neq in Hr.
    destruct (Nat.ltb_spec 0 receivers); [reflexivity | lia].
  - intros Hf. apply Z.eqb_neq in Hf.
    destruct (0 <? receivers); [reflexivity|].
    destruct (Z.ltb_spec (chan_len c) (dataqsiz c)); [reflexivity | lia].
Qed.

Lemma full_buffered (c : chan) (receivers : nat) :
  wf_chan c receivers -> (0 < dataqsiz c)%Z ->
  (full c receivers = true <-> chan_len c = dataqsiz c).
Proof.
  intros _ Hpos. unfold full.
  destruct (Z.eqb_spec (dataqsiz c) 0); [lia|]. apply Z.eqb_eq.
Qed.

(** C4. On an open primary queue, a job submitted while the queue is not
    full is accepted ([EnqueueJob] returns nil) and sent on the queue:
    appended to its buffer, or given to a worker already waiting in its
    receive; a job submitted while the queue is full gets the error
    "queue is full" at once and the whole service state is unchanged. For a
    buffered queue, full means its length equals its capacity. *)
Theorem EnqueueJob_accepts_or_rejects (job : EmailJob) (es : EmailService) :
  closed (jobQueue es) = false ->
  wf_chan (jobQueue es) (jobReceivers es) ->
  (full (jobQueue es) (jobReceivers es) = false ->
     (idle es = 0 ->
        EnqueueJob job es =
        (Return None,
         set_jobQueue (mkChan (buf (jobQueue es) ++ [job])
                         (dataqsiz (jobQueue es)) false) es)) /\
     (0 < idle es ->
        EnqueueJob job es =
        (Return None,
         set_inflight (inflight es ++ [job]) (set_idle (pred (idle es)) es)))) /\
  (full (jobQueue es) (jobReceivers es) = true ->
     EnqueueJob job es = (Return (Some "queue is full"%string), es)) /\
  ((0 < dataqsiz (jobQueue es))%Z ->
     (full (jobQueue es) (jobReceivers es) = true <->
      chan_len (jobQueue es) = dataqsiz (jobQueue es)) /\
     (full (jobQueue es) (jobReceivers es) = false <->
      (chan_len (jobQueue es) < dataqsiz (jobQueue es))%Z)).
Proof.
  intros Hopen Hwf. split; [|split].
  - intros Hroom. unfold EnqueueJob.
    rewrite (chansend_not_full _ _ job Hopen Hwf Hroom). unfold jobReceivers.
    split; intros Hidle.
    + rewrite Hidle. reflexivity.
    + apply Nat.ltb_lt in Hidle. rewrite Hidle. reflexivity.
  - intros Hfull. unfold EnqueueJob.
    rewrite (chansend_full _ _ job Hopen Hwf Hfull). reflexivity.
  - intros Hpos. pose proof (full_buffered _ _ Hwf Hpos) as Hiff.
    split; [exact Hiff|]. destruct Hwf as (_ & Hlen & _).
    destruct (full (jobQueue es) (jobReceivers es)).
    + split; [discriminate|]. intros Hlt.
      assert (chan_len (jobQueue es) = dataqsiz (jobQueue es)) by (apply Hiff; reflexivity).
      lia.
    + split; [|reflexivity]. intros _.
      assert (chan_len (jobQueue es) <> dataqsiz (jobQueue es)).
      { intros Heq. apply Hiff in Heq. discriminate. }
      lia.
Qed.

(** ** The retry policy *)

Lemma wrap_int_small (z : Z) : (min_int <= z <= max_int)%Z -> wrap_int z = z.
Proof.
  unfold min_int, max_int, wrap_int. intros H.
  rewrite Z.mod_small by lia. lia.
Qed.

Lemma retryGoroutine_full (job : EmailJob) (es : EmailService) :
  closed (retryQueue es) = false ->
  wf_chan (retryQueue es) (retryReceivers es) ->
  full (retryQueue es) (retryReceivers es) = true ->
  retryGoroutine job es = moveToDeadLetter None job es.
Proof.
  intros Hopen Hwf Hfull. unfold retryGoroutine.
  rewrite (chansend_full _ _ job Hopen Hwf Hfull). reflexivity.
Qed.

Lemma retryGoroutine_not_full (job : EmailJob) (es : EmailService) :
  closed (retryQueue es) = false ->
  wf_chan (retryQueue es) (retryReceivers es) ->
  full (retryQueue es) (retryReceivers es) = false ->
  retryGoroutine job es =
  (Return tt,
   if 0 <? retryReceivers es
   then (if 0 <? idle es
         then set_inflight (inflight es ++ [job]) (set_idle (pred (idle es)) es)
         else set_retryWorker (RwHolding job) es)
   else set_retryQueue (mkChan (buf (retryQueue es) ++ [job])
                          (dataqsiz (retryQueue es)) false) es).
Proof.
  intros Hopen Hwf Hroom. unfold retryGoroutine.
  rewrite (chansend_not_full _ _ job Hopen Hwf Hroom).
  destruct (0 <? retryReceivers es); reflexivity.
Qed.

(** C3. For a failed job (retry count in range), [handleJobFailure] adds
    exactly one to the retry count. If the new count is at most 3 it
    returns at once, having started a goroutine that sleeps for that many
    seconds (1, 2, 3) and then tries a non-blocking send of the job to the
    retry queue: if the queue is full the job goes to [moveToDeadLetter],
    otherwise it is sent (appended to the buffer, or handed to a worker or
    to [retryWorker] waiting for it) and the dead-letter log is untouched.
    If the new
    count exceeds 3 the job goes to [moveToDeadLetter] directly, so no job
    with a count above 3 is ever scheduled for a retry. *)
Theorem handleJobFailure_retry_policy (job : EmailJob) (es : EmailService) :
  (0 <= Retries job < max_int)%Z ->
  let r := (Retries job + 1)%Z in
  let job' := with_Retries r job in
  ((r <= 3)%Z ->
     handleJobFailure None job es =
     (Return tt,
      set_timers (timers es ++ [((r * Second)%Z, job')])
        (set_logs (logs es ++ [LogRetrying r (To job)]) es)) /\
     forall es1,
       closed (retryQueue es1) = false ->
       wf_chan (retryQueue es1) (retryReceivers es1) ->
       (full (retryQueue es1) (retryReceivers es1) = true ->
          retryGoroutine job' es1 = moveToDeadLetter None job' es1) /\
       (full (retryQueue es1) (retryReceivers es1) = false ->
          exists es2,
            retryGoroutine job' es1 = (Return tt, es2) /\
            (buf (retryQueue es2) = buf (retryQueue es1) ++ [job'] \/
             inflight es2 = inflight es1 ++ [job'] \/
             retryWorker es2 = RwHolding job') /\
            deadLetterLog es2 = deadLetterLog es1 /\ heap es2 = heap es1 /\
            jobsFailed es2 = jobsFailed es1 /\
            deadLetterJobs es2 = deadLetterJobs es1)) /\
  ((3 < r)%Z ->
     handleJobFailure None job es =
     moveToDeadLetter None job'
       (set_logs (logs es ++ [LogPermanentlyFailed (To job)]) es)).
Proof.
  intros Hrange r job'.
  assert (Hwrap : wrap_int (Retries job + 1) = r).
  { apply wrap_int_small. unfold min_int, max_int in *. subst r. lia. }
  split.
  - intros Hle. split.
    + unfold handleJobFailure. rewrite Hwrap. fold job'.
      change (Retries job') with r.
      destruct (Z.leb_spec r 3) as [_|?]; [|lia].
      unfold mbind, M_bind, bind, stmt, logf, go_retry. cbn.
      rewrite (wrap_int_small (r * Second))
        by (unfold min_int, max_int, Second in *; subst r; lia).
      reflexivity.
    + intros es1 Hopen Hwf. split.
      * apply retryGoroutine_full; assumption.
      * intros Hroom. eexists. split; [apply retryGoroutine_not_full; assumption|].
        destruct (0 <? retryReceivers es1); [destruct (0 <? idle es1)|];
          cbn; auto 10.
  - intros Hgt. unfold handleJobFailure. rewrite Hwrap. fold job'.
    change (Retries job') with r.
    destruct (Z.leb_spec r 3) as [?|_]; [lia|]. reflexivity.
Qed.

(** ** Processing a job *)

Lemma handleJobFailure_jobsProcessed (job : EmailJob) (es : EmailService) :
  jobsProcessed (snd (handleJobFailure None job es)) = jobsProcessed es.
Proof.
  unfold handleJobFailure.
  destruct (Retries (with_Retries (wrap_int (Retries job + 1)) job) <=? 3)%Z;
    reflexivity.
Qed.

Lemma processJob_failure (job : EmailJob) (id : Z) (es : EmailService) :
  simulatedFailure job = true ->
  processJob None job id es =
  handleJobFailure None job
    (set_logs (logs es ++ [LogProcessing id (To job) (Subject job)]) es).
Proof.
  intros Hf. unfold processJob, processJob_body, handleJobFailure.
  unfold recover, mbind, M_bind, bind, stmt, ret, logf. cbn. rewrite Hf.
  destruct (wrap_int (Retries job + 1) <=? 3)%Z; reflexivity.
Qed.

Lemma processJob_success (job : EmailJob) (id : Z) (es : EmailService) :
  simulatedFailure job = false ->
  processJob None job id es =
  (Return tt,
   set_jobsProcessed (S (jobsProcessed es))
     (set_logs (logs es ++ [LogProcessing id (To job) (Subject job);
                            LogSent id (To job)]) es)).
Proof.
  intros Hf. unfold processJob, processJob_body.
  unfold recover, mbind, M_bind, bind, stmt, ret, logf. rewrite Hf.
  no_fault. destruct es; cbn. rewrite <- app_assoc. reflexivity.
Qed.

Lemma processJob_first_attempt (job : EmailJob) (id : Z) (es : EmailService) :
  simulatedFailure job = true ->
  processJob None job id es =
  (Return tt,
   set_timers (timers es ++ [(Second, with_Retries 1 job)])
     (set_logs (logs es ++ [LogProcessing id (To job) (Subject job);
                            LogRetrying 1 (To job)]) es)).
Proof.
  intros Hf. rewrite (processJob_failure job id es Hf).
  rewrite (handleJobFailure_first None job (simulatedFailure_Retries job Hf)).
  unfold mbind, M_bind, bind, stmt, logf, go_retry.
  no_fault. destruct es; cbn. rewrite <- app_assoc. reflexivity.
Qed.

Lemma not_demo_failure (job : EmailJob) :
  String.length (Subject job) <= 10 \/ ~ ends_with_bang (Subject job) \/
  Retries job <> 0%Z ->
  simulatedFailure job = false.
Proof.
  intros H. destruct (simulatedFailure job) eqn:Hf; [|reflexivity].
  apply simulatedFailure_iff in Hf. destruct Hf as (Hr & Hl & Hb).
  destruct H as [H|[H|H]]; [lia | contradiction | contradiction].
Qed.

(** C2. Processing a job takes the failure path (the failure handler runs
    on it and the processed counter stays as it was) exactly when its retry
    count is 0, its subject is longer than 10 bytes and its subject ends
    with '!'. In every other case (subject of length at most 10, or not
    ending with '!', or a retry count other than 0) processing succeeds:
    the processed counter grows by one and nothing else but the log lines
    changes, so the job is kept nowhere and no retry is scheduled. *)
Theorem processJob_fails_iff (job : EmailJob) (id : Z) (es : EmailService) :
  let es1 := set_logs (logs es ++ [LogProcessing id (To job) (Subject job)]) es in
  (processJob None job id es = handleJobFailure None job es1 <->
   demo_failure job) /\
  (demo_failure job ->
   jobsProcessed (snd (processJob None job id es)) = jobsProcessed es) /\
  (String.length (Subject job) <= 10 \/ ~ ends_with_bang (Subject job) \/
   Retries job <> 0%Z ->
   processJob None job id es =
   (Return tt,
    set_jobsProcessed (S (jobsProcessed es))
      (set_logs (logs es ++ [LogProcessing id (To job) (Subject job);
                             LogSent id (To job)]) es))).
Proof.
  intros es1. split; [|split].
  - rewrite <- simulatedFailure_iff. split.
    + intros Heq. destruct (simulatedFailure job) eqn:Hf; [reflexivity|].
      rewrite (processJob_success job id es Hf) in Heq.
      apply (f_equal (fun p => jobsProcessed (snd p))) in Heq.
      rewrite handleJobFailure_jobsProcessed in Heq. cbn in Heq. lia.
    + apply processJob_failure.
  - intros Hd. apply simulatedFailure_iff in Hd.
    rewrite (processJob_failure job id es Hd).
    rewrite handleJobFailure_jobsProcessed. reflexivity.
  - intros Hother. apply processJob_success, not_demo_failure, Hother.
Qed.

Lemma service_eq_logs (es es' : EmailService) :
  same_service es es' -> same_goroutines es es' -> timers es' = timers es ->
  jobsProcessed es' = jobsProcessed es ->
  es' = set_logs (logs es') es.
Proof.
  unfold same_service, same_goroutines. destruct es, es'; cbn. intros H Hg Ht Hp.
  repeat match goal with H : _ /\ _ |- _ => destruct H end. subst.
  reflexivity.
Qed.

Ltac log_suffix :=
  match goal with
  | |- exists l, ?L ++ [?R] = ?L ++ l ++ [?R] => exists []; reflexivity
  | |- exists l, (?L ++ ?a) ++ [?R] = ?L ++ l ++ [?R] =>
      exists a; rewrite <- !app_assoc; reflexivity
  | |- exists l, ((?L ++ ?a) ++ ?b) ++ [?R] = ?L ++ l ++ [?R] =>
      exists (a ++ b); rewrite <- !app_assoc; reflexivity
  end.

Lemma processJob_fault_frame (fault : option nat) (job : EmailJob) (id : Z)
    (es : EmailService) (r : string) :
  fst (processJob_body fault job id es) = Panic r ->
  exists es',
    processJob fault job id es = (Return tt, es') /\
    same_service es es' /\ timers es' = timers es /\
    jobsProcessed es' = jobsProcessed es /\
    exists l, logs es' = logs es ++ l ++ [LogRecovered id r].
Proof.
  unfold processJob, processJob_body.
  destruct (simulatedFailure job) eqn:Hf.
  - pose proof (simulatedFailure_Retries job Hf) as Hr.
    rewrite (handleJobFailure_first fault job Hr).
    unfold recover, mbind, M_bind, bind, stmt, logf, go_retry, ret.
    case_faults; cbn [fst]; intros Hp; inversion Hp; subst;
      (eexists; split; [reflexivity|]); (split; [repeat split|]);
      cbn; (split; [reflexivity|]); (split; [reflexivity|]); log_suffix.
  - unfold recover, mbind, M_bind, bind, stmt, logf, go_retry, ret.
    case_faults; cbn [fst]; intros Hp; inversion Hp; subst;
      (eexists; split; [reflexivity|]); (split; [repeat split|]);
      cbn; (split; [reflexivity|]); (split; [reflexivity|]); log_suffix.
Qed.

(** C6 (amended). When processing a job raises an unexpected runtime
    fault, the deferred recover catches it and logs it, [processJob]
    returns normally, so the worker goes on with its loop, and the job is
    dropped: apart from the log lines the service is as it was before, so
    the retry count is not incremented, no retry is scheduled, nothing is
    dead-lettered and the processed counter is not incremented. *)
Theorem processJob_fault_drops_job (fault : option nat) (job : EmailJob) (id : Z)
    (es : EmailService) (r : string) :
  fst (processJob_body fault job id es) = Panic r ->
  exists l,
    processJob fault job id es =
    (Return tt, set_logs (logs es ++ l ++ [LogRecovered id r]) es) /\
    timers (snd (processJob fault job id es)) = timers es /\
    deadLetters (snd (processJob fault job id es)) = deadLetters es /\
    jobsProcessed (snd (processJob fault job id es)) = jobsProcessed es /\
    retryQueue (snd (processJob fault job id es)) = retryQueue es /\
    jobQueue (snd (processJob fault job id es)) = jobQueue es.
Proof.
  intros Hp.
  destruct (processJob_fault_frame fault job id es r Hp)
    as (es' & Hrun & Hsame & Ht & Hn & l & Hl).
  pose proof (processJob_goroutines fault job id es) as Hg.
  rewrite Hrun in Hg. cbn [snd] in Hg.
  exists l. rewrite Hrun. cbn [snd].
  rewrite (service_eq_logs es es' Hsame Hg Ht Hn) at 1. rewrite Hl.
  unfold same_service in Hsame. unfold deadLetters.
  repeat match goal with H : _ /\ _ |- _ => destruct H end.
  repeat split; congruence.
Qed.

(** ** Invariants of the reachable states *)

Ltac simpl_fields :=
  cbn [jobQueue retryQueue deadLetterLog workers queueSize wg shutdown queueLength
       jobsProcessed jobsFailed deadLetterJobs heap started timers inflight idle
       exited retryWorker monitoring stopping logs
       set_jobQueue set_retryQueue set_deadLetterLog set_wg set_shutdown
       set_queueLength set_jobsProcessed set_jobsFailed set_deadLetterJobs
       set_heap set_started set_timers set_inflight set_idle set_exited
       set_retryWorker set_monitoring set_stopping
       set_logs buf dataqsiz closed fst snd] in *.

Ltac unfold_inv :=
  unfold service_inv, wf_service, retry_discipline, counters_agree, wf_chan,
    jobReceivers, retryReceivers, retryIdle, deadLetters, chan_len in *.

Ltac destruct_inv H :=
  destruct H as ((Hs & (Hj0 & Hj1 & Hj2) & (Hr0 & Hr1 & Hr2) & Hrc & Hjc)
                 & (Fq & Fi & Ft & Fr & Fd) & (Hc1 & Hc2) & Hq1 & Hq2 & Hw & Hqs).

Ltac finish_inv :=
  repeat split; auto;
  try solve
    [ intros;
      match goal with
      | H : _ -> ?x = ?y |- ?x = ?y => apply H; lia
      end
    | intros; lia
    | rewrite length_app; cbn [length]; lia
    | apply Forall_app; split; auto; repeat constructor; auto
    | apply Forall_delete; auto ].

Lemma GetDeadLetterJobs_heap_only (es : EmailService) :
  exists jobs h, GetDeadLetterJobs es = (Return jobs, set_heap h es).
Proof. unfold GetDeadLetterJobs, make_slice, copy_slice. eexists _, _. reflexivity. Qed.

Lemma chanrecv_None (c : chan) :
  is_none (chanrecv c) = true -> buf c = [] /\ closed c = false.
Proof.
  unfold chanrecv. destruct (buf c); [|discriminate].
  destruct (closed c); [discriminate|]. auto.
Qed.

(** What [wg.Add] does when it returns. *)
Lemma wg_Add_returned (delta : Z) (es es' : EmailService) :
  returned (wg_Add delta es) = Some es' ->
  es' = set_wg (wg es + delta) es /\ (0 <= wg es + delta <= max_wg)%Z.
Proof.
  unfold wg_Add, returned.
  destruct (Z.ltb_spec (wg es + delta) 0) as [?|Hlo]; cbn [orb]; [discriminate|].
  destruct (Z.ltb_spec max_wg (wg es + delta)) as [?|Hhi]; [discriminate|].
  intros Hret. inversion Hret. split; [reflexivity | lia].
Qed.

Lemma Start_returned (es es' : EmailService) :
  returned (Start es) = Some es' ->
  es' = set_logs (logs es ++ [LogStarted (workers es) (queueSize es)])
          (set_monitoring true
             (set_started true (set_wg (wg es + (Z.of_nat (nworkers es) + 1)) es))) /\
  (0 <= wg es + (Z.of_nat (nworkers es) + 1) <= max_wg)%Z.
Proof.
  unfold Start, mbind, M_bind, bind.
  destruct (wg_Add (Z.of_nat (nworkers es) + 1) es) as [[[]|r] es1] eqn:Hadd;
    [|discriminate].
  destruct (wg_Add_returned (Z.of_nat (nworkers es) + 1) es es1) as [-> Hr].
  { rewrite Hadd. reflexivity. }
  cbn [returned]. intros Hret. inversion Hret. split; [reflexivity | exact Hr].
Qed.

Lemma worker_return_returned (es es' : EmailService) :
  returned (worker_return es) = Some es' ->
  es' = set_exited (S (exited es)) (set_wg (wg es - 1) es) /\ (1 <= wg es)%Z.
Proof.
  unfold worker_return, wg_Done, mbind, M_bind, bind.
  destruct (wg_Add (-1) es) as [[[]|r] es1] eqn:Hadd; [|discriminate].
  destruct (wg_Add_returned (-1) es es1) as [-> Hr].
  { rewrite Hadd. reflexivity. }
  cbn [returned]. intros Hret. inversion Hret. split; [reflexivity | lia].
Qed.

Lemma retryWorker_return_returned (es es' : EmailService) :
  returned (retryWorker_return es) = Some es' ->
  es' = set_retryWorker RwExited (set_wg (wg es - 1) es) /\ (1 <= wg es)%Z.
Proof.
  unfold retryWorker_return, wg_Done, mbind, M_bind, bind.
  destruct (wg_Add (-1) es) as [[[]|r] es1] eqn:Hadd; [|discriminate].
  destruct (wg_Add_returned (-1) es es1) as [-> Hr].
  { rewrite Hadd. reflexivity. }
  cbn [returned]. intros Hret. inversion Hret. split; [reflexivity | lia].
Qed.

Lemma Shutdown_closeJobQueue_returned (es es' : EmailService) :
  returned (Shutdown_closeJobQueue es) = Some es' ->
  closed (jobQueue es) = false /\
  es' = set_idle 0
          (set_inflight (inflight es ++ replicate (idle es) zeroJob)
             (set_jobQueue (mkChan (buf (jobQueue es)) (dataqsiz (jobQueue es)) true)
                (set_logs (logs es ++ [LogShuttingDown]) es))).
Proof.
  unfold Shutdown_closeJobQueue, mbind, M_bind, bind, logf, closechan. simpl_fields.
  destruct (closed (jobQueue es)); [discriminate|].
  cbn [returned]. intros Hret. inversion Hret. split; reflexivity.
Qed.

Lemma Shutdown_closeShutdown_returned (es es' : EmailService) :
  returned (Shutdown_closeShutdown es) = Some es' ->
  shutdown es = false /\
  es' = set_idle 0
          (set_exited (exited es + idle es)
             (set_wg (wg es - Z.of_nat (idle es)) (set_shutdown true es))) /\
  (0 <= wg es - Z.of_nat (idle es))%Z.
Proof.
  unfold Shutdown_closeShutdown, mbind, M_bind, bind.
  destruct (shutdown es); [discriminate|].
  destruct (wg_Add (- Z.of_nat (idle (set_shutdown true es))) (set_shutdown true es))
    as [[[]|r] es1] eqn:Hadd; [|discriminate].
  destruct (wg_Add_returned _ _ es1 ltac:(rewrite Hadd; reflexivity)) as [-> Hr].
  simpl_fields. cbn [returned]. intros Hret. inversion Hret.
  split; [reflexivity|]. split; [reflexivity | lia].
Qed.

Lemma free_worker_started (es : EmailService) :
  free_worker es = true ->
  started es = true /\ idle es + length (inflight es) + exited es < nworkers es.
Proof.
  unfold free_worker. intros H. apply andb_prop in H as [Hs Hf].
  apply Nat.ltb_lt in Hf. auto.
Qed.

Lemma step_inv_start w q es es' :
  service_inv w q es -> step EvStart es = Some es' -> service_inv w q es'.
Proof.
  intros Hinv Hstep. cbn [step] in Hstep. destruct (started es); [discriminate|].
  apply Start_returned in Hstep as [-> _].
  unfold_inv. simpl_fields. exact Hinv.
Qed.

Lemma step_inv_send w q es es' to subject body :
  service_inv w q es -> step (EvSendEmail to subject body) es = Some es' -> service_inv w q es'.
Proof.
  intros Hinv Hstep. cbn [step] in Hstep. inversion Hstep; subst; clear Hstep.
  unfold EnqueueJob, chansend, jobReceivers.
  destruct (closed (jobQueue es)) eqn:Hc; [exact Hinv|].
  destruct (Nat.ltb_spec 0 (idle es)) as [Hidle|Hidle].
  - unfold_inv. simpl_fields.
    destruct_inv Hinv.
    repeat split; auto; try (intros; auto with lia).
    apply Forall_app; split; auto.
  - destruct (Z.ltb_spec (chan_len (jobQueue es)) (dataqsiz (jobQueue es))) as [Hl|Hl];
      [|exact Hinv].
    unfold_inv. simpl_fields.
    destruct_inv Hinv.
    repeat split; auto; try (intros; auto with lia).
    + rewrite length_app. cbn. lia.
    + apply Forall_app; split; auto.
Qed.

Lemma step_inv_take_job w q es es' :
  service_inv w q es -> step EvTakeJob es = Some es' -> service_inv w q es'.
Proof.
  intros Hinv Hstep. cbn [step] in Hstep. destruct (free_worker es); [|discriminate].
  unfold chanrecv in Hstep. destruct (buf (jobQueue es)) as [|x rest] eqn:Hbuf.
  - destruct (closed (jobQueue es)) eqn:Hc; inversion Hstep; subst; clear Hstep.
    unfold_inv. simpl_fields. rewrite Hbuf in *.
    destruct_inv Hinv.
    repeat split; auto. apply Forall_app; split; auto.
    all: repeat constructor.
  - inversion Hstep; subst; clear Hstep.
    unfold_inv. simpl_fields. rewrite Hbuf in *.
    destruct_inv Hinv.
    inversion Fq; subst.
    repeat split; auto.
    + cbn [length] in *. lia.
    + intros Hi. apply Hj2 in Hi. discriminate.
    + apply Forall_app; split; auto.
Qed.

Lemma step_inv_take_retry w q es es' :
  service_inv w q es -> step EvTakeRetry es = Some es' -> service_inv w q es'.
Proof.
  intros Hinv Hstep. cbn [step] in Hstep. destruct (free_worker es); [|discriminate].
  unfold chanrecv in Hstep. destruct (buf (retryQueue es)) as [|x rest] eqn:Hbuf.
  - destruct (closed (retryQueue es)) eqn:Hc; inversion Hstep; subst; clear Hstep.
    unfold_inv. simpl_fields. rewrite Hbuf in *.
    destruct_inv Hinv.
    repeat split; auto. apply Forall_app; split; auto.
  - inversion Hstep; subst; clear Hstep.
    unfold_inv. simpl_fields. rewrite Hbuf in *.
    destruct_inv Hinv.
    inversion Fr; subst.
    repeat split; auto.
    + cbn [length] in *. lia.
    + intros Hi. apply Hr2 in Hi. discriminate.
    + apply Forall_app; split; auto.
Qed.

Lemma step_inv_park w q es es' :
  service_inv w q es -> step EvWorkerPark es = Some es' -> service_inv w q es'.
Proof.
  intros Hinv Hstep. cbn [step] in Hstep.
  destruct (free_worker es
            && is_none (chanrecv (jobQueue es)) && is_none (chanrecv (retryQueue es))
            && negb (shutdown es)) eqn:Hcond; inversion Hstep; subst; clear Hstep.
  repeat (apply andb_prop in Hcond; destruct Hcond as [Hcond ?]).
  destruct (chanrecv_None (jobQueue es)) as [Ebj Ecj]; [assumption|].
  destruct (chanrecv_None (retryQueue es)) as [Ebr Ecr]; [assumption|].
  unfold_inv. simpl_fields.
  destruct_inv Hinv.
  repeat split; auto.
Qed.

Lemma step_inv_worker_exit w q es es' :
  service_inv w q es -> step EvWorkerExit es = Some es' -> service_inv w q es'.
Proof.
  intros Hinv Hstep. cbn [step] in Hstep.
  destruct (free_worker es && shutdown es); [|discriminate].
  apply worker_return_returned in Hstep as [-> _].
  unfold_inv. simpl_fields. exact Hinv.
Qed.

Lemma step_inv_retry_enter w q es es' :
  service_inv w q es -> step EvRetryWorkerEnter es = Some es' -> service_inv w q es'.
Proof.
  intros Hinv Hstep. cbn [step] in Hstep.
  destruct (retryWorker es) eqn:Hrw; try discriminate.
  destruct (started es && negb (shutdown es)); inversion Hstep; subst; clear Hstep.
  unfold_inv. simpl_fields. rewrite Hrw in *. exact Hinv.
Qed.

Lemma step_inv_retry_take w q es es' :
  service_inv w q es -> step EvRetryWorkerTake es = Some es' -> service_inv w q es'.
Proof.
  intros Hinv Hstep. cbn [step] in Hstep.
  destruct (retryWorker es) eqn:Hrw; try discriminate.
  destruct (started es); [|discriminate].
  unfold chanrecv in Hstep. destruct (buf (retryQueue es)) as [|x rest] eqn:Hbuf.
  - destruct (closed (retryQueue es)) eqn:Hc; inversion Hstep; subst; clear Hstep.
    unfold_inv. simpl_fields. rewrite Hrw, Hbuf in *.
    destruct_inv Hinv. repeat split; auto.
  - inversion Hstep; subst; clear Hstep.
    unfold_inv. simpl_fields. rewrite Hrw, Hbuf in *.
    destruct_inv Hinv.
    inversion Fr; subst.
    repeat split; auto.
    + cbn [length] in *. lia.
    + intros Hi. apply Hr2 in Hi. discriminate.
Qed.

Lemma step_inv_retry_park w q es es' :
  service_inv w q es -> step EvRetryWorkerPark es = Some es' -> service_inv w q es'.
Proof.
  intros Hinv Hstep. cbn [step] in Hstep.
  destruct (retryWorker es) eqn:Hrw; try discriminate.
  destruct (started es && is_none (chanrecv (retryQueue es)))
    eqn:Hcond; inversion Hstep; subst; clear Hstep.
  repeat (apply andb_prop in Hcond; destruct Hcond as [Hcond ?]).
  destruct (chanrecv_None (retryQueue es)) as [Ebr Ecr]; [assumption|].
  unfold_inv. simpl_fields. rewrite Hrw in *.
  destruct_inv Hinv.
  repeat split; auto.
Qed.

Lemma step_inv_retry_timeout w q es es' :
  service_inv w q es -> step EvRetryWorkerTimeout es = Some es' -> service_inv w q es'.
Proof.
  intros Hinv Hstep. cbn [step] in Hstep.
  destruct (retryWorker es) eqn:Hrw; try discriminate;
    (destruct (started es); inversion Hstep; subst; clear Hstep);
    unfold_inv; simpl_fields; rewrite Hrw in *;
    destruct_inv Hinv; repeat split; auto.
  intros. apply Hr2. lia.
Qed.

Lemma step_inv_processJob w q es fault job id :
  service_inv w q es ->
  service_inv w q (snd (processJob fault job id es)).
Proof.
  intros Hinv.
  destruct (processJob_effect fault job id es) as (es1 & Hrun & Hsame & Ht & Hp).
  pose proof (processJob_goroutines fault job id es) as Hg.
  rewrite Hrun in *. cbn [snd] in *.
  unfold same_service, same_goroutines in *.
  destruct Hsame as (E1 & E2 & E3 & E4 & E5 & E6 & E7 & E8 & E9 & E10 & E11 & E12
                     & E13 & E14).
  destruct Hg as (G1 & G2 & G3 & G4 & G5).
  unfold_inv. rewrite E1, E2, E3, E4, E5, E6, E9, E10, E12, E13, G3.
  destruct_inv Hinv. repeat split; auto.
  destruct Ht as [-> | [Hr ->]]; [exact Ft|].
  apply Forall_app; split; [exact Ft|]. repeat constructor.
Qed.

Lemma step_inv_process w q es es' i id fault :
  service_inv w q es -> step (EvProcess i id fault) es = Some es' -> service_inv w q es'.
Proof.
  intros Hinv Hstep. cbn [step] in Hstep.
  destruct ((1 <=? id)%Z && (id <=? workers es)%Z); [|discriminate].
  destruct (inflight es !! i) as [job|] eqn:Hi; [|discriminate].
  assert (Hdel : service_inv w q (set_inflight (delete i (inflight es)) es)).
  { unfold_inv. simpl_fields. destruct_inv Hinv. finish_inv. }
  pose proof (step_inv_processJob w q _ fault job id Hdel) as Hp.
  destruct (processJob fault job id (set_inflight (delete i (inflight es)) es))
    as [[[]|r] es1]; cbn [returned] in Hstep; inversion Hstep; subst. exact Hp.
Qed.

Lemma step_inv_retry_process w q es es' fault :
  service_inv w q es -> step (EvRetryWorkerProcess fault) es = Some es' ->
  service_inv w q es'.
Proof.
  intros Hinv Hstep. cbn [step] in Hstep.
  destruct (retryWorker es) eqn:Hrw; try discriminate.
  destruct (started es); [|discriminate].
  assert (Hdel : service_inv w q (set_retryWorker RwOuter es)).
  { unfold_inv. simpl_fields. rewrite Hrw in *. exact Hinv. }
  pose proof (step_inv_processJob w q _ fault job 0 Hdel) as Hp.
  destruct (processJob fault job 0 (set_retryWorker RwOuter es))
    as [[[]|r] es1]; cbn [returned] in Hstep; inversion Hstep; subst. exact Hp.
Qed.

Lemma step_inv_retry_exit w q es es' :
  service_inv w q es -> step EvRetryWorkerExit es = Some es' -> service_inv w q es'.
Proof.
  intros Hinv Hstep. cbn [step] in Hstep.
  destruct (retryWorker es) eqn:Hrw; try discriminate.
  destruct (started es && shutdown es); [|discriminate].
  apply retryWorker_return_returned in Hstep as [-> _].
  unfold_inv. simpl_fields. rewrite Hrw in *. exact Hinv.
Qed.

Lemma step_inv_timer w q es es' i :
  service_inv w q es -> step (EvRetryTimer i) es = Some es' -> service_inv w q es'.
Proof.
  intros Hinv Hstep. cbn [step] in Hstep.
  destruct (timers es !! i) as [[d job]|] eqn:Hi; [|discriminate].
  assert (Hjob : Retries job = 1%Z).
  { destruct Hinv as (_ & (_ & _ & Ft & _) & _).
    apply (proj1 (Forall_lookup _ _) Ft i (d, job) Hi). }
  assert (Hdel : service_inv w q (set_timers (delete i (timers es)) es)).
  { unfold_inv. simpl_fields. destruct_inv Hinv. finish_inv. }
  clear Hinv Hi. set (es0 := set_timers (delete i (timers es)) es) in *.
  clearbody es0. unfold retryGoroutine, chansend in Hstep.
  assert (Hopen : closed (retryQueue es0) = false) by apply Hdel.
  rewrite Hopen in Hstep.
  destruct (Nat.ltb_spec 0 (retryReceivers es0)) as [Hrecv|Hrecv].
  - cbn [returned] in Hstep. inversion Hstep; subst; clear Hstep.
    destruct (Nat.ltb_spec 0 (idle es0)) as [Hidle|Hidle];
      unfold_inv; simpl_fields; destruct_inv Hdel; finish_inv.
  - destruct (Z.ltb_spec (chan_len (retryQueue es0)) (dataqsiz (retryQueue es0)))
      as [Hl|Hl].
    + cbn [returned] in Hstep. inversion Hstep; subst; clear Hstep.
      unfold_inv. simpl_fields. destruct_inv Hdel. finish_inv.
    + destruct (moveToDeadLetter_effect job es0) as
        (es1 & Hrun & Hlog & Hwf & Hf & Hd & E1 & E2 & E3 & E4 & E5 & E6 & E7 & E8 & E9);
        [apply Hdel|].
      rewrite Hrun in Hstep. cbn [returned] in Hstep.
      inversion Hstep; subst es1; clear Hstep Hrun.
      unfold_inv. rewrite E1, E2, E3, E4, E5, E6, E7, E8.
      fold (deadLetters es') (deadLetters es0) in *. rewrite Hlog, Hf, Hd.
      destruct_inv Hdel. finish_inv.
Qed.

Lemma step_inv_monitor w q es es' :
  service_inv w q es -> step EvMonitorTick es = Some es' -> service_inv w q es'.
Proof.
  intros Hinv Hstep. cbn [step] in Hstep.
  destruct (monitoring es); inversion Hstep; subst; clear Hstep.
  unfold_inv. unfold monitorTick. simpl_fields. exact Hinv.
Qed.

Lemma step_inv_monitor_exit w q es es' :
  service_inv w q es -> step EvMonitorExit es = Some es' -> service_inv w q es'.
Proof.
  intros Hinv Hstep. cbn [step] in Hstep.
  destruct (monitoring es && shutdown es); inversion Hstep; subst; clear Hstep.
  unfold_inv. simpl_fields. exact Hinv.
Qed.

Lemma step_inv_get w q es es' :
  service_inv w q es -> step EvGetDeadLetterJobs es = Some es' -> service_inv w q es'.
Proof.
  intros Hinv Hstep. cbn [step] in Hstep.
  destruct (GetDeadLetterJobs_copy es) as
    (jobs & es1 & Hrun & _ & _ & Hsame & _ & Hlog & _); [apply Hinv|].
  destruct (GetDeadLetterJobs_heap_only es) as (jobs' & h & Hrun').
  rewrite Hrun in Hrun'. inversion Hrun'; subst jobs' es1; clear Hrun'.
  rewrite Hrun in Hstep. inversion Hstep; subst es'; clear Hstep Hrun.
  simpl_fields.
  assert (Hel : elems h (deadLetterLog es) = elems (heap es) (deadLetterLog es))
    by (apply elems_same_array; exact Hsame).
  unfold_inv. simpl_fields. rewrite Hel. destruct_inv Hinv. repeat split; auto.
  apply (wf_slice_same_array (heap es)); assumption.
Qed.

Lemma step_inv_shutdown w q es es' :
  service_inv w q es -> step EvShutdown es = Some es' -> service_inv w q es'.
Proof.
  intros Hinv Hstep. cbn [step] in Hstep.
  destruct (Shutdown_closeJobQueue es) as [[[]|r] es1] eqn:Hsd; [|discriminate].
  destruct (Shutdown_closeJobQueue_returned es es1) as [Hopen ->].
  { rewrite Hsd. reflexivity. }
  inversion Hstep; subst; clear Hstep.
  unfold_inv. simpl_fields. destruct_inv Hinv. repeat split; auto.
  - intros. lia.
  - intros. apply Hr2. destruct (retryWorker es); lia.
  - intros. lia.
  - apply Forall_app; split; auto. apply Forall_replicate. left. reflexivity.
Qed.

Lemma step_inv_shutdown_signal w q es es' :
  service_inv w q es -> step EvShutdownSignal es = Some es' -> service_inv w q es'.
Proof.
  intros Hinv Hstep. cbn [step] in Hstep.
  destruct (stopping es); try discriminate.
  destruct (Shutdown_closeShutdown es) as [[[]|r] es1] eqn:Hsd; [|discriminate].
  destruct (Shutdown_closeShutdown_returned es es1) as (Hopen & -> & _).
  { rewrite Hsd. reflexivity. }
  inversion Hstep; subst; clear Hstep.
  unfold_inv. simpl_fields. destruct_inv Hinv. repeat split; auto.
  - intros. lia.
  - intros. apply Hr2. destruct (retryWorker es); lia.
  - intros. lia.
Qed.

Lemma step_inv_shutdown_return w q es es' :
  service_inv w q es -> step EvShutdownReturn es = Some es' -> service_inv w q es'.
Proof.
  intros Hinv Hstep. cbn [step] in Hstep.
  destruct (stopping es); try discriminate.
  destruct (wg_Wait es); inversion Hstep; subst; clear Hstep.
  unfold_inv. unfold Shutdown_complete, logf. simpl_fields. exact Hinv.
Qed.

Lemma step_inv w q ev es es' :
  service_inv w q es -> step ev es = Some es' -> service_inv w q es'.
Proof.
  destruct ev.
  - apply step_inv_start.
  - apply step_inv_send.
  - apply step_inv_take_job.
  - apply step_inv_take_retry.
  - apply step_inv_park.
  - apply step_inv_worker_exit.
  - apply step_inv_retry_enter.
  - apply step_inv_retry_take.
  - apply step_inv_retry_park.
  - apply step_inv_retry_timeout.
  - apply step_inv_retry_process.
  - apply step_inv_retry_exit.
  - apply step_inv_process.
  - apply step_inv_timer.
  - apply step_inv_monitor.
  - apply step_inv_monitor_exit.
  - apply step_inv_get.
  - apply step_inv_shutdown.
  - apply step_inv_shutdown_signal.
  - apply step_inv_shutdown_return.
Qed.

Lemma max_chan_size_eq : max_chan_size = 5026338869831%Z.
Proof. reflexivity. Qed.

(** What [make] of a channel accepts. *)
Lemma make_chan_ok (size : Z) :
  (0 <= size <= max_chan_size)%Z -> make_chan size = Return (mkChan [] size false).
Proof.
  intros H. rewrite max_chan_size_eq in H. unfold make_chan.
  destruct (Z.ltb_spec size 0); [lia|]. cbn [orb].
  unfold maxAlloc, hchanSize, EmailJob_size.
  destruct (Z.ltb_spec (2 ^ 48 - 96) (56 * size)); [lia | reflexivity].
Qed.

Lemma make_chan_panics (size : Z) :
  (size < 0 \/ max_chan_size < size)%Z ->
  make_chan size = Panic "makechan: size out of range".
Proof.
  intros H. rewrite max_chan_size_eq in H. unfold make_chan.
  destruct (Z.ltb_spec size 0); [reflexivity|]. cbn [orb].
  unfold maxAlloc, hchanSize, EmailJob_size.
  destruct (Z.ltb_spec (2 ^ 48 - 96) (56 * size)); [reflexivity | lia].
Qed.

Lemma make_chan_Return (size : Z) (c : chan) :
  make_chan size = Return c ->
  (0 <= size <= max_chan_size)%Z /\ c = mkChan [] size false.
Proof.
  intros H.
  destruct (Z.lt_ge_cases size 0) as [Hn|Hn];
    [rewrite make_chan_panics in H by lia; discriminate|].
  destruct (Z.lt_ge_cases max_chan_size size) as [Hb|Hb];
    [rewrite make_chan_panics in H by lia; discriminate|].
  rewrite make_chan_ok in H by lia. inversion H. split; [lia | reflexivity].
Qed.

Lemma quot2_range (q : Z) :
  (0 <= q <= max_chan_size)%Z -> (0 <= Z.quot q 2 <= max_chan_size)%Z.
Proof.
  intros H. rewrite Z.quot_div_nonneg by lia.
  split; [apply Z.div_pos; lia|].
  assert (q / 2 <= q)%Z by (apply Z.div_le_upper_bound; lia). lia.
Qed.

Lemma NewEmailService_initial (w q : Z) :
  (0 <= q <= max_chan_size)%Z -> NewEmailService w q = Return (initial w q).
Proof.
  intros Hq. unfold NewEmailService.
  rewrite (make_chan_ok q Hq), (make_chan_ok _ (quot2_range q Hq)). reflexivity.
Qed.

Lemma NewEmailService_panics (w q : Z) :
  (q < 0 \/ max_chan_size < q)%Z ->
  NewEmailService w q = Panic "makechan: size out of range".
Proof.
  intros Hq. unfold NewEmailService. rewrite (make_chan_panics q Hq). reflexivity.
Qed.

Lemma NewEmailService_Return (w q : Z) (es0 : EmailService) :
  NewEmailService w q = Return es0 ->
  (0 <= q <= max_chan_size)%Z /\ es0 = initial w q.
Proof.
  intros H.
  destruct (Z.lt_ge_cases q 0) as [Hn|Hn];
    [rewrite NewEmailService_panics in H by lia; discriminate|].
  destruct (Z.lt_ge_cases max_chan_size q) as [Hb|Hb];
    [rewrite NewEmailService_panics in H by lia; discriminate|].
  rewrite NewEmailService_initial in H by lia. inversion H. split; [lia | reflexivity].
Qed.

Lemma initial_inv w q : (0 <= q <= max_chan_size)%Z -> service_inv w q (initial w q).
Proof.
  intros Hq. pose proof (quot2_range q Hq) as Hq2.
  unfold initial. unfold_inv. unfold make_slice, wf_slice, elems.
  simpl_fields. cbn [array off len cap].
  rewrite lookup_insert_eq. cbn.
  repeat split; auto; try lia; try constructor.
  exists []. repeat split; auto.
Qed.

Lemma NewEmailService_inv w q es0 :
  NewEmailService w q = Return es0 -> service_inv w q es0.
Proof.
  intros H. apply NewEmailService_Return in H as [Hq ->]. apply initial_inv, Hq.
Qed.

Lemma run_inv w q evs es es' :
  service_inv w q es -> run evs es = Some es' -> service_inv w q es'.
Proof.
  revert es. induction evs as [|ev evs IH]; intros es Hinv Hrun; cbn [run] in Hrun.
  - inversion Hrun; subst. exact Hinv.
  - destruct (step ev es) as [es1|] eqn:Hstep; [|discriminate].
    apply (IH es1); [|exact Hrun]. apply (step_inv w q ev es); assumption.
Qed.

Lemma reachable_inv w q es : reachable w q es -> service_inv w q es.
Proof.
  intros (es0 & evs & Hnew & Hrun).
  apply (run_inv w q evs es0); [|exact Hrun]. apply NewEmailService_inv, Hnew.
Qed.

(** ** The goroutines of the reachable states *)

Ltac pool_facts :=
  repeat match goal with
         | H : ?x = false -> _, E : ?x = false |- _ => specialize (H E)
         | H : ?x = true -> _, E : ?x = true |- _ => specialize (H E)
         | H : ?x = ?x -> _ |- _ => specialize (H eq_refl)
         end;
  repeat match goal with
         | H : _ /\ _ |- _ => destruct H
         | H : _ <-> _ |- _ => destruct H
         end.

Ltac pool_solve H :=
  unfold pool_inv, nworkers, retry_alive in *; simpl_fields;
  destruct H as (P1 & P2 & P3 & P4 & P5 & P6 & P7);
  rewrite ?length_app, ?length_replicate; cbn [length];
  repeat split; intros; pool_facts; subst;
  repeat match goal with
         | E : retryWorker _ = _ |- _ => rewrite E in *
         end;
  try solve [ lia | tauto | congruence | discriminate
            | exfalso; auto; congruence | intuition congruence ].

Lemma length_delete_lookup {A : Type} (l : list A) (i : nat) (x : A) :
  l !! i = Some x -> S (length (delete i l)) = length l.
Proof.
  revert i. induction l as [|a l IH]; intros [|i] H; cbn in *; try discriminate.
  - reflexivity.
  - f_equal. apply (IH i H).
Qed.

Lemma processJob_pool (fault : option nat) (job : EmailJob) (id : Z)
    (es es' : EmailService) :
  pool_inv es -> returned (processJob fault job id es) = Some es' -> pool_inv es'.
Proof.
  intros Hpool Hret.
  destruct (processJob_effect fault job id es) as (es1 & Hrun & Hsame & _).
  pose proof (processJob_goroutines fault job id es) as Hg.
  rewrite Hrun in *. cbn [snd returned] in *. inversion Hret; subst es1; clear Hret.
  unfold same_service, same_goroutines in *.
  destruct Hsame as (E1 & E2 & E3 & E4 & E5 & E6 & E7 & E8 & E9 & E10 & E11 & E12
                     & E13 & E14).
  destruct Hg as (G1 & G2 & G3 & G4 & G5).
  unfold pool_inv, nworkers, retry_alive in *.
  rewrite E1, E5, E7, E11, E12, E13, G1, G2, G3, G4, G5. exact Hpool.
Qed.

Lemma step_pool_inv w q ev es es' :
  service_inv w q es -> pool_inv es -> step ev es = Some es' -> pool_inv es'.
Proof.
  intros Hinv Hpool Hstep. destruct ev; cbn [step] in Hstep.
  - (* EvStart *)
    destruct (started es) eqn:Hst; [discriminate|].
    apply Start_returned in Hstep as [-> Hwg].
    pool_solve Hpool.
  - (* EvSendEmail *)
    inversion Hstep; subst; clear Hstep.
    unfold EnqueueJob, chansend, jobReceivers.
    destruct (closed (jobQueue es)) eqn:Hc; [exact Hpool|].
    destruct (Nat.ltb_spec 0 (idle es)) as [Hidle|Hidle].
    + pool_solve Hpool.
    + destruct (Z.ltb_spec (chan_len (jobQueue es)) (dataqsiz (jobQueue es)));
        [|exact Hpool].
      pool_solve Hpool.
  - (* EvTakeJob *)
    destruct (free_worker es) eqn:Hfree; [|discriminate].
    apply free_worker_started in Hfree as [Hst Hfree].
    unfold chanrecv in Hstep.
    destruct (buf (jobQueue es)) as [|x rest] eqn:Hbuf;
      [destruct (closed (jobQueue es)) eqn:Hc|];
      inversion Hstep; subst; clear Hstep; pool_solve Hpool.
  - (* EvTakeRetry *)
    destruct (free_worker es) eqn:Hfree; [|discriminate].
    apply free_worker_started in Hfree as [Hst Hfree].
    unfold chanrecv in Hstep.
    destruct (buf (retryQueue es)) as [|x rest] eqn:Hbuf;
      [destruct (closed (retryQueue es)) eqn:Hc|];
      inversion Hstep; subst; clear Hstep; pool_solve Hpool.
  - (* EvWorkerPark *)
    destruct (free_worker es) eqn:Hfree; [|discriminate].
    apply free_worker_started in Hfree as [Hst Hfree].
    cbn [andb] in Hstep.
    destruct (is_none (chanrecv (jobQueue es)) && is_none (chanrecv (retryQueue es))
              && negb (shutdown es)); inversion Hstep; subst; clear Hstep.
    pool_solve Hpool.
  - (* EvWorkerExit *)
    destruct (free_worker es) eqn:Hfree; [|discriminate].
    apply free_worker_started in Hfree as [Hst Hfree].
    cbn [andb] in Hstep. destruct (shutdown es) eqn:Hsh; [|discriminate].
    apply worker_return_returned in Hstep as [-> Hwg].
    pool_solve Hpool.
  - (* EvRetryWorkerEnter *)
    destruct (retryWorker es) eqn:Hrw; try discriminate.
    destruct (started es) eqn:Hst; [|discriminate]. cbn [andb] in Hstep.
    destruct (shutdown es) eqn:Hsh; inversion Hstep; subst; clear Hstep.
    pool_solve Hpool.
  - (* EvRetryWorkerTake *)
    destruct (retryWorker es) eqn:Hrw; try discriminate.
    destruct (started es) eqn:Hst; [|discriminate].
    assert (Hopen : closed (retryQueue es) = false) by apply Hinv.
    assert (Fr : Forall (fun j => Retries j = 1%Z) (buf (retryQueue es))) by apply Hinv.
    unfold chanrecv in Hstep. rewrite Hopen in Hstep.
    destruct (buf (retryQueue es)) as [|x rest] eqn:Hbuf; [discriminate|].
    inversion Fr; subst.
    inversion Hstep; subst; clear Hstep.
    pool_solve Hpool.
  - (* EvRetryWorkerPark *)
    destruct (retryWorker es) eqn:Hrw; try discriminate.
    destruct (started es) eqn:Hst; [|discriminate]. cbn [andb] in Hstep.
    destruct (is_none (chanrecv (retryQueue es)));
      inversion Hstep; subst; clear Hstep.
    pool_solve Hpool.
  - (* EvRetryWorkerTimeout *)
    destruct (retryWorker es) eqn:Hrw; try discriminate;
      (destruct (started es) eqn:Hst; [|discriminate]);
      inversion Hstep; subst; clear Hstep; pool_solve Hpool.
  - (* EvRetryWorkerProcess *)
    destruct (retryWorker es) eqn:Hrw; try discriminate.
    destruct (started es) eqn:Hst; [|discriminate].
    apply (processJob_pool fault job 0 (set_retryWorker RwOuter es));
      [|exact Hstep].
    pool_solve Hpool.
  - (* EvRetryWorkerExit *)
    destruct (retryWorker es) eqn:Hrw; try discriminate.
    destruct (started es) eqn:Hst; [|discriminate]. cbn [andb] in Hstep.
    destruct (shutdown es) eqn:Hsh; [|discriminate].
    apply retryWorker_return_returned in Hstep as [-> Hwg].
    pool_solve Hpool.
  - (* EvProcess *)
    destruct ((1 <=? workerID)%Z && (workerID <=? workers es)%Z); [|discriminate].
    destruct (inflight es !! i) as [job|] eqn:Hi; [|discriminate].
    apply (processJob_pool fault job workerID (set_inflight (delete i (inflight es)) es));
      [|exact Hstep].
    pose proof (length_delete_lookup _ _ _ Hi) as Hlen.
    pool_solve Hpool.
    apply nil_length_inv. rewrite H1 in Hlen. cbn in Hlen. lia.
  - (* EvRetryTimer *)
    destruct (timers es !! i) as [[d job]|] eqn:Hi; [|discriminate].
    assert (Hjob : Retries job = 1%Z).
    { destruct Hinv as (_ & (_ & _ & Ft & _) & _).
      apply (proj1 (Forall_lookup _ _) Ft i (d, job) Hi). }
    assert (Hdel : pool_inv (set_timers (delete i (timers es)) es)).
    { pool_solve Hpool. }
    assert (Hwf : wf_slice (heap es) (deadLetterLog es)) by apply Hinv.
    assert (Hopen : closed (retryQueue es) = false) by apply Hinv.
    clear Hpool Hi. unfold retryGoroutine, chansend, retryReceivers, retryIdle in Hstep.
    simpl_fields. rewrite Hopen in Hstep.
    destruct (Nat.ltb_spec 0 (idle es)) as [Hidle|Hidle].
    + destruct (Nat.ltb_spec 0 (idle es + (match retryWorker es with RwParked => 1 | _ => 0 end)))
        as [Hrecv|Hrecv]; [|lia].
      replace (0 <? idle es + (if match retryWorker es with RwParked => true | _ => false end
                               then 1 else 0)) with true in Hstep
        by (symmetry; apply Nat.ltb_lt; lia).
      cbn [returned] in Hstep. inversion Hstep; subst; clear Hstep.
      pool_solve Hdel.
    + destruct (retryWorker es) eqn:Hrw.
      all: replace (idle es) with 0 in Hstep by lia; cbn [Nat.add Nat.ltb Nat.leb] in Hstep.
      all: try (destruct (Z.ltb_spec (chan_len (retryQueue es)) (dataqsiz (retryQueue es)));
                [ cbn [returned] in Hstep; inversion Hstep; subst; clear Hstep;
                  pool_solve Hdel
                | rewrite moveToDeadLetter_eq in Hstep; cbn [returned] in Hstep;
                  inversion Hstep; subst; clear Hstep; pool_solve Hdel ]).
      cbn [returned] in Hstep. inversion Hstep; subst; clear Hstep.
      pool_solve Hdel.
  - (* EvMonitorTick *)
    destruct (monitoring es) eqn:Hm; inversion Hstep; subst; clear Hstep.
    unfold monitorTick. pool_solve Hpool.
  - (* EvMonitorExit *)
    destruct (monitoring es) eqn:Hm; [|discriminate]. cbn [andb] in Hstep.
    destruct (shutdown es) eqn:Hsh; inversion Hstep; subst; clear Hstep.
    pool_solve Hpool.
  - (* EvGetDeadLetterJobs *)
    destruct (GetDeadLetterJobs_heap_only es) as (jobs & h & Hrun).
    rewrite Hrun in Hstep. inversion Hstep; subst; clear Hstep.
    pool_solve Hpool.
  - (* EvShutdown *)
    destruct (Shutdown_closeJobQueue es) as [[[]|r] es1] eqn:Hsd; [|discriminate].
    destruct (Shutdown_closeJobQueue_returned es es1) as [Hopen ->].
    { rewrite Hsd. reflexivity. }
    inversion Hstep; subst; clear Hstep.
    pool_solve Hpool.
    match goal with
    | H1 : inflight es = [], H0 : idle es = 0 |- _ => rewrite H1, H0; reflexivity
    end.
  - (* EvShutdownSignal *)
    destruct (stopping es) eqn:Hsp; try discriminate.
    destruct (Shutdown_closeShutdown es) as [[[]|r] es1] eqn:Hsd; [|discriminate].
    destruct (Shutdown_closeShutdown_returned es es1) as (Hsh & -> & Hwg).
    { rewrite Hsd. reflexivity. }
    inversion Hstep; subst; clear Hstep.
    assert (Hidle : idle es = 0).
    { destruct (idle es) eqn:Hi; [reflexivity|].
      assert (Hc : closed (jobQueue es) = false)
        by (apply Hinv; rewrite Hi; lia).
      apply Hpool in Hc. congruence. }
    rewrite Hidle in *. pool_solve Hpool.
  - (* EvShutdownReturn *)
    destruct (stopping es) eqn:Hsp; try discriminate.
    destruct (wg_Wait es); inversion Hstep; subst; clear Hstep.
    unfold Shutdown_complete, logf. pool_solve Hpool.
Qed.

Lemma initial_pool w q : pool_inv (initial w q).
Proof.
  unfold pool_inv, initial, nworkers, retry_alive. simpl_fields. cbn [length].
  repeat split; intros; try lia; try discriminate; try congruence; auto.
  intuition discriminate.
Qed.

Lemma run_pool w q evs es es' :
  service_inv w q es -> pool_inv es -> run evs es = Some es' -> pool_inv es'.
Proof.
  revert es. induction evs as [|ev evs IH]; intros es Hinv Hpool Hrun;
    cbn [run] in Hrun.
  - inversion Hrun; subst. exact Hpool.
  - destruct (step ev es) as [es1|] eqn:Hstep; [|discriminate].
    apply (IH es1); [| |exact Hrun].
    + apply (step_inv w q ev es); assumption.
    + apply (step_pool_inv w q ev es); assumption.
Qed.

Lemma reachable_pool w q es : reachable w q es -> pool_inv es.
Proof.
  intros (es0 & evs & Hnew & Hrun).
  apply NewEmailService_Return in Hnew as [Hq ->].
  apply (run_pool w q evs (initial w q));
    [apply initial_inv, Hq | apply initial_pool | exact Hrun].
Qed.

Ltac break_step H :=
  repeat (match type of H with
          | context [match ?c with _ => _ end] => destruct c eqn:?
          end; try discriminate).

Ltac unchanged H :=
  break_step H; inversion H; subst; left; unfold deadLetters; simpl_fields; auto.

Lemma processJob_dead_letters (fault : option nat) (job : EmailJob) (id : Z)
    (es es' : EmailService) :
  returned (processJob fault job id es) = Some es' ->
  jobsFailed es' = jobsFailed es /\ deadLetterJobs es' = deadLetterJobs es /\
  deadLetterLog es' = deadLetterLog es /\ heap es' = heap es.
Proof.
  intros Hret.
  destruct (processJob_effect fault job id es) as (es1 & Hrun & Hsame & _).
  rewrite Hrun in Hret. cbn [returned] in Hret. inversion Hret; subst es1.
  unfold same_service in Hsame.
  destruct Hsame as (_ & _ & -> & -> & _ & _ & _ & _ & -> & -> & _). auto.
Qed.

Lemma step_dead_letters (ev : event) (es es' : EmailService) :
  wf_service es -> step ev es = Some es' ->
  (jobsFailed es' = jobsFailed es /\ deadLetterJobs es' = deadLetterJobs es /\
   deadLetters es' = deadLetters es) \/
  (exists i d job,
      ev = EvRetryTimer i /\ timers es !! i = Some (d, job) /\
      full (retryQueue es) (retryReceivers es) = true /\
      jobsFailed es' = S (jobsFailed es) /\
      deadLetterJobs es' = S (deadLetterJobs es) /\
      deadLetters es' = deadLetters es ++ [job]).
Proof.
  intros Hwf Hstep. destruct ev; cbn [step] in Hstep.
  - destruct (started es); [discriminate|].
    apply Start_returned in Hstep as [-> _]. left. unfold deadLetters. auto.
  - unfold EnqueueJob, chansend in Hstep. unchanged Hstep.
  - unfold chanrecv in Hstep. unchanged Hstep.
  - unfold chanrecv in Hstep. unchanged Hstep.
  - unchanged Hstep.
  - destruct (free_worker es && shutdown es); [|discriminate].
    apply worker_return_returned in Hstep as [-> _]. left. unfold deadLetters. auto.
  - unchanged Hstep.
  - unfold chanrecv in Hstep. unchanged Hstep.
  - unchanged Hstep.
  - unchanged Hstep.
  - destruct (retryWorker es); try discriminate.
    destruct (started es); [|discriminate].
    apply processJob_dead_letters in Hstep as (-> & -> & Hl & Hh).
    left. unfold deadLetters. rewrite Hl, Hh. auto.
  - destruct (retryWorker es); try discriminate.
    destruct (started es && shutdown es); [|discriminate].
    apply retryWorker_return_returned in Hstep as [-> _]. left. unfold deadLetters. auto.
  - destruct ((1 <=? workerID)%Z && (workerID <=? workers es)%Z); [|discriminate].
    destruct (inflight es !! i) as [job|] eqn:Hi; [|discriminate].
    apply processJob_dead_letters in Hstep as (-> & -> & Hl & Hh).
    left. unfold deadLetters. rewrite Hl, Hh. auto.
  - destruct (timers es !! i) as [[d job]|] eqn:Hi; [|discriminate].
    set (es0 := set_timers (delete i (timers es)) es) in *.
    assert (Hopen : closed (retryQueue es0) = false) by apply Hwf.
    assert (Hwfc : wf_chan (retryQueue es0) (retryReceivers es0)) by apply Hwf.
    destruct (full (retryQueue es0) (retryReceivers es0)) eqn:Hfull.
    + right. exists i, d, job.
      rewrite (retryGoroutine_full job es0 Hopen Hwfc Hfull) in Hstep.
      destruct (moveToDeadLetter_effect job es0) as
        (es1 & Hrun & Hlog & _ & Hf & Hd & _); [apply Hwf|].
      rewrite Hrun in Hstep. cbn [returned] in Hstep.
      inversion Hstep; subst es1; clear Hstep Hrun.
      subst es0. unfold deadLetters in *. simpl_fields. repeat split; auto.
    + left. rewrite (retryGoroutine_not_full job es0 Hopen Hwfc Hfull) in Hstep.
      cbn [returned] in Hstep.
      inversion Hstep; subst; clear Hstep. unfold deadLetters.
      subst es0. simpl_fields.
      destruct (0 <? retryReceivers _); [destruct (0 <? idle es)|];
        simpl_fields; auto.
  - unchanged Hstep.
  - unchanged Hstep.
  - destruct (GetDeadLetterJobs_copy es) as
      (jobs & es1 & Hrun & _ & _ & Hsame & _ & Hlog & Hf & Hd); [apply Hwf|].
    rewrite Hrun in Hstep. inversion Hstep; subst es1; clear Hstep Hrun.
    left. repeat split; auto. unfold deadLetters. rewrite Hlog.
    apply elems_same_array. exact Hsame.
  - destruct (Shutdown_closeJobQueue es) as [[[]|r] es1] eqn:Hsd; [|discriminate].
    destruct (Shutdown_closeJobQueue_returned es es1) as [Hopen ->].
    { rewrite Hsd. reflexivity. }
    inversion Hstep; subst; clear Hstep. left. unfold deadLetters. auto.
  - destruct (stopping es); try discriminate.
    destruct (Shutdown_closeShutdown es) as [[[]|r] es1] eqn:Hsd; [|discriminate].
    destruct (Shutdown_closeShutdown_returned es es1) as (Hsh & -> & _).
    { rewrite Hsd. reflexivity. }
    inversion Hstep; subst; clear Hstep. left. unfold deadLetters. auto.
  - unfold Shutdown_complete, logf in Hstep. unchanged Hstep.
Qed.

(** ** The service as a whole *)

Lemma run_step (ev : event) (evs : list event) (es es1 : EmailService) :
  step ev es = Some es1 -> run (ev :: evs) es = run evs es1.
Proof. intros H. cbn [run]. rewrite H. reflexivity. Qed.

Ltac norm_state :=
  cbv [jobQueue retryQueue deadLetterLog workers queueSize wg shutdown queueLength
       jobsProcessed jobsFailed deadLetterJobs heap started timers inflight idle
       exited retryWorker monitoring stopping logs retryIdle nworkers free_worker
       returned
       set_jobQueue set_retryQueue set_deadLetterLog set_wg set_shutdown
       set_queueLength set_jobsProcessed set_jobsFailed set_deadLetterJobs
       set_heap set_started set_timers set_inflight set_idle set_exited
       set_retryWorker set_monitoring set_stopping
       set_logs buf dataqsiz closed fst snd app length Nat.ltb Nat.leb Nat.add
       Nat.pred andb negb].

(** [Start] returns when the counter has room for the goroutines. *)
Lemma Start_ok (es : EmailService) :
  wg es = 0%Z -> (workers es <= max_workers)%Z ->
  Start es =
  (Return tt,
   set_logs (logs es ++ [LogStarted (workers es) (queueSize es)])
     (set_monitoring true
        (set_started true (set_wg (Z.of_nat (nworkers es) + 1) es)))).
Proof.
  intros Hwg Hw. unfold Start, mbind, M_bind, bind, wg_Add. rewrite Hwg.
  assert (Hn : (0 <= Z.of_nat (nworkers es) <= max_workers)%Z).
  { unfold nworkers, max_workers, max_wg in *. lia. }
  unfold max_workers in *.
  destruct (Z.ltb_spec (0 + (Z.of_nat (nworkers es) + 1)) 0); [lia|]. cbn [orb].
  destruct (Z.ltb_spec max_wg (0 + (Z.of_nat (nworkers es) + 1))); [lia|].
  reflexivity.
Qed.

(** One demo-failure job through a fresh service whose retry queue has
    room: it fails once, is retried once and succeeds. *)
Lemma lifecycle_general (to subject body : string) (w q id1 id2 : Z) :
  demo_failure (newJob to subject body) ->
  (1 <= w <= max_workers)%Z -> (1 <= id1 <= w)%Z -> (1 <= id2 <= w)%Z ->
  (2 <= q)%Z ->
  exists es,
    run [EvStart; EvSendEmail to subject body; EvTakeJob; EvProcess 0 id1 None;
         EvRetryTimer 0; EvTakeRetry; EvProcess 0 id2 None] (initial w q) = Some es /\
    deadLetters es = [] /\ jobsProcessed es = 1 /\ jobsFailed es = 0 /\
    buf (jobQueue es) = [] /\ buf (retryQueue es) = [] /\
    timers es = [] /\ inflight es = [].
Proof.
  intros Hd Hw Hid1 Hid2 Hq.
  assert (Hf : simulatedFailure (newJob to subject body) = true)
    by (apply simulatedFailure_iff, Hd).
  assert (Hs : simulatedFailure (with_Retries 1 (newJob to subject body)) = false)
    by (apply not_demo_failure; right; right; cbn; lia).
  assert (Hq2 : (0 <? Z.quot q 2)%Z = true).
  { apply Z.ltb_lt. rewrite Z.quot_div_nonneg by lia.
    assert (1 <= q / 2)%Z by (apply Z.div_le_lower_bound; lia). lia. }
  assert (Hq1 : (0 <? q)%Z = true) by (apply Z.ltb_lt; lia).
  assert (Hn : exists n, Z.to_nat w = S n).
  { exists (Z.to_nat w - 1). lia. }
  destruct Hn as [n Hn].
  assert (Hi1 : ((1 <=? id1) && (id1 <=? w))%Z = true).
  { apply andb_true_intro. split; apply Z.leb_le; lia. }
  assert (Hi2 : ((1 <=? id2) && (id2 <=? w))%Z = true).
  { apply andb_true_intro. split; apply Z.leb_le; lia. }
  unfold initial.
  erewrite run_step
    by (cbn [step]; rewrite Start_ok by (cbn [wg workers]; lia || reflexivity);
        norm_state; reflexivity).
  erewrite run_step
    by (cbn [step]; unfold EnqueueJob, chansend, jobReceivers, chan_len; norm_state;
        change (Z.of_nat 0) with 0%Z; rewrite Hq1; norm_state; reflexivity).
  erewrite run_step
    by (cbn [step]; unfold chanrecv; norm_state; rewrite Hn; norm_state; reflexivity).
  erewrite run_step
    by (cbn [step workers]; rewrite Hi1; norm_state;
        cbn [lookup list_lookup delete list_delete];
        rewrite (processJob_first_attempt _ id1 _ Hf); norm_state; reflexivity).
  erewrite run_step
    by (cbn [step]; norm_state; cbn [lookup list_lookup delete list_delete];
        unfold retryGoroutine, chansend, retryReceivers, chan_len; norm_state;
        change (Z.of_nat 0) with 0%Z; rewrite Hq2; norm_state; reflexivity).
  erewrite run_step
    by (cbn [step]; unfold chanrecv; norm_state; rewrite Hn; norm_state; reflexivity).
  erewrite run_step
    by (cbn [step workers]; rewrite Hi2; norm_state;
        cbn [lookup list_lookup delete list_delete];
        rewrite (processJob_success _ id2 _ Hs); norm_state; reflexivity).
  eexists. split; [reflexivity|]. unfold deadLetters. simpl_fields.
  repeat split.
Qed.

Lemma reachable_initial (w q : Z) (evs : list event) (es : EmailService) :
  (0 <= q <= max_chan_size)%Z -> run evs (initial w q) = Some es -> reachable w q es.
Proof.
  intros Hq Hrun. exists (initial w q), evs. split; [|exact Hrun].
  apply NewEmailService_initial, Hq.
Qed.

Lemma initial_wf (w q : Z) : (0 <= q <= max_chan_size)%Z -> wf_service (initial w q).
Proof. intros Hq. apply (initial_inv w q Hq). Qed.

(** C1 (amended). A job with retry count 0 whose subject is longer than 10
    bytes and ends with '!' fails its first processing attempt: its retry
    count becomes 1 and one re-submission to the retry queue is scheduled
    after 1 second. Processing the retried job (retry count 1) succeeds:
    the processed counter grows by one and the job is put in no queue. So
    the job is retried once, not three times: submitted to a fresh service
    with at least one worker and a primary capacity of at least 2, it
    leaves the system after its second attempt with no dead-letter record,
    and in every reachable state every sleeping retry, every job in the
    retry queue and every dead-letter record has retry count 1, never 4.
    A record enters the dead-letter log only when the retry of its job
    fires and finds the retry queue full, and then with retry count 1. *)
Theorem failing_job_is_retried_once (job : EmailJob) (id : Z) (es : EmailService) :
  demo_failure job ->
  processJob None job id es =
    (Return tt,
     set_timers (timers es ++ [(Second, with_Retries 1 job)])
       (set_logs (logs es ++ [LogProcessing id (To job) (Subject job);
                              LogRetrying 1 (To job)]) es)) /\
  (forall id' es',
      processJob None (with_Retries 1 job) id' es' =
      (Return tt,
       set_jobsProcessed (S (jobsProcessed es'))
         (set_logs (logs es' ++ [LogProcessing id' (To job) (Subject job);
                                 LogSent id' (To job)]) es'))) /\
  (forall w q id1 id2,
      (1 <= w <= max_workers)%Z -> (1 <= id1 <= w)%Z -> (1 <= id2 <= w)%Z ->
      (2 <= q <= max_chan_size)%Z ->
      NewEmailService w q = Return (initial w q) /\
      exists st,
        run [EvStart; EvSendEmail (To job) (Subject job) (Body job); EvTakeJob;
             EvProcess 0 id1 None; EvRetryTimer 0; EvTakeRetry; EvProcess 0 id2 None]
          (initial w q) = Some st /\
        deadLetters st = [] /\ jobsProcessed st = 1 /\ jobsFailed st = 0 /\
        buf (jobQueue st) = [] /\ buf (retryQueue st) = [] /\
        timers st = [] /\ inflight st = []) /\
  (forall w q st,
      reachable w q st ->
      Forall (fun t => fst t = Second /\ Retries (snd t) = 1%Z) (timers st) /\
      Forall (fun j => Retries j = 1%Z) (buf (retryQueue st)) /\
      Forall (fun j => Retries j = 1%Z) (deadLetters st)) /\
  (forall w q st ev st',
      reachable w q st -> step ev st = Some st' ->
      deadLetters st' = deadLetters st \/
      exists i d j,
        ev = EvRetryTimer i /\ timers st !! i = Some (d, j) /\
        full (retryQueue st) (retryReceivers st) = true /\
        Retries j = 1%Z /\ deadLetters st' = deadLetters st ++ [j]).
Proof.
  intros Hd. split; [|split; [|split; [|split]]].
  - apply processJob_first_attempt, simulatedFailure_iff, Hd.
  - intros id' es'.
    apply (processJob_success (with_Retries 1 job) id' es').
    apply not_demo_failure. right. right. cbn. lia.
  - intros w q id1 id2 Hw Hid1 Hid2 Hq.
    split; [apply NewEmailService_initial; lia|].
    apply lifecycle_general; try assumption; [|lia].
    destruct job as [to subject body retries]. destruct Hd as (Hr & Hrest).
    cbn in Hr. subst retries. split; [reflexivity | exact Hrest].
  - intros w q st Hr. apply reachable_inv in Hr.
    destruct Hr as (_ & (_ & _ & Ft & Fr & Fd) & _). auto.
  - intros w q st ev st' Hr Hstep. apply reachable_inv in Hr.
    destruct Hr as (Hwf & (_ & _ & Ft & _) & _).
    destruct (step_dead_letters ev st st' Hwf Hstep)
      as [(_ & _ & Hsame) | (i & d & j & -> & Hi & Hfull & _ & _ & Happ)].
    + left. exact Hsame.
    + right. exists i, d, j. repeat split; auto.
      apply (proj1 (Forall_lookup _ _) Ft i (d, j) Hi).
Qed.

Lemma failing_job_is_retried_once_witness :
  demo_failure failingJob /\
  (exists st, run lifecycle (initial 3 100) = Some st /\ deadLetters st = []) /\
  Forall (fun j => Retries j = 1%Z) (deadLetters (run_from 3 1 lifecycle_full)).
Proof.
  assert (Hd : demo_failure failingJob).
  { repeat split; [cbn; lia|]. exists "This will fail"%string. reflexivity. }
  split; [exact Hd|].
  destruct (failing_job_is_retried_once failingJob 1 (initial 3 1) Hd)
    as (_ & _ & Hrun & Hreach & _).
  split.
  - destruct (Hrun 3%Z 100%Z 1%Z 2%Z) as (_ & st & Hst & Hdl & _);
      try (vm_compute; split; discriminate).
    exists st. split; [exact Hst | exact Hdl].
  - apply (Hreach 3%Z 1%Z).
    apply (reachable_initial 3 1 lifecycle_full);
      [vm_compute; split; discriminate | vm_compute; reflexivity].
Defined.

Lemma failing_job_never_reaches_retry_count_4 :
  match NewEmailService 3 100 with
  | Return es0 =>
      match run lifecycle es0 with
      | Some es =>
          deadLetters es = [] /\ deadLetterJobs es = 0 /\
          ~ (exists r, In r (deadLetters es) /\ Retries r = 4%Z) /\
          jobsProcessed es = 1 /\
          buf (jobQueue es) = [] /\ buf (retryQueue es) = [] /\
          timers es = [] /\ inflight es = []
      | None => False
      end
  | Panic _ => False
  end.
Proof.
  vm_compute. repeat split. intros (r & [] & _).
Qed.

Lemma processJob_fails_iff_witness :
  processJob None failingJob 1 (initial 3 100) =
    handleJobFailure None failingJob
      (set_logs [LogProcessing 1 "a@b.com" "This will fail!"] (initial 3 100)) /\
  jobsProcessed (snd (processJob None plainJob 1 (initial 3 100))) = 1.
Proof.
  split.
  - apply (processJob_fails_iff failingJob 1 (initial 3 100)).
    repeat split; [cbn; lia|]. exists "This will fail"%string. reflexivity.
  - destruct (processJob_fails_iff plainJob 1 (initial 3 100)) as (_ & _ & Hok).
    rewrite Hok; [reflexivity|]. left. cbn. lia.
Defined.

Lemma handleJobFailure_retry_policy_witness :
  (0 <= Retries failingJob < max_int)%Z /\
  handleJobFailure None failingJob (initial 3 100) =
  (Return tt,
   set_timers [(Second, with_Retries 1 failingJob)]
     (set_logs [LogRetrying 1 "a@b.com"] (initial 3 100))).
Proof.
  assert (Hrange : (0 <= Retries failingJob < max_int)%Z)
    by (unfold max_int; cbn; lia).
  split; [exact Hrange|].
  destruct (handleJobFailure_retry_policy failingJob (initial 3 100) Hrange)
    as [Hretry _].
  apply Hretry. cbn. lia.
Defined.

Lemma EnqueueJob_accepts_or_rejects_witness :
  closed (jobQueue (initial 3 100)) = false /\
  wf_chan (jobQueue (initial 3 100)) (jobReceivers (initial 3 100)) /\
  EnqueueJob plainJob (initial 3 100) =
  (Return None, set_jobQueue (mkChan [plainJob] 100 false) (initial 3 100)).
Proof.
  assert (Hwf : wf_chan (jobQueue (initial 3 100)) (jobReceivers (initial 3 100))).
  { unfold wf_chan, chan_len. cbn. repeat split; intros; lia. }
  split; [reflexivity|]. split; [exact Hwf|].
  destruct (EnqueueJob_accepts_or_rejects plainJob (initial 3 100) eq_refl Hwf)
    as [Hroom _].
  apply Hroom; reflexivity.
Defined.

Lemma moveToDeadLetter_appends_one_witness :
  wf_slice (heap (initial 3 100)) (deadLetterLog (initial 3 100)) /\
  exists es',
    moveToDeadLetter None failingJob (initial 3 100) = (Return tt, es') /\
    deadLetters es' = deadLetters (initial 3 100) ++ [failingJob].
Proof.
  assert (Hwf : wf_slice (heap (initial 3 100)) (deadLetterLog (initial 3 100))).
  { exists []. split; [vm_compute; reflexivity|]. cbn. lia. }
  split; [exact Hwf|].
  destruct (moveToDeadLetter_appends_one failingJob (initial 3 100) Hwf)
    as (es' & Hrun & Hlog & _).
  exists es'. split; assumption.
Defined.

(** On a log that holds one record: the copy holds that record, and
    overwriting it and appending to the copy leave the live log as it is. *)
Lemma GetDeadLetterJobs_independent_copy_witness :
  wf_slice (heap (run_from 3 1 lifecycle_full))
    (deadLetterLog (run_from 3 1 lifecycle_full)) /\
  deadLetters (run_from 3 1 lifecycle_full) = [with_Retries 1 failingJob] /\
  exists jobs es1 jobs' h',
    GetDeadLetterJobs (run_from 3 1 lifecycle_full) = (Return jobs, es1) /\
    elems (heap es1) jobs = [with_Retries 1 failingJob] /\
    mutate_all [SetIndex 0 plainJob; Append plainJob] (jobs, heap es1) =
      Some (jobs', h') /\
    elems h' jobs' = [plainJob; plainJob] /\
    deadLetters (set_heap h' es1) = [with_Retries 1 failingJob].
Proof.
  assert (Hwf : wf_slice (heap (run_from 3 1 lifecycle_full))
                  (deadLetterLog (run_from 3 1 lifecycle_full))).
  { exists [with_Retries 1 failingJob].
    split; [vm_compute; reflexivity|]. vm_compute. split; [reflexivity | lia]. }
  assert (Hlog : deadLetters (run_from 3 1 lifecycle_full) = [with_Retries 1 failingJob])
    by (vm_compute; reflexivity).
  split; [exact Hwf|]. split; [exact Hlog|].
  destruct (GetDeadLetterJobs_independent_copy (run_from 3 1 lifecycle_full) Hwf)
    as (jobs & es1 & Hrun & Hcopy & _ & Hmut & _).
  assert (Hrun' := Hrun). vm_compute in Hrun'.
  inversion Hrun'; subst jobs es1; clear Hrun'.
  match type of Hrun with
  | _ = (Return ?j, ?e) =>
      destruct (mutate_all [SetIndex 0 plainJob; Append plainJob] (j, heap e))
        as [[jobs' h']|] eqn:Hm; [|vm_compute in Hm; discriminate];
      exists j, e, jobs', h'
  end.
  split; [exact Hrun|]. rewrite Hlog in *.
  split; [exact Hcopy|]. split; [exact Hm|].
  split; [|apply (Hmut _ _ _ Hm)].
  vm_compute in Hm. inversion Hm; subst jobs' h'. vm_compute. reflexivity.
Defined.

Lemma processJob_fault_drops_job_witness :
  fst (processJob_body (Some 151) failingJob 1 (initial 3 100)) = Panic "runtime fault" /\
  timers (snd (processJob (Some 151) failingJob 1 (initial 3 100))) = [].
Proof.
  assert (Hp : fst (processJob_body (Some 151) failingJob 1 (initial 3 100))
               = Panic "runtime fault") by reflexivity.
  split; [exact Hp|].
  destruct (processJob_fault_drops_job (Some 151) failingJob 1 (initial 3 100)
              "runtime fault" Hp) as (l & _ & Ht & _).
  exact Ht.
Defined.

Lemma faulted_job_is_not_retried :
  fst (processJob_body (Some 151) failingJob 1 (initial 3 100)) = Panic "runtime fault" /\
  fst (processJob (Some 151) failingJob 1 (initial 3 100)) = Return tt /\
  timers (snd (processJob (Some 151) failingJob 1 (initial 3 100))) = [] /\
  timers (snd (handleJobFailure None failingJob (initial 3 100))) =
    [(Second, with_Retries 1 failingJob)] /\
  timers (snd (processJob (Some 151) failingJob 1 (initial 3 100))) <>
  timers (snd (handleJobFailure None failingJob (initial 3 100))).
Proof.
  vm_compute. repeat split; discriminate.
Qed.

(** C9 (amended). [NewEmailService] builds a service for every primary
    capacity [q] from 0 up to the largest a channel of jobs may have; a
    negative or a larger one makes it panic. In every state of that
    service the primary queue has capacity [q] and the retry queue has
    capacity [q / 2] rounded down, so both are fixed for the lifetime of
    the service; no minimum of 1 is enforced: the retry queue has capacity
    0 (it is unbuffered) when [q] is 0 or 1. *)
Theorem retry_capacity_is_half (w q : Z) :
  ((q < 0 \/ max_chan_size < q)%Z ->
   NewEmailService w q = Panic "makechan: size out of range") /\
  ((0 <= q <= max_chan_size)%Z -> exists es0, NewEmailService w q = Return es0) /\
  (forall es,
      reachable w q es ->
      dataqsiz (jobQueue es) = q /\
      dataqsiz (retryQueue es) = (q / 2)%Z /\
      (2 * dataqsiz (retryQueue es) <= q < 2 * dataqsiz (retryQueue es) + 2)%Z /\
      (q <= 1 -> dataqsiz (retryQueue es) = 0)%Z).
Proof.
  split; [apply NewEmailService_panics|].
  split; [intros Hq; exists (initial w q); apply NewEmailService_initial, Hq|].
  intros es Hr. pose proof (reachable_inv w q es Hr) as Hinv.
  destruct Hinv as ((_ & (Hq0 & _) & _) & _ & _ & Hq1 & Hq2 & _).
  assert (Hq : (0 <= q)%Z) by lia.
  rewrite Hq1, Hq2. rewrite Z.quot_div_nonneg by lia.
  pose proof (Z.div_mod q 2 ltac:(lia)) as Hdm.
  pose proof (Z.mod_pos_bound q 2 ltac:(lia)) as Hmod.
  repeat split; lia.
Qed.

Lemma retry_capacity_is_half_witness :
  NewEmailService 3 (2 ^ 62) = Panic "makechan: size out of range" /\
  reachable 3 100 (run_from 3 100 lifecycle) /\
  dataqsiz (retryQueue (run_from 3 100 lifecycle)) = 50%Z.
Proof.
  split.
  - destruct (retry_capacity_is_half 3 (2 ^ 62)) as (Hpanic & _).
    apply Hpanic. right. vm_compute. reflexivity.
  - assert (Hr : reachable 3 100 (run_from 3 100 lifecycle)).
    { apply (reachable_initial 3 100 lifecycle);
        [vm_compute; split; discriminate | vm_compute; reflexivity]. }
    split; [exact Hr|].
    destruct (retry_capacity_is_half 3 100) as (_ & _ & Hall).
    destruct (Hall _ Hr) as (_ & Hhalf & _).
    rewrite Hhalf. reflexivity.
Defined.

Lemma retry_capacity_can_be_zero :
  match NewEmailService 3 1 with
  | Return es =>
      dataqsiz (jobQueue es) = 1%Z /\ dataqsiz (retryQueue es) = 0%Z /\
      ~ (1 <= dataqsiz (retryQueue es))%Z
  | Panic _ => False
  end.
Proof. vm_compute. repeat split. intros H. apply H. reflexivity. Qed.

(** C10. In every reachable state the permanently-failed counter equals
    the dead-lettered counter and both equal the length of the dead-letter
    log. A step of the service either leaves the two counters and the log
    as they are, or it is a retry goroutine that found the retry queue
    full and ran [moveToDeadLetter], which adds one to each counter and one
    record to the log. *)
Theorem dead_letter_counters_agree (w q : Z) (es : EmailService) :
  reachable w q es ->
  jobsFailed es = deadLetterJobs es /\
  deadLetterJobs es = length (deadLetters es) /\
  forall ev es',
    step ev es = Some es' ->
    (jobsFailed es' = jobsFailed es /\ deadLetterJobs es' = deadLetterJobs es /\
     deadLetters es' = deadLetters es) \/
    (exists i d job,
        ev = EvRetryTimer i /\ timers es !! i = Some (d, job) /\
        full (retryQueue es) (retryReceivers es) = true /\
        jobsFailed es' = S (jobsFailed es) /\
        deadLetterJobs es' = S (deadLetterJobs es) /\
        deadLetters es' = deadLetters es ++ [job]).
Proof.
  intros Hr. pose proof (reachable_inv w q es Hr) as (Hwf & _ & (Hc1 & Hc2) & _).
  split; [exact Hc1|]. split; [exact Hc2|].
  intros ev es' Hstep. apply (step_dead_letters ev es es' Hwf Hstep).
Qed.

Lemma dead_letter_counters_agree_witness :
  reachable 3 1 (run_from 3 1 lifecycle_full) /\
  jobsFailed (run_from 3 1 lifecycle_full) = 1 /\
  deadLetterJobs (run_from 3 1 lifecycle_full) = 1 /\
  length (deadLetters (run_from 3 1 lifecycle_full)) = 1.
Proof.
  assert (Hr : reachable 3 1 (run_from 3 1 lifecycle_full)).
  { apply (reachable_initial 3 1 lifecycle_full);
      [vm_compute; split; discriminate | vm_compute; reflexivity]. }
  split; [exact Hr|].
  destruct (dead_letter_counters_agree 3 1 _ Hr) as (H1 & H2 & _).
  assert (Hd : deadLetterJobs (run_from 3 1 lifecycle_full) = 1)
    by (vm_compute; reflexivity).
  rewrite H1, <- H2, Hd. auto.
Defined.

Lemma EnqueueJob_closed (job : EmailJob) (es : EmailService) :
  closed (jobQueue es) = true ->
  EnqueueJob job es = (Panic "send on closed channel", es).
Proof. intros Hc. unfold EnqueueJob, chansend. rewrite Hc. reflexivity. Qed.

Lemma Shutdown_closes_jobQueue (w q : Z) (es : EmailService) :
  reachable w q es -> stopping es <> SdNotCalled -> closed (jobQueue es) = true.
Proof.
  intros Hr Hs. apply reachable_pool in Hr.
  destruct Hr as (_ & _ & _ & [_ Hopen] & _).
  destruct (closed (jobQueue es)); [reflexivity|].
  exfalso. apply Hs, Hopen. reflexivity.
Qed.

(** C5. What the code does once [Shutdown] has been called: from its first
    statement on, while it waits for the workers and after it has
    returned, the primary queue is closed, and an [EnqueueJob] does not
    return an error but panics with "send on closed channel", leaving the
    service as it is. *)
Theorem EnqueueJob_after_Shutdown_panics (w q : Z) (job : EmailJob)
    (es : EmailService) :
  reachable w q es -> stopping es <> SdNotCalled ->
  closed (jobQueue es) = true /\
  EnqueueJob job es = (Panic "send on closed channel", es).
Proof.
  intros Hr Hs. pose proof (Shutdown_closes_jobQueue w q es Hr Hs) as Hc.
  split; [exact Hc | apply EnqueueJob_closed, Hc].
Qed.

(** [NewEmailService(3, 100)], [Start], a [Shutdown] that has returned,
    then [EnqueueJob]. *)
Lemma EnqueueJob_after_Shutdown_panics_witness :
  run shutdown_run (initial 3 100) = Some (run_from 3 100 shutdown_run) /\
  stopping (run_from 3 100 shutdown_run) = SdReturned /\
  EnqueueJob plainJob (run_from 3 100 shutdown_run) =
    (Panic "send on closed channel", run_from 3 100 shutdown_run).
Proof.
  assert (Hrun : run shutdown_run (initial 3 100) = Some (run_from 3 100 shutdown_run))
    by (vm_compute; reflexivity).
  assert (Hs : stopping (run_from 3 100 shutdown_run) = SdReturned)
    by (vm_compute; reflexivity).
  split; [exact Hrun|]. split; [exact Hs|].
  apply (EnqueueJob_after_Shutdown_panics 3 100 plainJob).
  - apply (reachable_initial 3 100 shutdown_run);
      [vm_compute; split; discriminate | exact Hrun].
  - rewrite Hs. discriminate.
Defined.

(** ** Validation of addresses *)

Lemma matches_cat_inv (r1 r2 : regex) (s : list ascii) :
  matches (Cat r1 r2) s ->
  exists s1 s2, s = s1 ++ s2 /\ matches r1 s1 /\ matches r2 s2.
Proof. intros H. inversion H; subst. eauto. Qed.

Lemma matches_class_inv (p : ascii -> bool) (s : list ascii) :
  matches (Class p) s -> exists c, s = [c] /\ p c = true.
Proof. intros H. inversion H; subst. eauto. Qed.

Lemma nullable_matches (r : regex) : nullable r = true <-> matches r [].
Proof.
  induction r; cbn.
  - split; [discriminate | intros H; inversion H].
  - split; [constructor | reflexivity].
  - split; [discriminate | intros H; inversion H].
  - rewrite andb_true_iff, IHr1, IHr2. split.
    + intros [H1 H2]. apply (MCat _ _ [] [] H1 H2).
    + intros H. apply matches_cat_inv in H as (s1 & s2 & Heq & H1 & H2).
      symmetry in Heq. apply app_eq_nil in Heq as [-> ->]. auto.
  - rewrite orb_true_iff, IHr1, IHr2. split.
    + intros [H|H]; [apply MAltL | apply MAltR]; exact H.
    + intros H. inversion H; subst; auto.
  - split; [constructor | reflexivity].
Qed.

Lemma matches_star_cons (r : regex) (c : ascii) (s : list ascii) :
  matches (Star r) (c :: s) ->
  exists s1 s2, s = s1 ++ s2 /\ matches r (c :: s1) /\ matches (Star r) s2.
Proof.
  intros H. remember (Star r) as r' eqn:Hr. remember (c :: s) as t eqn:Ht.
  revert s Ht.
  induction H as [| | | | | |r0 s1 s2 H1 _ H2 IH2]; intros s' Ht;
    try discriminate.
  inversion Hr; subst r0. destruct s1 as [|c1 s1].
  - cbn in Ht. apply (IH2 eq_refl s' Ht).
  - cbn in Ht. inversion Ht; subst. exists s1, s2. auto.
Qed.

Lemma deriv_cat_matches (r1 r2 : regex) (c : ascii) (s : list ascii) :
  (forall s', matches (deriv c r1) s' <-> matches r1 (c :: s')) ->
  (matches (Cat (deriv c r1) r2) s <->
   exists s1 s2, s = s1 ++ s2 /\ matches r1 (c :: s1) /\ matches r2 s2).
Proof.
  intros IH1. split.
  - intros H. apply matches_cat_inv in H as (s1 & s2 & -> & H1 & H2).
    exists s1, s2. rewrite <- IH1. auto.
  - intros (s1 & s2 & -> & H1 & H2). constructor; [apply IH1|]; assumption.
Qed.

Lemma deriv_matches (r : regex) (c : ascii) (s : list ascii) :
  matches (deriv c r) s <-> matches r (c :: s).
Proof.
  revert s. induction r as [| |p|r1 IH1 r2 IH2|r1 IH1 r2 IH2|r IH]; intros s; cbn.
  - split; intros H; inversion H.
  - split; intros H; inversion H.
  - destruct (p c) eqn:Hp; split; intros H; inversion H; subst.
    + constructor. exact Hp.
    + constructor.
    + congruence.
  - pose proof (deriv_cat_matches r1 r2 c s IH1) as Hcat.
    destruct (nullable r1) eqn:Hn.
    + split.
      * intros H. inversion H; subst.
        -- match goal with H' : matches (Cat _ _) _ |- _ =>
             apply Hcat in H' as (s1 & s2 & -> & H1 & H2) end.
           apply (MCat _ _ (c :: s1) s2 H1 H2).
        -- apply (MCat _ _ [] (c :: s)); [apply nullable_matches, Hn|].
           apply IH2. assumption.
      * intros H. apply matches_cat_inv in H as (s1 & s2 & Heq & H1 & H2).
        destruct s1 as [|c1 s1]; cbn in Heq.
        -- subst s2. apply MAltR, IH2, H2.
        -- inversion Heq; subst. apply MAltL, Hcat. eauto.
    + rewrite Hcat. split.
      * intros (s1 & s2 & -> & H1 & H2). apply (MCat _ _ (c :: s1) s2 H1 H2).
      * intros H. apply matches_cat_inv in H as (s1 & s2 & Heq & H1 & H2).
        destruct s1 as [|c1 s1]; cbn in Heq.
        -- apply nullable_matches in H1. congruence.
        -- inversion Heq; subst. eauto.
  - split; intros H; inversion H; subst.
    + apply MAltL, IH1. assumption.
    + apply MAltR, IH2. assumption.
    + apply MAltL, IH1. assumption.
    + apply MAltR, IH2. assumption.
  - rewrite (deriv_cat_matches r (Star r) c s IH). split.
    + intros (s1 & s2 & -> & H1 & H2). apply (MStarApp _ (c :: s1) s2 H1 H2).
    + apply matches_star_cons.
Qed.

Lemma accepts_matches (r : regex) (s : list ascii) :
  accepts r s = true <-> matches r s.
Proof.
  revert r. induction s as [|c s IH]; intros r; cbn.
  - apply nullable_matches.
  - rewrite IH. apply deriv_matches.
Qed.

Lemma matches_star_class (p : ascii -> bool) (s : list ascii) :
  matches (Star (Class p)) s <-> forallb p s = true.
Proof.
  split.
  - intros H. remember (Star (Class p)) as r eqn:Hr.
    induction H as [| | | | | |r0 s1 s2 H1 _ H2 IH2]; try discriminate.
    + reflexivity.
    + inversion Hr; subst r0. apply matches_class_inv in H1 as (c & -> & Hc).
      cbn. rewrite Hc. apply IH2. reflexivity.
  - induction s as [|c s IH]; cbn.
    + intros _. constructor.
    + intros H. apply andb_true_iff in H as [Hc Hs].
      apply (MStarApp _ [c] s); [constructor; exact Hc | apply IH, Hs].
Qed.

Lemma matches_plus_class (p : ascii -> bool) (s : list ascii) :
  matches (Plus (Class p)) s <-> s <> [] /\ forallb p s = true.
Proof.
  unfold Plus. split.
  - intros H. apply matches_cat_inv in H as (s1 & s2 & -> & H1 & H2).
    apply matches_class_inv in H1 as (c & -> & Hc).
    apply matches_star_class in H2. cbn. rewrite Hc, H2. split; [discriminate | reflexivity].
  - intros [Hne H]. destruct s as [|c s]; [contradiction|].
    cbn in H. apply andb_true_iff in H as [Hc Hs].
    apply (MCat _ _ [c] s); [constructor; exact Hc | apply matches_star_class, Hs].
Qed.

Lemma matches_atleast2_class (p : ascii -> bool) (s : list ascii) :
  matches (AtLeast2 (Class p)) s <-> 2 <= length s /\ forallb p s = true.
Proof.
  unfold AtLeast2. split.
  - intros H. apply matches_cat_inv in H as (s1 & s2 & -> & H1 & H2).
    apply matches_cat_inv in H2 as (s2' & s3 & -> & H2 & H3).
    apply matches_class_inv in H1 as (c1 & -> & Hc1).
    apply matches_class_inv in H2 as (c2 & -> & Hc2).
    apply matches_star_class in H3. cbn. rewrite Hc1, Hc2, H3. split; [lia | reflexivity].
  - intros [Hlen H]. destruct s as [|c1 [|c2 s]]; cbn in Hlen; try lia.
    cbn in H. apply andb_true_iff in H as [Hc1 H]. apply andb_true_iff in H as [Hc2 Hs].
    apply (MCat _ _ [c1] (c2 :: s)); [constructor; exact Hc1|].
    apply (MCat _ _ [c2] s); [constructor; exact Hc2 | apply matches_star_class, Hs].
Qed.

Lemma matches_lit (c : ascii) (s : list ascii) : matches (Lit c) s <-> s = [c].
Proof.
  unfold Lit. split.
  - intros H. apply matches_class_inv in H as (c' & -> & Hc).
    apply Ascii.eqb_eq in Hc. subst. reflexivity.
  - intros ->. constructor. apply Ascii.eqb_refl.
Qed.

Lemma ValidateEmail_parts (email : string) :
  ValidateEmail email = true ->
  exists l d t : list ascii,
    list_ascii_of_string email = l ++ "@"%char :: d ++ "."%char :: t /\
    l <> [] /\ forallb localClass l = true /\
    d <> [] /\ forallb domainClass d = true /\
    2 <= length t /\ forallb letter t = true.
Proof.
  unfold ValidateEmail, emailPattern. rewrite accepts_matches. intros H.
  apply matches_cat_inv in H as (l & s1 & Hs & Hl & H).
  apply matches_cat_inv in H as (a & s2 & -> & Ha & H).
  apply matches_cat_inv in H as (d & s3 & -> & Hd & H).
  apply matches_cat_inv in H as (b & t & -> & Hb & Ht).
  apply matches_lit in Ha, Hb. subst a b.
  apply matches_plus_class in Hl as [? ?], Hd as [? ?].
  apply matches_atleast2_class in Ht as [? ?].
  exists l, d, t. rewrite Hs. cbn. auto 10.
Qed.

(** X1. [ValidateEmail] accepts exactly the addresses made of a non-empty
    local part over [a-zA-Z0-9._%+-], one '@', a non-empty domain part over
    [a-zA-Z0-9.-], a '.' and a final run of at least two letters. *)
Theorem ValidateEmail_shape (email : string) :
  ValidateEmail email = true <->
  exists l d t : list ascii,
    list_ascii_of_string email = l ++ "@"%char :: d ++ "."%char :: t /\
    l <> [] /\ forallb localClass l = true /\
    d <> [] /\ forallb domainClass d = true /\
    2 <= length t /\ forallb letter t = true.
Proof.
  split; [apply ValidateEmail_parts|].
  unfold ValidateEmail, emailPattern. rewrite accepts_matches.
  - intros (l & d & t & -> & Hl & Hlc & Hd & Hdc & Ht & Htc).
    apply (MCat _ _ l); [apply matches_plus_class; auto|].
    apply (MCat _ _ ["@"%char]); [apply matches_lit; reflexivity|].
    apply (MCat _ _ d); [apply matches_plus_class; auto|].
    apply (MCat _ _ ["."%char]); [apply matches_lit; reflexivity|].
    apply matches_atleast2_class. auto.
Qed.

Lemma forallb_count_zero (p : ascii -> bool) (x : ascii) (l : list ascii) :
  p x = false -> forallb p l = true -> count_occ ascii_dec l x = 0.
Proof.
  intros Hx Hl. apply count_occ_not_In. intros Hin.
  rewrite forallb_forall in Hl. apply Hl in Hin. congruence.
Qed.

Lemma forallb_weaken (p q : ascii -> bool) (l : list ascii) :
  (forall c, p c = true -> q c = true) -> forallb p l = true -> forallb q l = true.
Proof.
  intros Hpq. rewrite !forallb_forall. auto.
Qed.

Lemma length_list_ascii (s : string) :
  length (list_ascii_of_string s) = String.length s.
Proof. induction s as [|c s IH]; cbn; [reflexivity | rewrite IH; reflexivity]. Qed.

(** X2. An address accepted by [ValidateEmail] contains exactly one '@',
    is at least 6 bytes long and consists only of ASCII letters, digits
    and the characters . _ % + - @ (so no space, newline or non-ASCII
    byte). *)
Theorem ValidateEmail_one_at (email : string) :
  ValidateEmail email = true ->
  count_occ ascii_dec (list_ascii_of_string email) "@"%char = 1 /\
  6 <= String.length email /\
  forallb (fun c => localClass c || Ascii.eqb c "@") (list_ascii_of_string email) = true.
Proof.
  intros H. apply ValidateEmail_parts in H
    as (l & d & t & Heq & Hl & Hlc & Hd & Hdc & Ht & Htc).
  rewrite <- length_list_ascii, Heq. split; [|split].
  - rewrite count_occ_elt_eq by reflexivity.
    rewrite app_assoc, count_occ_elt_neq by discriminate.
    rewrite !count_occ_app.
    rewrite (forallb_count_zero localClass) by (reflexivity || assumption).
    rewrite (forallb_count_zero domainClass) by (reflexivity || assumption).
    rewrite (forallb_count_zero letter) by (reflexivity || assumption).
    reflexivity.
  - rewrite length_app. cbn [length]. rewrite length_app. cbn [length].
    destruct l; [contradiction|]. destruct d; [contradiction|]. cbn [length]. lia.
  - rewrite forallb_app. cbn [forallb]. rewrite forallb_app. cbn [forallb].
    rewrite (forallb_weaken localClass _ l), (forallb_weaken domainClass _ d),
      (forallb_weaken letter _ t); try assumption.
    + reflexivity.
    + intros c Hc. unfold localClass, alnum. rewrite Hc. reflexivity.
    + intros c Hc. unfold localClass, domainClass in *.
      apply orb_true_iff in Hc as [Hc|Hc]; [rewrite Hc; reflexivity|].
      unfold one_of in *. cbn [list_ascii_of_string existsb] in *.
      repeat (apply orb_true_iff in Hc as [Hc|Hc]); try discriminate;
        rewrite Hc; rewrite ?orb_true_r; reflexivity.
    + intros c Hc. rewrite Hc. reflexivity.
Qed.

(** ** The HTTP handlers *)

Ltac status_simpl :=
  cbv [status httpError StatusOK StatusAccepted StatusBadRequest
       StatusMethodNotAllowed StatusUnprocessableEntity StatusServiceUnavailable].

Lemma isEmpty_false (s : string) : isEmpty s = false <-> s <> EmptyString.
Proof. destruct s; cbn; split; congruence. Qed.

Lemma EnqueueJob_cases (job : EmailJob) (es : EmailService) :
  (exists p, EnqueueJob job es = (Panic p, es) /\ closed (jobQueue es) = true) \/
  (exists e, EnqueueJob job es = (Return (Some e), es) /\ closed (jobQueue es) = false) \/
  (closed (jobQueue es) = false /\
   (EnqueueJob job es =
      (Return None,
       set_jobQueue (mkChan (buf (jobQueue es) ++ [job]) (dataqsiz (jobQueue es)) false) es) \/
    EnqueueJob job es =
      (Return None,
       set_inflight (inflight es ++ [job]) (set_idle (pred (idle es)) es)))).
Proof.
  unfold EnqueueJob, chansend. destruct (closed (jobQueue es)) eqn:Hc.
  - left. eauto.
  - right. destruct (0 <? jobReceivers es).
    + right. auto.
    + destruct (chan_len (jobQueue es) <? dataqsiz (jobQueue es))%Z.
      * right. auto.
      * left. eauto.
Qed.

(** X3. [SendEmailHandler] answers with status 202, 400, 405, 422 or 503,
    and whenever its answer is not 202 the service is exactly as it was:
    a rejected request leaves no trace in any queue. *)
Theorem SendEmailHandler_rejection_leaves_service (r : Request)
    (es es' : EmailService) (resp : response) :
  SendEmailHandler r es = (Return resp, es') ->
  (status resp = 202 \/ status resp = 400 \/ status resp = 405 \/
   status resp = 422 \/ status resp = 503)%Z /\
  (status resp <> 202%Z -> es' = es).
Proof.
  unfold SendEmailHandler.
  destruct (negb (Method r =? "POST")%string);
    [intros [= <- <-]; status_simpl; split; [lia | reflexivity]|].
  destruct (decoded r) as [req|];
    [|intros [= <- <-]; status_simpl; split; [lia | reflexivity]].
  destruct (isEmpty (ReqTo req) || isEmpty (ReqSubject req) || isEmpty (ReqBody req));
    [intros [= <- <-]; status_simpl; split; [lia | reflexivity]|].
  destruct (negb (ValidateEmail (ReqTo req)));
    [intros [= <- <-]; status_simpl; split; [lia | reflexivity]|].
  destruct (EnqueueJob_cases (mkEmailJob (ReqTo req) (ReqSubject req) (ReqBody req) 0) es)
    as [(p & -> & _) | [(e & -> & _) | (_ & [-> | ->])]].
  - discriminate.
  - intros [= <- <-]. status_simpl. split; [lia | reflexivity].
  - intros [= <- <-]. status_simpl. split; [lia | congruence].
  - intros [= <- <-]. status_simpl. split; [lia | congruence].
Qed.

(** X4. [SendEmailHandler] answers 202 only to a POST whose body decoded
    and whose three fields are non-empty with an address accepted by
    [ValidateEmail], and then exactly one job carrying those fields and
    retry count 0 has been sent on the primary queue (appended to its
    buffer or handed to an idle worker). Conversely such a request is
    answered 202 whenever the primary queue is open and not full. *)
Theorem SendEmailHandler_accepts (r : Request) (es : EmailService) :
  (forall resp es',
      SendEmailHandler r es = (Return resp, es') -> status resp = 202%Z ->
      Method r = "POST"%string /\ closed (jobQueue es) = false /\
      exists req,
        decoded r = Some req /\
        ReqTo req <> EmptyString /\ ReqSubject req <> EmptyString /\
        ReqBody req <> EmptyString /\ ValidateEmail (ReqTo req) = true /\
        let job := mkEmailJob (ReqTo req) (ReqSubject req) (ReqBody req) 0 in
        (es' = set_jobQueue (mkChan (buf (jobQueue es) ++ [job])
                               (dataqsiz (jobQueue es)) false) es \/
         es' = set_inflight (inflight es ++ [job]) (set_idle (pred (idle es)) es))) /\
  (forall req,
      Method r = "POST"%string -> decoded r = Some req ->
      ReqTo req <> EmptyString -> ReqSubject req <> EmptyString ->
      ReqBody req <> EmptyString -> ValidateEmail (ReqTo req) = true ->
      closed (jobQueue es) = false ->
      wf_chan (jobQueue es) (jobReceivers es) ->
      full (jobQueue es) (jobReceivers es) = false ->
      exists resp es',
        SendEmailHandler r es = (Return resp, es') /\ status resp = 202%Z).
Proof.
  split.
  - intros resp es'. unfold SendEmailHandler.
    destruct (String.eqb_spec (Method r) "POST") as [Hm|Hm]; cbn [negb];
      [|intros [= <- <-]; status_simpl; discriminate].
    destruct (decoded r) as [req|]; [|intros [= <- <-]; status_simpl; discriminate].
    destruct (isEmpty (ReqTo req)) eqn:E1; cbn [orb];
      [intros [= <- <-]; status_simpl; discriminate|].
    destruct (isEmpty (ReqSubject req)) eqn:E2; cbn [orb];
      [intros [= <- <-]; status_simpl; discriminate|].
    destruct (isEmpty (ReqBody req)) eqn:E3; cbn [orb];
      [intros [= <- <-]; status_simpl; discriminate|].
    destruct (ValidateEmail (ReqTo req)) eqn:Ev; cbn [negb];
      [|intros [= <- <-]; status_simpl; discriminate].
    apply isEmpty_false in E1, E2, E3.
    destruct (EnqueueJob_cases (mkEmailJob (ReqTo req) (ReqSubject req) (ReqBody req) 0) es)
      as [(p & -> & _) | [(e & -> & _) | (Hopen & [-> | ->])]].
    + discriminate.
    + intros [= <- <-]. status_simpl. discriminate.
    + intros [= <- <-] _. repeat split; auto. exists req. repeat split; auto.
    + intros [= <- <-] _. repeat split; auto. exists req. repeat split; auto.
  - intros req Hm Hd H1 H2 H3 Hv Hopen Hwf Hroom. unfold SendEmailHandler.
    rewrite Hm, Hd. cbn [String.eqb negb].
    apply isEmpty_false in H1, H2, H3. rewrite H1, H2, H3, Hv. cbn [orb negb].
    unfold EnqueueJob.
    rewrite (chansend_not_full _ _ _ Hopen Hwf Hroom).
    destruct (0 <? jobReceivers es); eexists _, _; split; reflexivity.
Qed.

(** X5. In every reachable state [DeadLetterHandler] returns normally and
    changes neither the dead-letter log nor its counters. To a GET it
    answers 200 with the records of the log in order (to, subject, body)
    and a count equal to the dead-lettered counter; to any other method it
    answers 405 and leaves the service untouched. *)
Theorem DeadLetterHandler_report (w q : Z) (r : Request) (es : EmailService) :
  reachable w q es ->
  exists resp es',
    DeadLetterHandler r es = (Return resp, es') /\
    deadLetters es' = deadLetters es /\
    jobsFailed es' = jobsFailed es /\ deadLetterJobs es' = deadLetterJobs es /\
    (Method r = "GET"%string ->
     resp = mkResponse 200 (DeadLetterReport (deadLetterJobs es)
                              (map public (deadLetters es)))) /\
    (Method r <> "GET"%string ->
     resp = mkResponse 405 (ErrorText "Method not allowed") /\ es' = es).
Proof.
  intros Hr. apply reachable_inv in Hr.
  destruct Hr as ((Hwf & _) & _ & (Hc1 & Hc2) & _).
  unfold DeadLetterHandler.
  destruct (String.eqb_spec (Method r) "GET") as [Hm|Hm]; cbn [negb].
  - destruct (GetDeadLetterJobs_copy es Hwf)
      as (jobs & es1 & Hrun & Hcopy & Hne & Hsame & Hal & Hlog & Hf & Hd).
    rewrite Hrun. eexists _, _. split; [reflexivity|].
    assert (Hdl : deadLetters es1 = deadLetters es).
    { unfold deadLetters. rewrite Hlog. apply elems_same_array. exact Hsame. }
    split; [exact Hdl|]. split; [exact Hf|]. split; [exact Hd|].
    split; [|intros; contradiction].
    intros _. rewrite Hcopy. f_equal. f_equal.
    assert (Hlen : len jobs = len (deadLetterLog es)).
    { unfold GetDeadLetterJobs, make_slice, copy_slice in Hrun.
      inversion Hrun; subst. reflexivity. }
    rewrite Hlen, <- (wf_slice_length _ _ Hwf). fold (deadLetters es). congruence.
  - eexists _, _. split; [reflexivity|]. repeat split; auto. intros; contradiction.
Qed.

(** ** Configuration *)

Lemma parse_digits_non_digit (c : ascii) (s : list ascii) (n : Z) :
  In c s -> digit_value c = None -> parse_digits n s = None.
Proof.
  revert n. induction s as [|c' s IH]; intros n Hin Hc; [destruct Hin|].
  cbn. destruct Hin as [->|Hin].
  - rewrite Hc. reflexivity.
  - destruct (digit_value c'); [apply IH; assumption | reflexivity].
Qed.

Lemma Atoi_non_digit (v : string) (c : ascii) :
  In c (list_ascii_of_string v) -> between "0" "9" c = false ->
  c <> "-"%char -> c <> "+"%char -> Atoi v = None.
Proof.
  intros Hin Hc Hm Hp. unfold Atoi.
  assert (Hd : digit_value c = None) by (unfold digit_value; rewrite Hc; reflexivity).
  destruct (list_ascii_of_string v) as [|c0 rest]; [reflexivity|].
  assert (Hin' : In c (if Ascii.eqb c0 "-" || Ascii.eqb c0 "+" then rest else c0 :: rest)).
  { destruct (Ascii.eqb_spec c0 "-") as [->|?]; cbn [orb].
    - destruct Hin as [Heq|Hin]; [congruence | exact Hin].
    - destruct (Ascii.eqb_spec c0 "+") as [->|?]; [|exact Hin].
      destruct Hin as [Heq|Hin]; [congruence | exact Hin]. }
  destruct (if Ascii.eqb c0 "-" || Ascii.eqb c0 "+" then rest else c0 :: rest)
    as [|c1 ds] eqn:Hds; [reflexivity|].
  rewrite (parse_digits_non_digit c (c1 :: ds) 0 Hin' Hd). reflexivity.
Qed.

Lemma Atoi_range (v : string) (n : Z) :
  Atoi v = Some n -> (min_int <= n <= max_int)%Z.
Proof.
  unfold Atoi. destruct (list_ascii_of_string v) as [|c0 rest]; [discriminate|].
  destruct (if Ascii.eqb c0 "-" || Ascii.eqb c0 "+" then rest else c0 :: rest);
    [discriminate|].
  destruct (parse_digits 0 (a :: l)) as [m|]; [|discriminate].
  destruct (Z.leb_spec min_int (if Ascii.eqb c0 "-" then (- m)%Z else m));
    cbn [andb]; [|discriminate].
  destruct (Z.leb_spec (if Ascii.eqb c0 "-" then (- m)%Z else m) max_int);
    [|discriminate].
  intros [= <-]. lia.
Qed.

(** X6. [getEnvInt] returns the default when the variable is unset, empty
    or contains a byte that is neither a decimal digit nor a sign; when
    [strconv.Atoi] parses the value it returns that number, whatever its
    sign; and its result is within the range of [int] whenever the default
    is. *)
Theorem getEnvInt_fallback (env : gmap string string) (key : string) (d : Z) :
  (env !! key = None -> getEnvInt env key d = d) /\
  (env !! key = Some EmptyString -> getEnvInt env key d = d) /\
  (forall v c,
      env !! key = Some v -> In c (list_ascii_of_string v) ->
      between "0" "9" c = false -> c <> "-"%char -> c <> "+"%char ->
      getEnvInt env key d = d) /\
  (forall v n,
      env !! key = Some v -> Atoi v = Some n -> getEnvInt env key d = n) /\
  ((min_int <= d <= max_int)%Z ->
   (min_int <= getEnvInt env key d <= max_int)%Z).
Proof.
  unfold getEnvInt, Getenv. split; [|split; [|split; [|split]]].
  - intros ->. reflexivity.
  - intros ->. reflexivity.
  - intros v c -> Hin Hc Hm Hp. rewrite (Atoi_non_digit v c Hin Hc Hm Hp).
    destruct (isEmpty v); reflexivity.
  - intros v n -> Hn. rewrite Hn. destruct v; [discriminate Hn | reflexivity].
  - intros Hd. destruct (env !! key) as [v|]; [|exact Hd].
    destruct (isEmpty v); [exact Hd|]. cbn [negb].
    destruct (Atoi v) as [n|] eqn:Hn; [|exact Hd]. apply (Atoi_range v n Hn).
Qed.

(** X7. The start of [main] yields a started service when the configured
    queue size lies between 0 and the largest capacity a channel of jobs
    may have and the worker count fits the [WaitGroup]: the service has
    the configured worker count, the counter stands at the number of
    worker goroutines plus one, and the capacities are [QueueSize] and
    [QueueSize / 2]. A negative or a larger [QUEUE_SIZE] makes
    [NewEmailService] panic. With the variables unset the configuration
    is 3 workers, queue size 100 and port 8080. *)
Theorem startup_outcome (env : gmap string string) :
  let cfg := LoadConfig env in
  ((0 <= QueueSize cfg <= max_chan_size)%Z -> (Workers cfg <= max_workers)%Z ->
   exists es,
     startup env = Return es /\ started es = true /\
     reachable (Workers cfg) (QueueSize cfg) es /\
     workers es = Workers cfg /\
     wg es = (Z.max 0 (Workers cfg) + 1)%Z /\
     dataqsiz (jobQueue es) = QueueSize cfg /\
     dataqsiz (retryQueue es) = (QueueSize cfg / 2)%Z) /\
  ((QueueSize cfg < 0 \/ max_chan_size < QueueSize cfg)%Z ->
   startup env = Panic "makechan: size out of range") /\
  (env !! "WORKERS"%string = None -> Workers cfg = 3%Z) /\
  (env !! "QUEUE_SIZE"%string = None -> QueueSize cfg = 100%Z) /\
  (env !! "PORT"%string = None -> Port cfg = "8080"%string).
Proof.
  intros cfg. split; [|split; [|split; [|split]]].
  - intros Hq Hw. unfold startup. fold cfg.
    rewrite (NewEmailService_initial _ _ Hq).
    rewrite Start_ok by (cbn [wg workers initial]; lia || reflexivity).
    eexists. split; [reflexivity|]. split; [reflexivity|]. split.
    + apply (reachable_initial _ _ [EvStart]); [exact Hq|].
      cbn [run step]. cbn [started initial].
      rewrite Start_ok by (cbn [wg workers initial]; lia || reflexivity).
      reflexivity.
    + unfold initial, nworkers. simpl_fields.
      rewrite Z.quot_div_nonneg by lia. repeat split; lia.
  - intros Hq. unfold startup. fold cfg.
    rewrite (NewEmailService_panics _ _ Hq). reflexivity.
  - intros H. subst cfg. unfold LoadConfig, getEnvInt, Getenv. cbn. rewrite H. reflexivity.
  - intros H. subst cfg. unfold LoadConfig, getEnvInt, Getenv. cbn. rewrite H. reflexivity.
  - intros H. subst cfg. unfold LoadConfig, getEnvString, Getenv. cbn. rewrite H. reflexivity.
Qed.

(** ** Properties of whole runs *)

Lemma reachable_induction (w q : Z) (P : EmailService -> Prop) :
  (forall es0, NewEmailService w q = Return es0 -> P es0) ->
  (forall ev es es',
      service_inv w q es -> pool_inv es -> P es -> step ev es = Some es' -> P es') ->
  forall es, reachable w q es -> P es.
Proof.
  intros Hinit Hstep es (es0 & evs & Hnew & Hrun).
  pose proof (NewEmailService_inv w q es0 Hnew) as Hinv.
  pose proof (Hinit es0 Hnew) as HP.
  assert (Hpool : pool_inv es0).
  { apply NewEmailService_Return in Hnew as [_ ->]. apply initial_pool. }
  clear Hnew Hinit.
  revert es0 Hinv Hpool HP Hrun.
  induction evs as [|ev evs IH]; intros es0 Hinv Hpool HP Hrun; cbn [run] in Hrun.
  - inversion Hrun; subst. exact HP.
  - destruct (step ev es0) as [es1|] eqn:Hs; [|discriminate].
    apply (IH es1); [| | |exact Hrun].
    + apply (step_inv w q ev es0); assumption.
    + apply (step_pool_inv w q ev es0); assumption.
    + apply (Hstep ev es0); assumption.
Qed.

Lemma reachable_step (w q : Z) (ev : event) (es es' : EmailService) :
  reachable w q es -> step ev es = Some es' -> reachable w q es'.
Proof.
  intros (es0 & evs & Hnew & Hrun) Hstep. exists es0, (evs ++ [ev]).
  split; [exact Hnew|]. clear Hnew. revert es0 Hrun.
  induction evs as [|e evs IH]; intros es0 Hrun; cbn [run app] in *.
  - inversion Hrun; subst. rewrite Hstep. reflexivity.
  - destruct (step e es0); [apply IH; exact Hrun | discriminate].
Qed.

Lemma reachable_run (w q : Z) (evs : list event) (es es' : EmailService) :
  reachable w q es -> run evs es = Some es' -> reachable w q es'.
Proof.
  revert es. induction evs as [|ev evs IH]; intros es Hr Hrun; cbn [run] in Hrun.
  - inversion Hrun; subst. exact Hr.
  - destruct (step ev es) as [es1|] eqn:Hs; [|discriminate].
    apply (IH es1); [|exact Hrun]. apply (reachable_step w q ev es); assumption.
Qed.

Lemma retryGoroutine_jobsProcessed (job : EmailJob) (es : EmailService) :
  jobsProcessed (snd (retryGoroutine job es)) = jobsProcessed es.
Proof.
  unfold retryGoroutine, chansend.
  destruct (closed (retryQueue es)); [reflexivity|].
  destruct (0 <? retryReceivers es); [destruct (0 <? idle es); reflexivity|].
  destruct (chan_len (retryQueue es) <? dataqsiz (retryQueue es))%Z; reflexivity.
Qed.

Lemma processJob_jobsProcessed (fault : option nat) (job : EmailJob) (id : Z)
    (es es' : EmailService) :
  returned (processJob fault job id es) = Some es' ->
  jobsProcessed es' = jobsProcessed es \/ jobsProcessed es' = S (jobsProcessed es).
Proof.
  destruct (processJob_effect fault job id es) as (es1 & Hrun & _ & _ & Hp).
  rewrite Hrun. cbn [returned]. intros H. inversion H; subst. exact Hp.
Qed.

(** What a step is in each case, for the events whose effect is a method
    that returns. *)
Ltac step_effect H :=
  first
    [ apply Start_returned in H as [-> _]
    | apply worker_return_returned in H as [-> _]
    | apply retryWorker_return_returned in H as [-> _]
    | match type of H with
      | match Shutdown_closeJobQueue ?es with _ => _ end = _ =>
          let Hsd := fresh "Hsd" in
          let es1 := fresh "es1" in
          destruct (Shutdown_closeJobQueue es) as [[[]|?] es1] eqn:Hsd;
          [|discriminate];
          destruct (Shutdown_closeJobQueue_returned es es1) as [? ->];
          [rewrite Hsd; reflexivity|];
          inversion H; subst; clear H
      | match Shutdown_closeShutdown ?es with _ => _ end = _ =>
          let Hsd := fresh "Hsd" in
          let es1 := fresh "es1" in
          destruct (Shutdown_closeShutdown es) as [[[]|?] es1] eqn:Hsd;
          [|discriminate];
          destruct (Shutdown_closeShutdown_returned es es1) as (? & -> & ?);
          [rewrite Hsd; reflexivity|];
          inversion H; subst; clear H
      end ].

Lemma step_jobsProcessed (ev : event) (es es' : EmailService) :
  step ev es = Some es' ->
  jobsProcessed es' = jobsProcessed es \/ jobsProcessed es' = S (jobsProcessed es).
Proof.
  intros Hstep. destruct ev; cbn [step] in Hstep.
  - destruct (started es); [discriminate|]. step_effect Hstep. left. reflexivity.
  - unfold EnqueueJob, chansend in Hstep.
    break_step Hstep; inversion Hstep; subst; left; reflexivity.
  - unfold chanrecv in Hstep.
    break_step Hstep; inversion Hstep; subst; left; reflexivity.
  - unfold chanrecv in Hstep.
    break_step Hstep; inversion Hstep; subst; left; reflexivity.
  - break_step Hstep; inversion Hstep; subst; left; reflexivity.
  - destruct (free_worker es && shutdown es); [|discriminate].
    step_effect Hstep. left. reflexivity.
  - break_step Hstep; inversion Hstep; subst; left; reflexivity.
  - unfold chanrecv in Hstep.
    break_step Hstep; inversion Hstep; subst; left; reflexivity.
  - break_step Hstep; inversion Hstep; subst; left; reflexivity.
  - break_step Hstep; inversion Hstep; subst; left; reflexivity.
  - destruct (retryWorker es); try discriminate.
    destruct (started es); [|discriminate].
    apply processJob_jobsProcessed in Hstep. exact Hstep.
  - destruct (retryWorker es); try discriminate.
    destruct (started es && shutdown es); [|discriminate].
    step_effect Hstep. left. reflexivity.
  - destruct ((1 <=? workerID)%Z && (workerID <=? workers es)%Z); [|discriminate].
    destruct (inflight es !! i) as [job|]; [|discriminate].
    apply processJob_jobsProcessed in Hstep. exact Hstep.
  - destruct (timers es !! i) as [[d job]|]; [|discriminate].
    pose proof (retryGoroutine_jobsProcessed job (set_timers (delete i (timers es)) es))
      as Hp.
    destruct (retryGoroutine job (set_timers (delete i (timers es)) es)) as [[[]|] es1];
      [|discriminate].
    inversion Hstep; subst. left. exact Hp.
  - break_step Hstep; inversion Hstep; subst; left; reflexivity.
  - break_step Hstep; inversion Hstep; subst; left; reflexivity.
  - inversion Hstep; subst. left. reflexivity.
  - step_effect Hstep. left. reflexivity.
  - destruct (stopping es); try discriminate. step_effect Hstep. left. reflexivity.
  - break_step Hstep; inversion Hstep; subst; left; reflexivity.
Qed.

(** X9. Along any run from a reachable state the processed, failed and
    dead-lettered counters never decrease, and the dead-letter log only
    grows at its end: the earlier log is a prefix of the later one. *)
Theorem counters_and_log_only_grow (w q : Z) (evs : list event)
    (es es' : EmailService) :
  reachable w q es -> run evs es = Some es' ->
  jobsProcessed es <= jobsProcessed es' /\
  jobsFailed es <= jobsFailed es' /\
  deadLetterJobs es <= deadLetterJobs es' /\
  exists more, deadLetters es' = deadLetters es ++ more.
Proof.
  revert es. induction evs as [|ev evs IH]; intros es Hr Hrun; cbn [run] in Hrun.
  - inversion Hrun; subst. repeat split; try lia. exists []. symmetry. apply app_nil_r.
  - destruct (step ev es) as [es1|] eqn:Hs; [|discriminate].
    destruct (IH es1 (reachable_step w q ev es es1 Hr Hs) Hrun)
      as (Hp & Hf & Hd & more & Hmore).
    pose proof (step_jobsProcessed ev es es1 Hs) as Hp1.
    pose proof (reachable_inv w q es Hr) as (Hwf & _).
    destruct (step_dead_letters ev es es1 Hwf Hs)
      as [(Hf1 & Hd1 & Hl1) | (i & d & job & _ & _ & _ & Hf1 & Hd1 & Hl1)].
    + repeat split; try lia. exists more. congruence.
    + repeat split; try lia. exists (job :: more).
      rewrite Hmore, Hl1, <- app_assoc. reflexivity.
Qed.

Ltac unfold_totals :=
  unfold in_system, finished, deadLetters in *; simpl_fields.

Ltac conserved Hopen :=
  unfold_totals; rewrite ?length_app; cbn [length];
  split; [lia | first [exact Hopen | reflexivity]].

Lemma step_conserves_jobs (w q : Z) (ev : event) (es es' : EmailService) :
  service_inv w q es -> pool_inv es -> closed (jobQueue es) = false ->
  regular ev = true -> step ev es = Some es' ->
  in_system es' + finished es' = in_system es + finished es + accepted ev es /\
  closed (jobQueue es') = false.
Proof.
  intros Hinv Hpool Hopen Hreg Hstep.
  destruct Hinv as ((Hwf & _ & _ & Hrc & _) & _).
  assert (Hnc : stopping es = SdNotCalled) by (apply Hpool, Hopen).
  assert (Hsh : shutdown es = false).
  { destruct (shutdown es) eqn:Hs; [|reflexivity].
    destruct Hpool as (_ & _ & _ & _ & [Hp _] & _).
    destruct (Hp Hs); congruence. }
  destruct ev; cbn [step] in Hstep; cbn [accepted]; try discriminate Hreg.
  - (* EvStart *)
    destruct (started es); [discriminate|]. step_effect Hstep. conserved Hopen.
  - (* EvSendEmail *)
    inversion Hstep; subst; clear Hstep. unfold EnqueueJob, chansend.
    rewrite Hopen. destruct (0 <? jobReceivers es).
    + conserved Hopen.
    + destruct (chan_len (jobQueue es) <? dataqsiz (jobQueue es))%Z;
        conserved Hopen.
  - (* EvTakeJob *)
    destruct (free_worker es); [|discriminate]. unfold chanrecv in Hstep.
    rewrite Hopen in Hstep. destruct (buf (jobQueue es)) as [|x rest] eqn:Hb;
      [discriminate|].
    inversion Hstep; subst. unfold_totals. rewrite Hb, length_app.
    cbn [length]. split; [lia | first [exact Hopen | reflexivity]].
  - (* EvTakeRetry *)
    destruct (free_worker es); [|discriminate]. unfold chanrecv in Hstep.
    rewrite Hrc in Hstep. destruct (buf (retryQueue es)) as [|x rest] eqn:Hb;
      [discriminate|].
    inversion Hstep; subst. unfold_totals. rewrite Hb, length_app.
    cbn [length]. split; [lia | first [exact Hopen | reflexivity]].
  - (* EvWorkerPark *)
    break_step Hstep; inversion Hstep; subst. conserved Hopen.
  - (* EvWorkerExit *)
    rewrite Hsh, andb_false_r in Hstep. discriminate.
  - (* EvRetryWorkerEnter *)
    destruct (retryWorker es) eqn:Hrw; try discriminate.
    break_step Hstep; inversion Hstep; subst. unfold_totals. rewrite Hrw.
    split; [lia | exact Hopen].
  - (* EvRetryWorkerTake *)
    destruct (retryWorker es) eqn:Hrw; try discriminate.
    destruct (started es); [|discriminate]. unfold chanrecv in Hstep.
    rewrite Hrc in Hstep. destruct (buf (retryQueue es)) as [|x rest] eqn:Hb;
      [discriminate|].
    inversion Hstep; subst. unfold_totals. rewrite Hb, Hrw.
    cbn [length]. split; [lia | exact Hopen].
  - (* EvRetryWorkerPark *)
    destruct (retryWorker es) eqn:Hrw; try discriminate.
    break_step Hstep; inversion Hstep; subst. unfold_totals. rewrite Hrw.
    split; [lia | exact Hopen].
  - (* EvRetryWorkerTimeout *)
    destruct (retryWorker es) eqn:Hrw; try discriminate;
      break_step Hstep; inversion Hstep; subst; unfold_totals; rewrite Hrw;
      (split; [lia | exact Hopen]).
  - (* EvRetryWorkerProcess *)
    destruct fault; [discriminate Hreg|].
    destruct (retryWorker es) eqn:Hrw; try discriminate.
    destruct (started es); [|discriminate].
    destruct (simulatedFailure job) eqn:Hf.
    + rewrite (processJob_first_attempt job 0 _ Hf) in Hstep.
      cbn [returned] in Hstep.
      inversion Hstep; subst. unfold_totals. rewrite Hrw, length_app.
      cbn [length]. split; [lia | exact Hopen].
    + rewrite (processJob_success job 0 _ Hf) in Hstep.
      cbn [returned] in Hstep.
      inversion Hstep; subst. unfold_totals. rewrite Hrw.
      split; [lia | exact Hopen].
  - (* EvRetryWorkerExit *)
    destruct (retryWorker es); try discriminate.
    rewrite Hsh, andb_false_r in Hstep. discriminate.
  - (* EvProcess *)
    destruct fault; [discriminate Hreg|].
    destruct ((1 <=? workerID)%Z && (workerID <=? workers es)%Z); [|discriminate].
    destruct (inflight es !! i) as [job|] eqn:Hi; [|discriminate].
    pose proof (length_delete_lookup _ _ _ Hi) as Hlen.
    destruct (simulatedFailure job) eqn:Hf.
    + rewrite (processJob_first_attempt job workerID _ Hf) in Hstep.
      cbn [returned] in Hstep.
      inversion Hstep; subst. unfold_totals. rewrite <- Hlen, length_app.
      cbn [length]. split; [lia | first [exact Hopen | reflexivity]].
    + rewrite (processJob_success job workerID _ Hf) in Hstep.
      cbn [returned] in Hstep.
      inversion Hstep; subst. unfold_totals. rewrite <- Hlen.
      split; [lia | first [exact Hopen | reflexivity]].
  - (* EvRetryTimer *)
    destruct (timers es !! i) as [[d job]|] eqn:Hi; [|discriminate].
    pose proof (length_delete_lookup _ _ _ Hi) as Hlen.
    unfold retryGoroutine, chansend, retryReceivers, retryIdle in Hstep.
    simpl_fields. rewrite Hrc in Hstep.
    destruct (idle es) as [|k] eqn:Hidle.
    + destruct (retryWorker es) eqn:Hrw; cbn [Nat.add Nat.ltb Nat.leb] in Hstep.
      3: { cbn [returned] in Hstep. inversion Hstep; subst. unfold_totals.
           rewrite <- Hlen, Hrw. split; [lia | exact Hopen]. }
      all: destruct (chan_len (retryQueue es) <? dataqsiz (retryQueue es))%Z;
        [ cbn [returned] in Hstep; inversion Hstep; subst; unfold_totals;
          rewrite <- Hlen, ?Hrw, length_app; cbn [length];
          (split; [lia | exact Hopen])
        | rewrite moveToDeadLetter_eq in Hstep; cbn [returned] in Hstep;
          inversion Hstep; subst; unfold_totals;
          rewrite append_slice_elems by exact Hwf;
          rewrite <- Hlen, ?Hrw, length_app; cbn [length];
          (split; [lia | exact Hopen]) ].
    + cbn [Nat.add Nat.ltb Nat.leb returned] in Hstep.
      inversion Hstep; subst. unfold_totals. rewrite <- Hlen, length_app.
      cbn [length]. split; [lia | exact Hopen].
  - (* EvMonitorTick *)
    break_step Hstep; inversion Hstep; subst. unfold monitorTick. conserved Hopen.
  - (* EvMonitorExit *)
    rewrite Hsh, andb_false_r in Hstep. discriminate.
  - (* EvGetDeadLetterJobs *)
    destruct (GetDeadLetterJobs_copy es Hwf)
      as (jobs & es1 & Hrun & _ & _ & Hsame & _ & Hlog & _).
    destruct (GetDeadLetterJobs_heap_only es) as (jobs' & h & Hrun').
    rewrite Hrun in Hrun'. inversion Hrun'; subst jobs' es1; clear Hrun'.
    rewrite Hrun in Hstep. inversion Hstep; subst es'. simpl_fields.
    unfold_totals. rewrite (elems_same_array _ _ _ Hsame).
    split; [lia | first [exact Hopen | reflexivity]].
  - (* EvShutdownSignal *)
    rewrite Hnc in Hstep. discriminate.
  - (* EvShutdownReturn *)
    rewrite Hnc in Hstep. discriminate.
Qed.

(** X8. While the service runs without faults and without [Shutdown], no
    accepted job is lost or duplicated: after any run from a fresh service,
    the jobs in the two queues, held by a worker or by [retryWorker], or
    sleeping before their retry, plus the jobs processed or dead-lettered,
    are exactly as many as the submissions [EnqueueJob] accepted. *)
Theorem no_job_lost_or_duplicated (w q : Z) (evs : list event)
    (es0 es : EmailService) :
  NewEmailService w q = Return es0 -> forallb regular evs = true ->
  run evs es0 = Some es ->
  in_system es + finished es = accepted_in evs es0.
Proof.
  intros Hnew Hreg Hrun.
  pose proof (NewEmailService_inv w q es0 Hnew) as Hinv.
  apply NewEmailService_Return in Hnew as [Hq ->].
  pose proof (initial_pool w q) as Hpool.
  assert (Hopen : closed (jobQueue (initial w q)) = false) by reflexivity.
  assert (Hzero : in_system (initial w q) + finished (initial w q) = 0).
  { unfold initial, in_system, finished, deadLetters, elems, make_slice. simpl_fields.
    cbn [array off len]. rewrite lookup_insert_eq. reflexivity. }
  enough (in_system es + finished es =
          in_system (initial w q) + finished (initial w q)
          + accepted_in evs (initial w q)) by lia.
  clear Hzero Hq. revert Hinv Hpool Hopen Hrun. generalize (initial w q).
  induction evs as [|ev evs IH]; intros es0 Hinv Hpool Hopen Hrun;
    cbn [run accepted_in] in *.
  - inversion Hrun; subst. lia.
  - cbn [forallb] in Hreg. apply andb_true_iff in Hreg as [Hev Hreg].
    destruct (step ev es0) as [es1|] eqn:Hs; [|discriminate].
    destruct (step_conserves_jobs w q ev es0 es1 Hinv Hpool Hopen Hev Hs) as [Hc Ho].
    rewrite (IH Hreg es1 (step_inv w q ev es0 es1 Hinv Hs)
               (step_pool_inv w q ev es0 es1 Hinv Hpool Hs) Ho Hrun). lia.
Qed.

Lemma processJob_queueLength (fault : option nat) (job : EmailJob) (id : Z)
    (es es' : EmailService) :
  returned (processJob fault job id es) = Some es' ->
  queueLength es' = queueLength es.
Proof.
  destruct (processJob_effect fault job id es) as (es1 & Hrun & Hsame & _).
  rewrite Hrun. cbn [returned]. intros H. inversion H; subst. apply Hsame.
Qed.

Lemma step_queueLength (ev : event) (es es' : EmailService) :
  step ev es = Some es' ->
  queueLength es' = queueLength es \/
  (ev = EvMonitorTick /\ queueLength es' = chan_len (jobQueue es)).
Proof.
  intros Hstep. destruct ev; cbn [step] in Hstep.
  - destruct (started es); [discriminate|]. step_effect Hstep. left. reflexivity.
  - unfold EnqueueJob, chansend in Hstep.
    break_step Hstep; inversion Hstep; subst; left; reflexivity.
  - unfold chanrecv in Hstep.
    break_step Hstep; inversion Hstep; subst; left; reflexivity.
  - unfold chanrecv in Hstep.
    break_step Hstep; inversion Hstep; subst; left; reflexivity.
  - break_step Hstep; inversion Hstep; subst; left; reflexivity.
  - destruct (free_worker es && shutdown es); [|discriminate].
    step_effect Hstep. left. reflexivity.
  - break_step Hstep; inversion Hstep; subst; left; reflexivity.
  - unfold chanrecv in Hstep.
    break_step Hstep; inversion Hstep; subst; left; reflexivity.
  - break_step Hstep; inversion Hstep; subst; left; reflexivity.
  - break_step Hstep; inversion Hstep; subst; left; reflexivity.
  - destruct (retryWorker es); try discriminate.
    destruct (started es); [|discriminate].
    apply processJob_queueLength in Hstep. left. exact Hstep.
  - destruct (retryWorker es); try discriminate.
    destruct (started es && shutdown es); [|discriminate].
    step_effect Hstep. left. reflexivity.
  - destruct ((1 <=? workerID)%Z && (workerID <=? workers es)%Z); [|discriminate].
    destruct (inflight es !! i) as [job|]; [|discriminate].
    apply processJob_queueLength in Hstep. left. exact Hstep.
  - destruct (timers es !! i) as [[d job]|]; [|discriminate].
    unfold retryGoroutine, chansend in Hstep. simpl_fields.
    destruct (closed (retryQueue es)); [discriminate|].
    destruct (0 <? retryReceivers (set_timers (delete i (timers es)) es)).
    + inversion Hstep; subst. left. destruct (0 <? idle es); reflexivity.
    + destruct (chan_len (retryQueue es) <? dataqsiz (retryQueue es))%Z.
      * inversion Hstep; subst. left. reflexivity.
      * rewrite moveToDeadLetter_eq in Hstep. inversion Hstep; subst. left.
        reflexivity.
  - break_step Hstep; inversion Hstep; subst. right. split; reflexivity.
  - break_step Hstep; inversion Hstep; subst; left; reflexivity.
  - inversion Hstep; subst. left. reflexivity.
  - step_effect Hstep. left. reflexivity.
  - destruct (stopping es); try discriminate. step_effect Hstep. left. reflexivity.
  - break_step Hstep; inversion Hstep; subst; left; reflexivity.
Qed.

(** X10. In every reachable state the queue-length gauge lies between 0
    and the primary capacity; only a tick of [monitorQueueLength] changes
    it, to the length of the primary queue alone (jobs in the retry queue
    or held by workers are not counted). The monitor takes a tick as long
    as it has not returned, also once [Shutdown] has closed the shutdown
    channel. *)
Theorem queue_length_gauge_bounded (w q : Z) (es : EmailService) :
  reachable w q es ->
  (0 <= queueLength es <= q)%Z /\
  (forall ev es',
      step ev es = Some es' ->
      queueLength es' = queueLength es \/
      (ev = EvMonitorTick /\
       queueLength es' = Z.of_nat (length (buf (jobQueue es))))) /\
  (monitoring es = true ->
   exists es',
     step EvMonitorTick es = Some es' /\
     queueLength es' = Z.of_nat (length (buf (jobQueue es))) /\
     monitoring es' = true /\ shutdown es' = shutdown es).
Proof.
  intros Hr. split; [|split].
  - revert es Hr. apply reachable_induction.
    + intros es0 Hnew. apply NewEmailService_Return in Hnew as [Hq ->].
      unfold initial. simpl_fields. lia.
    + intros ev es es' Hinv _ HP Hs.
      destruct (step_queueLength ev es es' Hs) as [-> | [_ ->]]; [exact HP|].
      destruct Hinv as ((_ & (_ & Hlen & _) & _) & _ & _ & Hq & _).
      unfold chan_len in *. lia.
  - intros ev es' Hs. apply (step_queueLength ev es es' Hs).
  - intros Hm. cbn [step]. rewrite Hm. eexists. split; [reflexivity|].
    unfold monitorTick. simpl_fields. auto.
Qed.

(** X15. In every reachable state the primary queue holds at most
    [queueSize] jobs and the retry queue at most [queueSize / 2], and both
    are empty whenever a worker is idle. *)
Theorem queues_are_bounded (w q : Z) (es : EmailService) :
  reachable w q es ->
  (Z.of_nat (length (buf (jobQueue es))) <= q)%Z /\
  (Z.of_nat (length (buf (retryQueue es))) <= q / 2)%Z /\
  (0 < idle es -> buf (jobQueue es) = [] /\ buf (retryQueue es) = []).
Proof.
  intros Hr. apply reachable_inv in Hr.
  destruct Hr as ((_ & (Hq0 & Hj & Hji) & (_ & Hrl & Hri) & _) & _ & _ & Hq1 & Hq2 & _).
  unfold chan_len, jobReceivers, retryReceivers in *.
  rewrite <- Z.quot_div_nonneg by lia. rewrite <- Hq2.
  repeat split; try lia; auto. apply Hri. lia.
Qed.

(** X14. In every reachable state, also after [Shutdown], a sleeping retry
    that wakes up does not panic and does not lose its job: the job (with
    retry count 1, after a sleep of one second) ends at the back of the
    retry queue, in the hands of a waiting worker or of the waiting
    [retryWorker], or at the end of the dead-letter log. *)
Theorem retry_timer_always_lands (w q : Z) (es : EmailService) (i : nat)
    (d : Z) (job : EmailJob) :
  reachable w q es -> timers es !! i = Some (d, job) ->
  d = Second /\ Retries job = 1%Z /\
  exists es',
    step (EvRetryTimer i) es = Some es' /\
    timers es' = delete i (timers es) /\
    (buf (retryQueue es') = buf (retryQueue es) ++ [job] \/
     inflight es' = inflight es ++ [job] \/
     retryWorker es' = RwHolding job \/
     deadLetters es' = deadLetters es ++ [job]).
Proof.
  intros Hr Hi. apply reachable_inv in Hr.
  destruct Hr as ((Hwf & _ & Hwfc & Hrc & _) & (_ & _ & Ft & _) & _).
  pose proof (proj1 (Forall_lookup _ _) Ft i (d, job) Hi) as [Hd Hj].
  split; [exact Hd|]. split; [exact Hj|].
  cbn [step]. rewrite Hi.
  set (es0 := set_timers (delete i (timers es)) es).
  destruct (full (retryQueue es0) (retryReceivers es0)) eqn:Hfull.
  - rewrite (retryGoroutine_full job es0 Hrc Hwfc Hfull).
    destruct (moveToDeadLetter_effect job es0 Hwf)
      as (es1 & Hrun & Hlog & _ & _ & _ & _ & _ & Ht & _).
    rewrite Hrun. exists es1. split; [reflexivity|]. split; [exact Ht|].
    right. right. right. exact Hlog.
  - rewrite (retryGoroutine_not_full job es0 Hrc Hwfc Hfull).
    eexists. split; [reflexivity|]. subst es0.
    destruct (0 <? retryReceivers _); [destruct (0 <? idle _)|]; simpl_fields;
      auto 6.
Qed.

Ltac log_lines :=
  match goal with
  | |- exists l, ?L = ?L ++ l /\ _ => exists []; split; [symmetry; apply app_nil_r|]
  | |- exists l, ?L ++ ?a = ?L ++ l /\ _ => exists a; split; [reflexivity|]
  | |- exists l, (?L ++ ?a) ++ ?b = ?L ++ l /\ _ =>
      exists (a ++ b); split; [symmetry; apply app_assoc|]
  | |- exists l, ((?L ++ ?a) ++ ?b) ++ ?c = ?L ++ l /\ _ =>
      exists (a ++ b ++ c); split; [rewrite <- !app_assoc; reflexivity|]
  end.

Lemma processJob_logs (fault : option nat) (job : EmailJob) (id : Z) (es : EmailService) :
  exists l,
    logs (snd (processJob fault job id es)) = logs es ++ l /\
    forallb attempt_line l = true.
Proof.
  unfold processJob, processJob_body.
  destruct (simulatedFailure job) eqn:Hf.
  - pose proof (simulatedFailure_Retries job Hf) as Hr.
    rewrite (handleJobFailure_first fault job Hr).
    unfold recover, mbind, M_bind, bind, stmt, logf, go_retry, ret.
    case_faults; simpl_fields; log_lines; reflexivity.
  - unfold recover, mbind, M_bind, bind, stmt, logf, go_retry, ret.
    case_faults; simpl_fields; log_lines; reflexivity.
Qed.

(** X16. [processJob] never dead-letters a job: whatever the job and
    whatever fault occurs, it returns normally, leaves the dead-letter log
    and its two counters as they are and writes only the log lines of an
    attempt, so the permanent-failure branch of [handleJobFailure] is never
    taken from it. *)
Theorem processJob_never_dead_letters (fault : option nat) (job : EmailJob)
    (id : Z) (es : EmailService) :
  let es' := snd (processJob fault job id es) in
  fst (processJob fault job id es) = Return tt /\
  deadLetters es' = deadLetters es /\
  jobsFailed es' = jobsFailed es /\ deadLetterJobs es' = deadLetterJobs es /\
  exists l, logs es' = logs es ++ l /\ forallb attempt_line l = true.
Proof.
  intros es'. subst es'.
  destruct (processJob_effect fault job id es) as (es1 & Hrun & Hsame & _).
  pose proof (processJob_logs fault job id es) as Hlogs.
  rewrite Hrun in *. cbn [fst snd] in *. unfold same_service in Hsame.
  unfold deadLetters.
  destruct Hsame as (_ & _ & -> & -> & _ & _ & _ & _ & -> & -> & _).
  auto.
Qed.

(** ** Shutdown *)

Lemma run_app (evs1 evs2 : list event) (es : EmailService) :
  run (evs1 ++ evs2) es =
  match run evs1 es with
  | Some es1 => run evs2 es1
  | None => None
  end.
Proof.
  revert es. induction evs1 as [|ev evs1 IH]; intros es; cbn [run app];
    [reflexivity|].
  destruct (step ev es); [apply IH | reflexivity].
Qed.

Lemma process_zero_jobs (id : Z) (k : nat) (es : EmailService) :
  (1 <= id <= workers es)%Z ->
  inflight es = replicate k zeroJob ->
  exists es',
    run (replicate k (EvProcess 0 id None)) es = Some es' /\
    jobsProcessed es' = jobsProcessed es + k /\ inflight es' = [] /\
    deadLetters es' = deadLetters es /\ timers es' = timers es.
Proof.
  intros Hid. revert es Hid. induction k as [|k IH]; intros es Hid Hin;
    cbn [replicate run].
  - exists es. repeat split; auto; lia.
  - cbn [step]. rewrite Hin. cbn [replicate lookup list_lookup delete list_delete].
    replace ((1 <=? id)%Z && (id <=? workers es)%Z) with true
      by (symmetry; apply andb_true_intro; split; apply Z.leb_le; lia).
    rewrite processJob_success by reflexivity. cbn [returned].
    destruct (IH (set_jobsProcessed (S (jobsProcessed (set_inflight (replicate k zeroJob) es)))
              (set_logs (logs (set_inflight (replicate k zeroJob) es) ++
                         [LogProcessing id (To zeroJob) (Subject zeroJob);
                          LogSent id (To zeroJob)])
                 (set_inflight (replicate k zeroJob) es))))
      as (es' & Hrun & Hp & Hi & Hd & Ht); [exact Hid | reflexivity|].
    exists es'. split; [exact Hrun|]. unfold deadLetters in *. simpl_fields.
    repeat split; auto; lia.
Qed.

Lemma take_from_closed_queue (es : EmailService) :
  free_worker es = true -> closed (jobQueue es) = true -> buf (jobQueue es) = [] ->
  step EvTakeJob es = Some (set_inflight (inflight es ++ [zeroJob]) es).
Proof.
  intros Hst Hc Hb. cbn [step]. unfold chanrecv. rewrite Hst, Hb, Hc.
  destruct es. reflexivity.
Qed.

(** X12. [Shutdown] wakes every worker idle in its [select] with the zero
    value of the closed primary queue: with no job in flight before, as
    many empty jobs as there were idle workers are in flight after
    [close(es.jobQueue)], and processing them adds that number to the
    processed counter although no such job was submitted. Afterwards a
    receive from the drained primary queue does not block either: a worker
    at its [select] gets one more empty job from it. *)
Theorem Shutdown_makes_idle_workers_process_zero_jobs (id : Z)
    (es es1 : EmailService) :
  Shutdown_closeJobQueue es = (Return tt, es1) -> inflight es = [] ->
  (1 <= id <= workers es)%Z ->
  inflight es1 = replicate (idle es) zeroJob /\
  (exists es2,
      run (replicate (idle es) (EvProcess 0 id None)) es1 = Some es2 /\
      jobsProcessed es2 = jobsProcessed es + idle es /\ inflight es2 = []) /\
  (free_worker es1 = true -> buf (jobQueue es1) = [] ->
   step EvTakeJob es1 = Some (set_inflight (inflight es1 ++ [zeroJob]) es1)).
Proof.
  intros Hsd Hin Hid.
  destruct (Shutdown_closeJobQueue_returned es es1) as [Hopen ->].
  { rewrite Hsd. reflexivity. }
  simpl_fields. rewrite Hin. cbn [app].
  split; [reflexivity|]. split.
  - match goal with |- context [run _ ?st] =>
      destruct (process_zero_jobs id (idle es) st) as (es2 & Hrun & Hp & Hi & _)
    end; [exact Hid | reflexivity|].
    exists es2. auto.
  - intros Hfree Hb. apply take_from_closed_queue; [exact Hfree | reflexivity | exact Hb].
Qed.

Lemma wg_Add_ok (delta : Z) (es : EmailService) :
  (0 <= wg es + delta <= max_wg)%Z ->
  wg_Add delta es = (Return tt, set_wg (wg es + delta) es).
Proof.
  intros H. unfold wg_Add.
  destruct (Z.ltb_spec (wg es + delta) 0); [lia|]. cbn [orb].
  destruct (Z.ltb_spec max_wg (wg es + delta)); [lia | reflexivity].
Qed.

(** Bounds of the [WaitGroup] counter in a state that satisfies the
    invariant. *)
Lemma pool_wg_bounds (es : EmailService) :
  pool_inv es ->
  (0 <= wg es <= max_wg)%Z /\
  (started es = true ->
   wg es = (Z.of_nat (nworkers es - exited es) + retry_alive es)%Z).
Proof.
  intros (P1 & P2 & P3 & _). unfold retry_alive in *.
  destruct (started es) eqn:Hst.
  - destruct (P3 eq_refl) as [Hwg Hmax]. split; [|intros _; exact Hwg].
    destruct (retryWorker es); lia.
  - destruct (P2 eq_refl) as (_ & _ & _ & _ & _ & Hwg). unfold max_wg.
    split; [lia | discriminate].
Qed.

Lemma shutdown_no_idle (w q : Z) (es : EmailService) :
  reachable w q es -> stopping es <> SdNotCalled -> idle es = 0.
Proof.
  intros Hr Hs. pose proof (reachable_inv w q es Hr) as ((_ & _ & _ & _ & Hjc) & _).
  pose proof (Shutdown_closes_jobQueue w q es Hr Hs) as Hc.
  destruct (idle es); [reflexivity|].
  rewrite Hjc in Hc by lia. discriminate.
Qed.

(** Every job held by a worker gets processed. *)
Lemma drain_inflight (w q : Z) (n : nat) (es : EmailService) :
  reachable w q es -> length (inflight es) = n ->
  exists evs es',
    run evs es = Some es' /\ inflight es' = [] /\
    stopping es' = stopping es /\ started es' = started es /\
    shutdown es' = shutdown es /\
    jobQueue es' = jobQueue es /\ retryQueue es' = retryQueue es.
Proof.
  revert es. induction n as [|n IH]; intros es Hr Hlen.
  - exists [], es. split; [reflexivity|]. split; [|auto 6].
    apply nil_length_inv, Hlen.
  - destruct (inflight es) as [|job rest] eqn:Hin; [discriminate|].
    pose proof (reachable_pool w q es Hr) as (P1 & _).
    assert (Hid : ((1 <=? 1)%Z && (1 <=? workers es)%Z) = true).
    { apply andb_true_intro. split; apply Z.leb_le; [lia|].
      unfold nworkers in P1. rewrite Hin in P1. cbn [length] in P1. lia. }
    destruct (processJob_effect None job 1 (set_inflight rest es))
      as (es1 & Hrun & Hsame & _).
    pose proof (processJob_goroutines None job 1 (set_inflight rest es)) as Hg.
    rewrite Hrun in Hg. cbn [snd] in Hg.
    assert (Hstep : step (EvProcess 0 1 None) es = Some es1).
    { cbn [step]. rewrite Hid, Hin. cbn [lookup list_lookup delete list_delete].
      rewrite Hrun. reflexivity. }
    unfold same_service, same_goroutines in *. simpl_fields.
    destruct Hsame as (Hjq & Hrq & _ & _ & _ & _ & Hsh & _ & _ & _ & Hst & Hi & _).
    destruct Hg as (_ & _ & _ & _ & Hsp).
    destruct (IH es1 (reachable_step w q _ es es1 Hr Hstep))
      as (evs & es' & Hrun' & Hnil & Hsp' & Hst' & Hsh' & Hjq' & Hrq').
    { rewrite Hi. cbn [length] in Hlen. lia. }
    exists (EvProcess 0 1 None :: evs), es'. cbn [run]. rewrite Hstep.
    split; [exact Hrun'|]. split; [exact Hnil|].
    repeat split; congruence.
Qed.

(** Once the shutdown channel is closed, [retryWorker] gets to its return:
    from its inner [select] by the timeout, from a job by processing it. *)
Lemma retryWorker_exits (w q : Z) (es : EmailService) :
  reachable w q es -> started es = true -> shutdown es = true ->
  exists evs es',
    run evs es = Some es' /\ retryWorker es' = RwExited /\
    inflight es' = inflight es /\ exited es' = exited es /\
    stopping es' = stopping es /\ started es' = true /\ shutdown es' = true /\
    jobQueue es' = jobQueue es /\ retryQueue es' = retryQueue es.
Proof.
  intros Hr Hst Hsh.
  assert (Hexit : forall es0,
             reachable w q es0 -> started es0 = true -> shutdown es0 = true ->
             retryWorker es0 = RwOuter ->
             exists es', step EvRetryWorkerExit es0 = Some es' /\
                         retryWorker es' = RwExited /\
                         inflight es' = inflight es0 /\ exited es' = exited es0 /\
                         stopping es' = stopping es0 /\ started es' = true /\
                         shutdown es' = true /\
                         jobQueue es' = jobQueue es0 /\
                         retryQueue es' = retryQueue es0).
  { intros es0 Hr0 Hst0 Hsh0 Hrw.
    pose proof (pool_wg_bounds es0 (reachable_pool w q es0 Hr0)) as [Hb Hwg].
    specialize (Hwg Hst0). unfold retry_alive in Hwg. rewrite Hrw in Hwg.
    cbn [step]. rewrite Hrw, Hst0, Hsh0. cbn [andb].
    unfold retryWorker_return, wg_Done, mbind, M_bind, bind.
    rewrite wg_Add_ok by lia. cbn [returned].
    eexists. split; [reflexivity|]. simpl_fields. auto 10. }
  assert (Houter : forall es0 es1,
             reachable w q es0 -> started es0 = true -> shutdown es0 = true ->
             step EvRetryWorkerTimeout es0 = Some es1 \/
             step (EvRetryWorkerProcess None) es0 = Some es1 ->
             retryWorker es1 = RwOuter ->
             inflight es1 = inflight es0 -> exited es1 = exited es0 ->
             stopping es1 = stopping es0 -> started es1 = true ->
             shutdown es1 = true ->
             jobQueue es1 = jobQueue es0 -> retryQueue es1 = retryQueue es0 ->
             exists evs es',
               run evs es0 = Some es' /\ retryWorker es' = RwExited /\
               inflight es' = inflight es0 /\ exited es' = exited es0 /\
               stopping es' = stopping es0 /\ started es' = true /\
               shutdown es' = true /\
               jobQueue es' = jobQueue es0 /\ retryQueue es' = retryQueue es0).
  { intros es0 es1 Hr0 Hst0 Hsh0 Hstep Hrw Hi He Hsp Hst1 Hsh1 Hjq Hrq.
    assert (Hr1 : reachable w q es1).
    { destruct Hstep as [Hs|Hs]; apply (reachable_step w q _ es0 es1 Hr0 Hs). }
    destruct (Hexit es1 Hr1 Hst1 Hsh1 Hrw)
      as (es' & Hs' & Hx & Hi' & He' & Hsp' & Hst' & Hsh' & Hjq' & Hrq').
    destruct Hstep as [Hs|Hs].
    - exists [EvRetryWorkerTimeout; EvRetryWorkerExit], es'.
      cbn [run]. rewrite Hs, Hs'. repeat split; congruence.
    - exists [EvRetryWorkerProcess None; EvRetryWorkerExit], es'.
      cbn [run]. rewrite Hs, Hs'. repeat split; congruence. }
  destruct (retryWorker es) eqn:Hrw.
  - destruct (Hexit es Hr Hst Hsh Hrw) as (es' & Hs & Hrest).
    exists [EvRetryWorkerExit], es'. cbn [run]. rewrite Hs. auto.
  - apply (Houter es (set_retryWorker RwOuter es)); auto.
    left. cbn [step]. rewrite Hrw, Hst. reflexivity.
  - apply (Houter es (set_retryWorker RwOuter es)); auto.
    left. cbn [step]. rewrite Hrw, Hst. reflexivity.
  - destruct (processJob_effect None job 0 (set_retryWorker RwOuter es))
      as (es1 & Hrun & Hsame & _).
    pose proof (processJob_goroutines None job 0 (set_retryWorker RwOuter es)) as Hg.
    rewrite Hrun in Hg. cbn [snd] in Hg.
    unfold same_service, same_goroutines in *. simpl_fields.
    destruct Hsame as (Hjq & Hrq & _ & _ & _ & _ & Hsh1 & _ & _ & _ & Hst1 & Hi & _).
    destruct Hg as (_ & He & Hrw1 & _ & Hsp).
    apply (Houter es es1); auto; try congruence.
    right. cbn [step]. rewrite Hrw, Hst, Hrun. reflexivity.
  - exists [], es. cbn [run]. auto 12.
Qed.

(** ... and every worker that holds no job gets to its return. *)
Lemma workers_exit (w q : Z) (k : nat) (es : EmailService) :
  reachable w q es -> started es = true -> shutdown es = true ->
  inflight es = [] -> nworkers es - exited es = k ->
  exists evs es',
    run evs es = Some es' /\ exited es' = nworkers es' /\
    inflight es' = [] /\ retryWorker es' = retryWorker es /\
    stopping es' = stopping es /\ started es' = true /\ shutdown es' = true /\
    jobQueue es' = jobQueue es /\ retryQueue es' = retryQueue es.
Proof.
  revert es. induction k as [|k IH]; intros es Hr Hst Hsh Hin Hk.
  - exists [], es. cbn [run].
    pose proof (reachable_pool w q es Hr) as (P1 & _).
    repeat split; auto. lia.
  - assert (Hidle : idle es = 0).
    { apply (shutdown_no_idle w q es Hr).
      pose proof (reachable_pool w q es Hr) as (_ & _ & _ & _ & [Hp _] & _).
      destruct (Hp Hsh) as [-> | ->]; discriminate. }
    pose proof (pool_wg_bounds es (reachable_pool w q es Hr)) as [Hb Hwg].
    specialize (Hwg Hst).
    assert (Halive : (0 <= retry_alive es <= 1)%Z)
      by (unfold retry_alive; destruct (retryWorker es); lia).
    assert (Hfree : free_worker es = true).
    { unfold free_worker. rewrite Hst, Hidle, Hin. cbn [andb length Nat.add].
      apply Nat.ltb_lt. lia. }
    assert (Hstep : step EvWorkerExit es =
                    Some (set_exited (S (exited es)) (set_wg (wg es + -1) es))).
    { cbn [step]. rewrite Hfree, Hsh. cbn [andb].
      unfold worker_return, wg_Done, mbind, M_bind, bind.
      rewrite wg_Add_ok by lia. reflexivity. }
    destruct (IH _ (reachable_step w q _ es _ Hr Hstep))
      as (evs & es' & Hrun & Hx & Hi & Hrw & Hsp & Hst' & Hsh' & Hjq & Hrq); auto.
    { unfold nworkers in *. simpl_fields. lia. }
    exists (EvWorkerExit :: evs), es'. cbn [run]. rewrite Hstep.
    simpl_fields. auto 12.
Qed.

(** X11. [Shutdown] can be called once, and it returns only after the
    goroutines it waits for. A second call panics with "close of closed
    channel". Its wait ends only when the counter is zero, which in a
    started service means that every worker and [retryWorker] have
    returned, no job is held and no worker is blocked; returning changes
    neither queue, nor the sleeping retries nor the dead-letter log, so
    the jobs still buffered or sleeping stay where they are. And from
    every reachable state there is a run in which [Shutdown] is called, if
    it has not been, and returns, with every job that was buffered in
    either queue still there: the workers can return while jobs wait. On a
    service that was never started the steps of [Shutdown] run back to
    back. *)
Theorem Shutdown_returns_after_goroutines (w q : Z) (es : EmailService) :
  reachable w q es ->
  (stopping es <> SdNotCalled ->
   fst (Shutdown_closeJobQueue es) = Panic "close of closed channel" /\
   step EvShutdown es = None) /\
  (forall es',
      step EvShutdownReturn es = Some es' ->
      stopping es' = SdReturned /\ wg es = 0%Z /\
      (started es = true ->
       exited es = nworkers es /\ retryWorker es = RwExited /\
       inflight es = [] /\ idle es = 0) /\
      jobQueue es' = jobQueue es /\ retryQueue es' = retryQueue es /\
      timers es' = timers es /\ deadLetters es' = deadLetters es) /\
  (exists evs es',
      run evs es = Some es' /\ stopping es' = SdReturned /\
      buf (jobQueue es') = buf (jobQueue es) /\ retryQueue es' = retryQueue es) /\
  (started es = false -> stopping es = SdNotCalled ->
   exists es', run Shutdown es = Some es' /\ stopping es' = SdReturned).
Proof.
  intros Hr. split; [|split; [|split]].
  - intros Hs. pose proof (Shutdown_closes_jobQueue w q es Hr Hs) as Hc.
    cbn [step]. unfold Shutdown_closeJobQueue, mbind, M_bind, bind, logf, closechan.
    simpl_fields. rewrite Hc. split; reflexivity.
  - intros es' Hstep. cbn [step] in Hstep.
    destruct (stopping es) eqn:Hsp; try discriminate.
    unfold wg_Wait in Hstep.
    destruct (Z.eqb_spec (wg es) 0) as [Hwg|?]; [|discriminate].
    inversion Hstep; subst es'; clear Hstep.
    unfold Shutdown_complete, logf, deadLetters. simpl_fields.
    split; [reflexivity|]. split; [exact Hwg|]. split; [|auto].
    intros Hst.
    pose proof (reachable_pool w q es Hr) as Hpool.
    pose proof (pool_wg_bounds es Hpool) as [_ Heq]. specialize (Heq Hst).
    destruct Hpool as (P1 & _). unfold retry_alive in Heq.
    assert (Hidle : idle es = 0).
    { apply (shutdown_no_idle w q es Hr). rewrite Hsp. discriminate. }
    destruct (retryWorker es); try lia.
    repeat split; try lia. apply nil_length_inv. lia.
  - (* a run in which it returns *)
    assert (Hwaiting : forall es0,
               reachable w q es0 -> stopping es0 = SdWaiting ->
               exists evs es',
                 run evs es0 = Some es' /\ stopping es' = SdReturned /\
                 jobQueue es' = jobQueue es0 /\ retryQueue es' = retryQueue es0).
    { intros es0 Hr0 Hsp0.
      assert (Hsh0 : shutdown es0 = true).
      { apply (reachable_pool w q es0 Hr0). left. exact Hsp0. }
      assert (Hret : forall es1,
                 stopping es1 = SdWaiting -> wg es1 = 0%Z ->
                 exists es', step EvShutdownReturn es1 = Some es' /\
                             stopping es' = SdReturned /\
                             jobQueue es' = jobQueue es1 /\
                             retryQueue es' = retryQueue es1).
      { intros es1 Hsp1 Hwg. cbn [step]. unfold wg_Wait. rewrite Hsp1, Hwg.
        cbn. eexists. split; [reflexivity|]. auto. }
      destruct (started es0) eqn:Hst0.
      - destruct (drain_inflight w q _ es0 Hr0 eq_refl)
          as (evs1 & es1 & Hrun1 & Hin1 & Hsp1 & Hst1 & Hsh1 & Hjq1 & Hrq1).
        pose proof (reachable_run w q evs1 es0 es1 Hr0 Hrun1) as Hr1.
        destruct (retryWorker_exits w q es1 Hr1)
          as (evs2 & es2 & Hrun2 & Hrw2 & Hin2 & _ & Hsp2 & Hst2 & Hsh2 & Hjq2 & Hrq2);
          try congruence.
        pose proof (reachable_run w q evs2 es1 es2 Hr1 Hrun2) as Hr2.
        destruct (workers_exit w q _ es2 Hr2 Hst2 Hsh2 ltac:(congruence) eq_refl)
          as (evs3 & es3 & Hrun3 & Hx3 & Hin3 & Hrw3 & Hsp3 & Hst3 & Hsh3 & Hjq3 & Hrq3).
        pose proof (reachable_run w q evs3 es2 es3 Hr2 Hrun3) as Hr3.
        pose proof (pool_wg_bounds es3 (reachable_pool w q es3 Hr3)) as [_ Heq].
        specialize (Heq Hst3). unfold retry_alive in Heq.
        rewrite Hrw3, Hrw2, Hx3, Nat.sub_diag in Heq.
        destruct (Hret es3 ltac:(congruence) Heq) as (es4 & Hs4 & Hsp4 & Hjq4 & Hrq4).
        exists (evs1 ++ evs2 ++ evs3 ++ [EvShutdownReturn]), es4.
        rewrite run_app, Hrun1, run_app, Hrun2, run_app, Hrun3. cbn [run].
        rewrite Hs4. repeat split; congruence.
      - pose proof (reachable_pool w q es0 Hr0) as (_ & P2 & _).
        destruct (P2 Hst0) as (_ & _ & _ & _ & _ & Hwg).
        destruct (Hret es0 Hsp0 Hwg) as (es4 & Hs4 & Hsp4 & Hjq4 & Hrq4).
        exists [EvShutdownReturn], es4. cbn [run]. rewrite Hs4. auto. }
    assert (Hclosing : forall es0,
               reachable w q es0 -> stopping es0 = SdClosing ->
               exists evs es',
                 run evs es0 = Some es' /\ stopping es' = SdReturned /\
                 jobQueue es' = jobQueue es0 /\ retryQueue es' = retryQueue es0).
    { intros es0 Hr0 Hsp0.
      assert (Hidle : idle es0 = 0).
      { apply (shutdown_no_idle w q es0 Hr0). rewrite Hsp0. discriminate. }
      pose proof (reachable_pool w q es0 Hr0) as Hpool.
      pose proof (pool_wg_bounds es0 Hpool) as [Hb _].
      assert (Hsh0 : shutdown es0 = false).
      { destruct (shutdown es0) eqn:Hs; [|reflexivity].
        destruct Hpool as (_ & _ & _ & _ & [Hp _] & _).
        destruct (Hp Hs); congruence. }
      assert (Hstep : exists es1, step EvShutdownSignal es0 = Some es1 /\
                                  stopping es1 = SdWaiting /\
                                  jobQueue es1 = jobQueue es0 /\
                                  retryQueue es1 = retryQueue es0).
      { cbn [step]. rewrite Hsp0.
        unfold Shutdown_closeShutdown, mbind, M_bind, bind. rewrite Hsh0.
        simpl_fields. rewrite Hidle.
        rewrite wg_Add_ok by (simpl_fields; cbn; lia).
        eexists. split; [reflexivity|]. auto. }
      destruct Hstep as (es1 & Hs1 & Hsp1 & Hjq1 & Hrq1).
      destruct (Hwaiting es1 (reachable_step w q _ es0 es1 Hr0 Hs1) Hsp1)
        as (evs & es' & Hrun & Hsp' & Hjq' & Hrq').
      exists (EvShutdownSignal :: evs), es'. cbn [run]. rewrite Hs1.
      repeat split; congruence. }
    destruct (stopping es) eqn:Hsp.
    + pose proof (reachable_pool w q es Hr) as (_ & _ & _ & [Hopen _] & _).
      specialize (Hopen Hsp).
      assert (Hstep : exists es1, step EvShutdown es = Some es1 /\
                                  stopping es1 = SdClosing /\
                                  buf (jobQueue es1) = buf (jobQueue es) /\
                                  retryQueue es1 = retryQueue es).
      { cbn [step].
        unfold Shutdown_closeJobQueue, mbind, M_bind, bind, logf, closechan.
        simpl_fields. rewrite Hopen. eexists. split; [reflexivity|]. auto. }
      destruct Hstep as (es1 & Hs1 & Hsp1 & Hjq1 & Hrq1).
      destruct (Hclosing es1 (reachable_step w q _ es es1 Hr Hs1) Hsp1)
        as (evs & es' & Hrun & Hsp' & Hjq' & Hrq').
      exists (EvShutdown :: evs), es'. cbn [run]. rewrite Hs1.
      repeat split; congruence.
    + destruct (Hclosing es Hr Hsp) as (evs & es' & Hrun & Hsp' & Hjq' & Hrq').
      exists evs, es'. repeat split; congruence.
    + destruct (Hwaiting es Hr Hsp) as (evs & es' & Hrun & Hsp' & Hjq' & Hrq').
      exists evs, es'. repeat split; congruence.
    + exists [], es. cbn [run]. auto.
  - (* never started *)
    intros Hst Hsp.
    pose proof (reachable_pool w q es Hr) as (_ & P2 & _ & [Hopen _] & [Hp _] & _).
    destruct (P2 Hst) as (Hidle & _ & _ & _ & _ & Hwg). specialize (Hopen Hsp).
    assert (Hsh : shutdown es = false).
    { destruct (shutdown es) eqn:Hs; [|reflexivity].
      destruct (Hp eq_refl); congruence. }
    unfold Shutdown. cbn [run step].
    unfold Shutdown_closeJobQueue, mbind, M_bind, bind, logf, closechan.
    simpl_fields. rewrite Hopen. simpl_fields.
    unfold Shutdown_closeShutdown, mbind, M_bind, bind. simpl_fields.
    rewrite Hsh. simpl_fields.
    rewrite wg_Add_ok by (simpl_fields; rewrite Hwg; unfold max_wg; lia).
    simpl_fields. unfold wg_Wait. simpl_fields. rewrite Hwg. cbn.
    eexists. split; reflexivity.
Qed.

(** ** The properties at sample inputs *)

Ltac in_range := vm_compute; split; discriminate.

Lemma ValidateEmail_one_at_witness :
  ValidateEmail "test@example.com" = true /\
  count_occ ascii_dec (list_ascii_of_string "test@example.com") "@"%char = 1.
Proof.
  split; [reflexivity|].
  apply (ValidateEmail_one_at "test@example.com"). reflexivity.
Defined.

Lemma SendEmailHandler_rejection_leaves_service_witness :
  SendEmailHandler (mkRequest "GET" None) (initial 3 100) =
    (Return (httpError "Method not allowed" 405), initial 3 100) /\
  (status (httpError "Method not allowed" 405) <> 202%Z ->
   initial 3 100 = initial 3 100).
Proof.
  split; [reflexivity|].
  apply (SendEmailHandler_rejection_leaves_service (mkRequest "GET" None)
           (initial 3 100) (initial 3 100) (httpError "Method not allowed" 405)).
  reflexivity.
Defined.

Lemma SendEmailHandler_accepts_witness :
  exists resp es',
    SendEmailHandler sampleRequest (initial 3 100) = (Return resp, es') /\
    status resp = 202%Z.
Proof.
  destruct (SendEmailHandler_accepts sampleRequest (initial 3 100)) as [_ Hacc].
  apply (Hacc (mkEmailRequest "a@b.com" "Hi" "x")); try reflexivity;
    try discriminate.
  unfold wf_chan, chan_len. cbn. repeat split; intros; lia.
Defined.

Lemma DeadLetterHandler_report_witness :
  reachable 3 1 (run_from 3 1 lifecycle_full) /\
  exists resp es',
    DeadLetterHandler (mkRequest "GET" None) (run_from 3 1 lifecycle_full) =
      (Return resp, es') /\
    resp = mkResponse 200 (DeadLetterReport 1 [("a@b.com", "This will fail!", "x")]).
Proof.
  assert (Hr : reachable 3 1 (run_from 3 1 lifecycle_full)).
  { apply (reachable_initial 3 1 lifecycle_full); [in_range | vm_compute; reflexivity]. }
  split; [exact Hr|].
  destruct (DeadLetterHandler_report 3 1 (mkRequest "GET" None) _ Hr)
    as (resp & es' & Hrun & _ & _ & _ & Hget & _).
  exists resp, es'. split; [exact Hrun|]. rewrite (Hget eq_refl).
  vm_compute. reflexivity.
Defined.

Lemma getEnvInt_fallback_witness :
  getEnvInt {[ "WORKERS"%string := "3x"%string ]} "WORKERS" 3 = 3%Z.
Proof.
  destruct (getEnvInt_fallback {[ "WORKERS"%string := "3x"%string ]} "WORKERS" 3)
    as (_ & _ & Hbad & _).
  apply (Hbad "3x"%string "x"%char); try reflexivity; try discriminate.
  cbn. auto.
Defined.

Lemma startup_outcome_witness :
  startup {[ "QUEUE_SIZE"%string := "4611686018427387904"%string ]} =
    Panic "makechan: size out of range" /\
  startup {[ "QUEUE_SIZE"%string := "-1"%string ]} =
    Panic "makechan: size out of range" /\
  exists es,
    startup ∅ = Return es /\ wg es = 4%Z /\ dataqsiz (retryQueue es) = (100 / 2)%Z.
Proof.
  split; [|split].
  - apply (startup_outcome {[ "QUEUE_SIZE"%string := "4611686018427387904"%string ]}).
    right. vm_compute. reflexivity.
  - apply (startup_outcome {[ "QUEUE_SIZE"%string := "-1"%string ]}).
    left. vm_compute. reflexivity.
  - destruct (startup_outcome ∅) as (Hok & _).
    destruct Hok as (es & Hrun & _ & _ & _ & Hwg & _ & Hretry);
      [in_range | vm_compute; discriminate|].
    exists es. split; [exact Hrun|]. split; [exact Hwg | exact Hretry].
Defined.

Lemma no_job_lost_or_duplicated_witness :
  NewEmailService 3 100 = Return (initial 3 100) /\
  forallb regular lifecycle = true /\
  run lifecycle (initial 3 100) = Some (run_from 3 100 lifecycle) /\
  in_system (run_from 3 100 lifecycle) + finished (run_from 3 100 lifecycle) = 1.
Proof.
  assert (Hnew : NewEmailService 3 100 = Return (initial 3 100))
    by (vm_compute; reflexivity).
  assert (Hreg : forallb regular lifecycle = true) by (vm_compute; reflexivity).
  assert (Hrun : run lifecycle (initial 3 100) = Some (run_from 3 100 lifecycle))
    by (vm_compute; reflexivity).
  split; [exact Hnew|]. split; [exact Hreg|]. split; [exact Hrun|].
  pose proof (no_job_lost_or_duplicated 3 100 lifecycle _ _ Hnew Hreg Hrun) as H.
  etransitivity; [exact H|]. vm_compute. reflexivity.
Defined.

Lemma counters_and_log_only_grow_witness :
  reachable 3 1 (initial 3 1) /\
  run lifecycle_full (initial 3 1) = Some (run_from 3 1 lifecycle_full) /\
  jobsFailed (initial 3 1) <= jobsFailed (run_from 3 1 lifecycle_full).
Proof.
  assert (Hr : reachable 3 1 (initial 3 1)).
  { apply (reachable_initial 3 1 []); [in_range | reflexivity]. }
  assert (Hrun : run lifecycle_full (initial 3 1) = Some (run_from 3 1 lifecycle_full))
    by (vm_compute; reflexivity).
  split; [exact Hr|]. split; [exact Hrun|].
  destruct (counters_and_log_only_grow 3 1 lifecycle_full _ _ Hr Hrun)
    as (_ & Hf & _).
  exact Hf.
Defined.

(** Two jobs wait in the primary queue when the monitor takes its tick,
    after [Shutdown] has closed both channels: the gauge shows 2. *)
Lemma queue_length_gauge_bounded_witness :
  reachable 3 100 sampledState /\
  shutdown sampledState = true /\ queueLength sampledState = 2%Z /\
  (0 <= queueLength sampledState <= 100)%Z /\
  exists es', step EvMonitorTick sampledState = Some es' /\ queueLength es' = 2%Z.
Proof.
  assert (Hr : reachable 3 100 sampledState).
  { apply (reachable_initial 3 100
             [EvStart; EvSendEmail "a@b.com" "one" "x"; EvSendEmail "c@d.org" "two" "y";
              EvShutdown; EvShutdownSignal; EvMonitorTick]);
      [in_range | vm_compute; reflexivity]. }
  split; [exact Hr|]. split; [vm_compute; reflexivity|].
  split; [vm_compute; reflexivity|].
  destruct (queue_length_gauge_bounded 3 100 _ Hr) as (Hb & _ & Htick).
  split; [exact Hb|].
  destruct Htick as (es' & Hs & Hq & _); [vm_compute; reflexivity|].
  exists es'. split; [exact Hs|]. rewrite Hq. vm_compute. reflexivity.
Defined.

(** [Shutdown] waits while a worker holds a job; it can then return with
    the job that was buffered still in the primary queue. *)
Lemma Shutdown_returns_after_goroutines_witness :
  reachable 3 100 waitingState /\
  stopping waitingState = SdWaiting /\
  inflight waitingState = [plainJob] /\
  step EvShutdownReturn waitingState = None /\
  exists evs es',
    run evs waitingState = Some es' /\ stopping es' = SdReturned /\
    buf (jobQueue es') = [newJob "c@d.org" "two" "y"].
Proof.
  assert (Hr : reachable 3 100 waitingState).
  { apply (reachable_initial 3 100
             [EvStart; EvSendEmail "a@b.com" "Hi" "x"; EvSendEmail "c@d.org" "two" "y";
              EvTakeJob; EvShutdown; EvShutdownSignal]);
      [in_range | vm_compute; reflexivity]. }
  split; [exact Hr|]. split; [vm_compute; reflexivity|].
  split; [vm_compute; reflexivity|]. split; [vm_compute; reflexivity|].
  destruct (Shutdown_returns_after_goroutines 3 100 _ Hr)
    as (_ & _ & (evs & es' & Hrun & Hsp & Hjq & _) & _).
  exists evs, es'. split; [exact Hrun|]. split; [exact Hsp|].
  rewrite Hjq. vm_compute. reflexivity.
Defined.

Lemma Shutdown_makes_idle_workers_process_zero_jobs_witness :
  inflight idleState = [] /\ idle idleState = 2 /\
  exists es1,
    Shutdown_closeJobQueue idleState = (Return tt, es1) /\
    inflight es1 = [zeroJob; zeroJob].
Proof.
  split; [reflexivity|]. split; [reflexivity|].
  eexists. split; [reflexivity|].
  apply (Shutdown_makes_idle_workers_process_zero_jobs 1 idleState _ eq_refl eq_refl).
  in_range.
Defined.

Lemma retry_timer_always_lands_witness :
  reachable 3 100 sleepingState /\
  timers sleepingState !! 0 = Some (Second, with_Retries 1 failingJob) /\
  exists es', step (EvRetryTimer 0) sleepingState = Some es'.
Proof.
  assert (Hr : reachable 3 100 sleepingState).
  { apply (reachable_initial 3 100
             [EvStart; EvSendEmail "a@b.com" "This will fail!" "x"; EvTakeJob;
              EvProcess 0 1 None]); [in_range | vm_compute; reflexivity]. }
  assert (Ht : timers sleepingState !! 0 = Some (Second, with_Retries 1 failingJob))
    by (vm_compute; reflexivity).
  split; [exact Hr|]. split; [exact Ht|].
  destruct (retry_timer_always_lands 3 100 _ 0 _ _ Hr Ht) as (_ & _ & es' & Hs & _).
  exists es'. exact Hs.
Defined.

(** A primary queue of capacity 1 holding one job, and a service with two
    workers blocked in their [select]. *)
Lemma queues_are_bounded_witness :
  (reachable 3 1 filledState /\
   length (buf (jobQueue filledState)) = 1 /\
   (Z.of_nat (length (buf (jobQueue filledState))) <= 1)%Z) /\
  (reachable 3 100 idleState /\ idle idleState = 2 /\
   buf (jobQueue idleState) = [] /\ buf (retryQueue idleState) = []).
Proof.
  split.
  - assert (Hr : reachable 3 1 filledState).
    { apply (reachable_initial 3 1 [EvStart; EvSendEmail "a@b.com" "one" "x"]);
        [in_range | vm_compute; reflexivity]. }
    split; [exact Hr|]. split; [vm_compute; reflexivity|].
    apply (queues_are_bounded 3 1 _ Hr).
  - assert (Hr : reachable 3 100 idleState).
    { apply (reachable_initial 3 100 [EvStart; EvWorkerPark; EvWorkerPark]);
        [in_range | vm_compute; reflexivity]. }
    split; [exact Hr|]. split; [vm_compute; reflexivity|].
    destruct (queues_are_bounded 3 100 _ Hr) as (_ & _ & Hidle).
    apply Hidle. vm_compute. lia.
Defined.
